(** * Background synchronisation core of the download-manager extension

    A shallow embedding of the TypeScript sources
      - [background/index.ts]      (the stored-state subscription handler),
      - [api-actions/shared.ts]    ([wrapInNoPermissionsRetry]),
      - [api-actions/pollTasks.ts] ([pollTasks]),
      - [apis/actions.ts]          ([guessFileName], [partitionPromises],
                                    [addDownloadTasksAndPoll]),
    followed by the properties the specification states about them.

    Conventions of the embedding:
      - JavaScript strings are [string]s (sequences of code units);
      - a JavaScript number holding a timestamp or an error code is a [Z];
      - [undefined]/[null] are [None];
      - a promise is a computation over an explicit [World] that settles as
        [Resolved v] or [Rejected e]; every effect the code issues is
        appended to the world's trace.

    What the embedding takes for granted about the collaborators:
      - the remote client, the storage and the HTTP client report failure
        by rejecting the promise they return;
      - a [storage.local.set] that rejects has committed nothing;
      - the HEAD requests of one submission go out with the calls of
        [urls.map]; the answers arrive in the order the environment
        gives, and the callbacks of an answer run when it arrives. *)

From Stdlib Require Import List String Ascii ZArith QArith Bool Lia Arith DecimalString DecimalNat.
Import ListNotations.

Local Open Scope string_scope.
Local Open Scope list_scope.
Local Open Scope Z_scope.

(* ================================================================== *)
(** ** JavaScript string and array primitives used by the sources      *)
(* ================================================================== *)

Module Js.

(** The double-quote character, code unit 34. *)
Definition dquote : ascii := ascii_of_nat 34.
Definition space : ascii := ascii_of_nat 32.

(** [s.startsWith(p)] *)
Definition startsWith (s p : string) : bool := String.prefix p s.

(** [s.slice(n)] for [0 <= n]: the code units from position [n] on. *)
Fixpoint sliceFrom (n : nat) (s : string) : string :=
  match n, s with
  | O, _ => s
  | S n', String _ s' => sliceFrom n' s'
  | S _, EmptyString => EmptyString
  end.

(** [s.slice(0, n)] for [0 <= n]. *)
Definition sliceTo (n : nat) (s : string) : string := String.substring 0 n s.

(** [s.endsWith(x)]: [x] is no longer than [s] and the last
    [x.length] code units of [s] are [x]. *)
Definition endsWith (s x : string) : bool :=
  (String.length x <=? String.length s)%nat &&
  String.eqb (sliceFrom (String.length s - String.length x) s) x.

(** [s.indexOf(x)]: position of the first occurrence, [-1] if none. *)
Definition indexOf (s x : string) : Z :=
  match String.index 0 x s with
  | Some n => Z.of_nat n
  | None => -1
  end.

(** [s.lastIndexOf(c)] for a one-character needle. *)
Fixpoint lastIndexOfFrom (c : ascii) (s : string) (i acc : Z) : Z :=
  match s with
  | EmptyString => acc
  | String d s' => lastIndexOfFrom c s' (i + 1) (if Ascii.eqb d c then i else acc)
  end.
Definition lastIndexOf (s : string) (c : ascii) : Z := lastIndexOfFrom c s 0 (-1).

(** [s.toLowerCase()] on the ASCII letters. *)
Definition lowerChar (c : ascii) : ascii :=
  let n := nat_of_ascii c in
  if ((65 <=? n) && (n <=? 90))%nat then ascii_of_nat (n + 32) else c.
Fixpoint toLowerCase (s : string) : string :=
  match s with
  | EmptyString => EmptyString
  | String c s' => String (lowerChar c) (toLowerCase s')
  end.

(** [String(n)] for a non-negative integer, as template literals print it. *)
Definition showNat (n : nat) : string := NilEmpty.string_of_uint (Nat.to_uint n).

(** [a.indexOf(x)] on an array of strings: first position, [-1] if none. *)
Fixpoint arrayIndexOfFrom (a : list string) (x : string) (i : Z) : Z :=
  match a with
  | [] => -1
  | y :: a' => if String.eqb y x then i else arrayIndexOfFrom a' x (i + 1)
  end.
Definition arrayIndexOf (a : list string) (x : string) : Z := arrayIndexOfFrom a x 0.

(** [a || b] on possibly-undefined strings: the empty string is falsy. *)
Definition orElse (a b : option string) : option string :=
  match a with
  | Some EmptyString | None => b
  | Some _ => a
  end.

(** Longest prefix of [s] whose code units satisfy [p], and the rest. *)
Fixpoint span (p : ascii -> bool) (s : string) : string * string :=
  match s with
  | EmptyString => (EmptyString, EmptyString)
  | String c s' =>
      if p c then let (run, rest) := span p s' in (String c run, rest)
      else (EmptyString, s)
  end.

(** Every code unit of [s] satisfies [p]. *)
Fixpoint allChars (p : ascii -> bool) (s : string) : bool :=
  match s with
  | EmptyString => true
  | String c s' => p c && allChars p s'
  end.

End Js.

(* ================================================================== *)
(** ** Data model                                                      *)
(* ================================================================== *)

(** The fields of a remote task that the core reads. *)
Record DownloadStationTask := {
  task_id : string;
  task_title : string;
  task_status : string
}.

(** [taskFetchFailureReason : "missing-config" | { failureMessage } | null] *)
Inductive FailureReason :=
| NoFailure                                (* null *)
| MissingConfig                            (* "missing-config" *)
| FailureMessage (failureMessage : string).

Record CachedTasks := {
  tasks : list DownloadStationTask;
  taskFetchFailureReason : FailureReason;
  tasksLastInitiatedFetchTimestamp : option Z;
  tasksLastCompletedFetchTimestamp : option Z
}.

(** [Partial<CachedTasks>]: every key may be absent. *)
Record PartialCachedTasks := {
  p_tasks : option (list DownloadStationTask);
  p_taskFetchFailureReason : option FailureReason;
  p_tasksLastInitiatedFetchTimestamp : option (option Z);
  p_tasksLastCompletedFetchTimestamp : option (option Z)
}.

Definition override {A} (old : A) (new : option A) : A :=
  match new with Some v => v | None => old end.

Definition overrideKey {A} (old new : option A) : option A :=
  match new with Some v => Some v | None => old end.

(** Object spread [{ ...a, ...b }]: keys of [b] win. *)
Definition spread (a b : PartialCachedTasks) : PartialCachedTasks :=
  {| p_tasks := overrideKey (p_tasks a) (p_tasks b);
     p_taskFetchFailureReason :=
       overrideKey (p_taskFetchFailureReason a) (p_taskFetchFailureReason b);
     p_tasksLastInitiatedFetchTimestamp :=
       overrideKey (p_tasksLastInitiatedFetchTimestamp a)
                   (p_tasksLastInitiatedFetchTimestamp b);
     p_tasksLastCompletedFetchTimestamp :=
       overrideKey (p_tasksLastCompletedFetchTimestamp a)
                   (p_tasksLastCompletedFetchTimestamp b) |}.

(** What a committed [browser.storage.local.set(p)] does to the cache:
    a shallow merge of the provided keys. *)
Definition merge (c : CachedTasks) (p : PartialCachedTasks) : CachedTasks :=
  {| tasks := override (tasks c) (p_tasks p);
     taskFetchFailureReason :=
       override (taskFetchFailureReason c) (p_taskFetchFailureReason p);
     tasksLastInitiatedFetchTimestamp :=
       override (tasksLastInitiatedFetchTimestamp c)
                (p_tasksLastInitiatedFetchTimestamp p);
     tasksLastCompletedFetchTimestamp :=
       override (tasksLastCompletedFetchTimestamp c)
                (p_tasksLastCompletedFetchTimestamp p) |}.

(** The state delivered to the [onStoredStateChange] subscriber: the
    cache plus the one setting the completion decision reads. *)
Record StoredState := {
  cached : CachedTasks;
  enableCompletionNotifications : bool
}.

(* ================================================================== *)
(** ** Notification decision engine ([background/index.ts])            *)
(* ================================================================== *)

Module Background.

(** A completion notification [notify(`${task.title}`, "Download_finished")].
    [note_task] records the task id the [forEach] was visiting when the
    notification was issued. *)
Record Notice := {
  note_task : string;
  note_title : string;
  note_message : string
}.

(** [t.status === "finished" || t.status === "seeding"] *)
Definition isTerminal (t : DownloadStationTask) : bool :=
  String.eqb (task_status t) "finished" || String.eqb (task_status t) "seeding".

(** The guard of the completion decision:
    [tasksLastCompletedFetchTimestamp != null &&
     tasksLastCompletedFetchTimestamp > START_TIME &&
     taskFetchFailureReason == null]. *)
Definition confirmed (START_TIME : Z) (storedState : StoredState) : bool :=
  match tasksLastCompletedFetchTimestamp (cached storedState) with
  | None => false
  | Some t =>
      (START_TIME <? t) &&
      match taskFetchFailureReason (cached storedState) with
      | NoFailure => true
      | _ => false
      end
  end.

(** [storedState.tasks.filter(isTerminal).map(t => t.id)] *)
Definition updatedFinishedTaskIds (storedState : StoredState) : list string :=
  map task_id (filter isTerminal (tasks (cached storedState))).

(** [updatedFinishedTaskIds.filter(id => finishedTaskIds.indexOf(id) === -1)] *)
Definition newlyFinishedTaskIds (finishedTaskIds : list string)
           (storedState : StoredState) : list string :=
  filter (fun id => Js.arrayIndexOf finishedTaskIds id =? -1)
         (updatedFinishedTaskIds storedState).

(** The body of the [forEach]: look the task up by id and notify when
    completion notifications are enabled.  The lookup
    [tasks.filter(t => t.id === id)[0]] cannot come back undefined for
    an id drawn from the same task list (lemma [lookup_defined]). *)
Definition notifyFinished (storedState : StoredState) (id : string) : list Notice :=
  match filter (fun t => String.eqb (task_id t) id) (tasks (cached storedState)) with
  | task :: _ =>
      if enableCompletionNotifications storedState
      then [ {| note_task := id; note_title := task_title task;
                note_message := "Download_finished" |} ]
      else []
  | [] => []
  end.

(** Lines 153-177 of the handler: the new value of the process-local
    [finishedTaskIds] and the notifications issued. *)
Definition onStoredStateChange (START_TIME : Z)
           (finishedTaskIds : option (list string)) (storedState : StoredState)
  : list Notice * option (list string) :=
  if confirmed START_TIME storedState then
    let notices :=
      match finishedTaskIds with
      | Some tracked =>
          flat_map (notifyFinished storedState)
                   (newlyFinishedTaskIds tracked storedState)
      | None => []
      end in
    let grown :=
      match finishedTaskIds with
      | Some tracked => tracked
      | None => []
      end ++
      filter (fun taskId =>
                match finishedTaskIds with
                | None => true
                | Some tracked => Js.arrayIndexOf tracked taskId =? -1
                end)
             (updatedFinishedTaskIds storedState) in
    (notices, Some grown)
  else ([], finishedTaskIds).

(** The handler run over a sequence of cache-change events. *)
Fixpoint run (START_TIME : Z) (finishedTaskIds : option (list string))
         (events : list StoredState) : list Notice * option (list string) :=
  match events with
  | [] => ([], finishedTaskIds)
  | e :: rest =>
      let (n1, s1) := onStoredStateChange START_TIME finishedTaskIds e in
      let (n2, s2) := run START_TIME s1 rest in
      (n1 ++ n2, s2)
  end.

(** Membership in the tracked terminal-ID set. *)
Definition tracked (finishedTaskIds : option (list string)) (id : string) : Prop :=
  match finishedTaskIds with
  | Some l => In id l
  | None => False
  end.

(** How many notifications were issued for task [id]. *)
Definition noticesFor (id : string) (ns : list Notice) : nat :=
  List.length (filter (fun n => String.eqb (note_task n) id) ns).

(** Each snapshot of the remote list carries a task id at most once
    (the data model's [id] is unique). *)
Definition uniqueIds (storedState : StoredState) : Prop :=
  NoDup (map task_id (tasks (cached storedState))).

End Background.

(* ================================================================== *)
(** ** Remote client, storage and network: types                       *)
(* ================================================================== *)

(** [ConnectionFailure]: carries its sub-kind in [type]. *)
Record ConnectionFailure := { cf_type : string }.

(** [SynologyResponse<T> = { success: true, data } | { success: false, error: { code } }] *)
Inductive SynologyResponse (T : Type) :=
| Success (data : T)
| Failure (code : Z).
Arguments Success {T} data.
Arguments Failure {T} code.

(** [ConnectionFailure | SynologyResponse<T>] *)
Inductive ApiResult (T : Type) :=
| ConnFailure (failure : ConnectionFailure)
| Response (response : SynologyResponse T).
Arguments ConnFailure {T} failure.
Arguments Response {T} response.

Definition isConnectionFailure {T} (result : ApiResult T) : bool :=
  match result with ConnFailure _ => true | Response _ => false end.

Record MetadataFileType := { mediaType : string; extension : string }.

(** HTTP headers as axios delivers them: lower-case names to values. *)
Definition Headers := list (string * string).

Fixpoint header (headers : Headers) (name : string) : option string :=
  match headers with
  | [] => None
  | (k, v) :: rest => if String.eqb k name then Some v else header rest name
  end.

(** [new Blob([data], { type })] *)
Record Blob := { blob_data : string; blob_type : string }.

Record FormFile := { content : Blob; filename : string }.

(** A pending submission item: a fetched metadata file or a bare URL. *)
Definition TaskItem := (FormFile + string)%type.

Definition isFormFile (task : TaskItem) : bool :=
  match task with inl _ => true | inr _ => false end.

Record DownloadStationTaskCreateRequest := {
  file : list FormFile;
  uri : list string;
  destination : option string
}.

(** The response of [Axios.get(url, { responseType: 'arraybuffer' })]. *)
Record GetResponse := { get_data : string; get_headers : Headers }.

(** The value of a JavaScript number: not-a-number, an infinity, or the
    rational a finite double denotes. *)
Inductive JsNumber :=
| NaN
| Infinity (negative : bool)
| Finite (q : Q).

Definition isNaN (x : JsNumber) : bool :=
  match x with NaN => true | _ => false end.

(** [x < n] for an integer [n]; every comparison with NaN is false. *)
Definition numberLt (x : JsNumber) (n : Z) : bool :=
  match x with
  | NaN => false
  | Infinity negative => negative
  | Finite q => negb (Qle_bool (inject_Z n) q)
  end.

Definition NotificationId := nat.

(** A rejection reason: whatever a promise rejects with or a callback
    throws.  The program asks of a reason only whether it is an
    instance of [Error] ([partitionPromises]); a reason that is not one
    is here always a string.  A string used where a reason is expected
    stands for the [Error] with that message. *)
Inductive Error :=
| ErrorObject (message : string)      (* new Error(message), a TypeError, ... *)
| PlainValue (value : string).        (* anything that is not an Error *)
Coercion ErrorObject : string >-> Error.

(** How a promise settles. *)
Inductive Settled (A : Type) :=
| Resolved (value : A)
| Rejected (reason : Error).
Arguments Resolved {A} value.
Arguments Rejected {A} reason.

(** The effects the code issues, in the order it issues them. *)
Inductive Event :=
| DateNow (t : Z)                                   (* Date.now() *)
| StorageSet (p : PartialCachedTasks)               (* browser.storage.local.set(p) *)
| TaskList                                          (* api.DownloadStation.Task.List(..) *)
| TaskCreate (options : DownloadStationTaskCreateRequest)
| AuthLogout                                        (* api.Auth.Logout() *)
| Notify (title : string) (message : option string)
         (given : option NotificationId) (id : NotificationId)
| AxiosHead (url : string)
| AxiosGet (url : string).

(** The behaviour of everything outside the program.  Each oracle sees
    the history up to and including the request it answers. *)
Record Env := {
  (** the [k]-th reading of the clock *)
  clock : nat -> Z;
  (** whether a [storage.local.set] commits (and resolves) or rejects *)
  storageCommits : list Event -> bool;
  taskListReply : list Event -> Settled (ApiResult (list DownloadStationTask));
  taskCreateReply : list Event -> Settled (ApiResult unit);
  headReply : list Event -> Settled Headers;
  getReply : list Event -> Settled GetResponse;
  (** the order in which the promises that [urls.map] returned settle,
      as positions in the list, seen from the history at which all of
      them exist; positions not named settle afterwards, in list
      order *)
  arrival : list Event -> list nat
}.

(** Pure helpers the sources import from elsewhere ([./apiErrors]) or
    from the language ([+s], the string-to-number conversion). *)
Record Lib := {
  errorMessageFromCode : Z -> string -> string;
  errorMessageFromConnectionFailure : ConnectionFailure -> string;
  StringToNumber : string -> JsNumber
}.

Record World := {
  trace : list Event;
  store : CachedTasks;         (* browser.storage.local *)
  ticks : nat;                 (* clock readings taken so far *)
  idCounter : nat              (* next fresh notification id *)
}.

(** A promise-returning computation. *)
Definition Async (A : Type) := World -> Settled A * World.

Definition ret {A} (a : A) : Async A := fun w => (Resolved a, w).

Definition reject {A} (e : Error) : Async A := fun w => (Rejected e, w).

(** [p.then(k)] *)
Definition bind {A B} (p : Async A) (k : A -> Async B) : Async B :=
  fun w =>
    match p w with
    | (Resolved a, w') => k a w'
    | (Rejected e, w') => (Rejected e, w')
    end.

(** [p.catch(h)] *)
Definition catch {A} (p : Async A) (h : Error -> Async A) : Async A :=
  fun w =>
    match p w with
    | (Resolved a, w') => (Resolved a, w')
    | (Rejected e, w') => h e w'
    end.

(** [Promise.all([p, q])]: both are started; the result rejects as soon
    as one of them does. *)
Definition all2 {A B} (p : Async A) (q : Async B) : Async (A * B) :=
  fun w =>
    let (ra, w1) := p w in
    let (rb, w2) := q w1 in
    match ra, rb with
    | Resolved a, Resolved b => (Resolved (a, b), w2)
    | Rejected e, _ => (Rejected e, w2)
    | _, Rejected e => (Rejected e, w2)
    end.

Declare Scope async_scope.
Delimit Scope async_scope with async.
Notation "x <- p ;; k" := (bind p (fun x => k))
  (at level 100, p at next level, right associativity) : async_scope.
Notation "' pat <- p ;; k" := (bind p (fun x => match x with pat => k end))
  (at level 100, pat pattern, p at next level, right associativity) : async_scope.
Notation "p ;; k" := (bind p (fun _ => k))
  (at level 100, right associativity) : async_scope.

Definition log (e : Event) (w : World) : World :=
  {| trace := trace w ++ [e]; store := store w;
     ticks := ticks w; idCounter := idCounter w |}.

(** Issue a request and settle as the environment answers. *)
Definition request {A} (e : Event) (reply : list Event -> Settled A) : Async A :=
  fun w => let w' := log e w in (reply (trace w'), w').

(** A call of a promise-returning function, where it matters that the
    promise is awaited later: what the call issues at once, and the
    promise it returns, which stands for what happens once the answer
    is there. *)
Definition Call (A : Type) := World -> Async A * World.

(** A promise that settles as [s] and issues nothing. *)
Definition settled {A} (s : Settled A) : Async A := fun w => (s, w).

(** The call made and the promise awaited at once. *)
Definition await {A} (call : Call A) : Async A :=
  fun w => let (promise, w') := call w in promise w'.

(** [l.map(f)] for a promise-returning [f]: the calls are made one
    after the other, each issuing what it issues at once, before any of
    the promises is looked at. *)
Fixpoint mapCalls {A B} (f : A -> Call B) (l : list A)
  : World -> list (Async B) * World :=
  match l with
  | [] => fun w => ([], w)
  | x :: rest =>
      fun w =>
        let (promise, w1) := f x w in
        let (promises, w2) := mapCalls f rest w1 in
        (promise :: promises, w2)
  end.

(** The promise at position [i] settles: its callbacks run, and from
    then on it stands settled.  A position past the end names no
    promise, and settling a settled promise changes nothing. *)
Fixpoint settleAt {A} (i : nat) (promises : list (Async A)) {struct promises}
  : World -> list (Async A) * World :=
  match promises with
  | [] => fun w => ([], w)
  | promise :: rest =>
      match i with
      | O => fun w => let (s, w') := promise w in (settled s :: rest, w')
      | S j => fun w => let (rest', w') := settleAt j rest w in (promise :: rest', w')
      end
  end.

(** The promises settle in the given order. *)
Fixpoint handleArrivals {A} (order : list nat) (promises : list (Async A))
  : World -> list (Async A) * World :=
  match order with
  | [] => fun w => (promises, w)
  | i :: later =>
      fun w =>
        let (promises', w') := settleAt i promises w in
        handleArrivals later promises' w'
  end.

(** The events a computation appended to a trace. *)
Definition issued (before after : World) : list Event :=
  skipn (List.length (trace before)) (trace after).

(* ================================================================== *)
(** ** The program                                                     *)
(* ================================================================== *)

Section Program.

Variable env : Env.
Variable lib : Lib.

Local Open Scope async_scope.

(** *** Primitive effects *)

(** [Date.now()] *)
Definition Date_now : Async Z :=
  fun w =>
    let t := clock env (ticks w) in
    (Resolved t,
     {| trace := trace w ++ [DateNow t]; store := store w;
        ticks := S (ticks w); idCounter := idCounter w |}).

(** [browser.storage.local.set(p)]: merges the keys of [p] into the
    cache when it commits; a rejected write leaves the cache alone. *)
Definition storage_local_set (p : PartialCachedTasks) : Async unit :=
  fun w =>
    let w' := log (StorageSet p) w in
    if storageCommits env (trace w')
    then (Resolved tt,
          {| trace := trace w'; store := merge (store w') p;
             ticks := ticks w'; idCounter := idCounter w' |})
    else (Rejected "storage.local.set failed", w').

(** [api.Auth.Logout()]; the promise it returns is not awaited. *)
Definition Auth_Logout : Async unit :=
  fun w => (Resolved tt, log AuthLogout w).

(** [api.DownloadStation.Task.List({ offset: 0, limit: -1, .. })] *)
Definition Task_List (_ : unit) : Async (ApiResult (list DownloadStationTask)) :=
  request TaskList (taskListReply env).

(** [api.DownloadStation.Task.Create(options)] *)
Definition Task_Create (options : DownloadStationTaskCreateRequest)
  : Async (ApiResult unit) :=
  request (TaskCreate options) (taskCreateReply env).

(** [Axios.head(url, { timeout: 10000 })], resolving with the headers. *)
Definition Axios_head (url : string) : Async Headers :=
  request (AxiosHead url) (headReply env).

(** [Axios.head(url, ..)] as a call: the request goes out when the call
    is made, and the promise settles with the answer to it. *)
Definition Axios_head_call (url : string) : Call Headers :=
  fun w => let w' := log (AxiosHead url) w in (settled (headReply env (trace w')), w').

(** [Axios.get(url, { responseType: 'arraybuffer', timeout: 10000 })] *)
Definition Axios_get (url : string) : Async GetResponse :=
  request (AxiosGet url) (getReply env).

(** Modelled from the spec: [notify(title, body?, id?) -> notificationId]
    of [./browserApi], which is not among the sources.  It shows a
    notification under the given identity, updating in place the one
    that already has it, and under a fresh identity when none is
    given; it returns the identity used. *)
Definition notify (title : string) (message : option string)
           (id : option NotificationId) : Async NotificationId :=
  fun w =>
    match id with
    | Some i => (Resolved i, log (Notify title message id i) w)
    | None =>
        let i := idCounter w in
        (Resolved i,
         {| trace := trace w ++ [Notify title message id i]; store := store w;
            ticks := ticks w; idCounter := S i |})
    end.

(** *** [api-actions/shared.ts] *)

Definition NO_PERMISSIONS_ERROR_CODE : Z := 105.

(** [!isConnectionFailure(result) && !result.success &&
     result.error.code === NO_PERMISSIONS_ERROR_CODE] *)
Definition isNoPermissionsFailure {T} (result : ApiResult T) : bool :=
  negb (isConnectionFailure result) &&
  match result with
  | Response (Failure code) => code =? NO_PERMISSIONS_ERROR_CODE
  | _ => false
  end.

Definition wrapInNoPermissionsRetry {Args T}
           (fn : Args -> Async (ApiResult T)) (args : Args)
  : Async (ApiResult T) :=
  result <- fn args ;;
  if isNoPermissionsFailure result
  then (Auth_Logout ;; fn args)
  else ret result.

(** *** [api-actions/pollTasks.ts] *)

Definition doTaskPoll : unit -> Async (ApiResult (list DownloadStationTask)) :=
  wrapInNoPermissionsRetry Task_List.

(** [setCachedTasksResponse], local to [pollTasks]:
    [storage.local.set({ tasksLastCompletedFetchTimestamp: Date.now(), ...cachedTasks })] *)
Definition setCachedTasksResponse (cachedTasks : PartialCachedTasks) : Async unit :=
  now <- Date_now ;;
  storage_local_set
    (spread {| p_tasks := None; p_taskFetchFailureReason := None;
               p_tasksLastInitiatedFetchTimestamp := None;
               p_tasksLastCompletedFetchTimestamp := Some (Some now) |}
            cachedTasks).

(** The promise chain of [pollTasks] up to, and without, its final
    [.catch]: [Promise.all([storage.local.set(cachedTasksInit), doTaskPoll(api)])
    .then(([_, response]) => ...)]. *)
Definition pollAttempt (t : Z) : Async unit :=
  let cachedTasksInit :=
    {| p_tasks := None; p_taskFetchFailureReason := None;
       p_tasksLastInitiatedFetchTimestamp := Some (Some t);
       p_tasksLastCompletedFetchTimestamp := None |} in
  '(_, response) <- all2 (storage_local_set cachedTasksInit) (doTaskPoll tt) ;;
  match response with
  | ConnFailure failure =>
      if String.eqb (cf_type failure) "missing-config"
      then setCachedTasksResponse
             {| p_tasks := None;
                p_taskFetchFailureReason := Some MissingConfig;
                p_tasksLastInitiatedFetchTimestamp := None;
                p_tasksLastCompletedFetchTimestamp := None |}
      else setCachedTasksResponse
             {| p_tasks := None;
                p_taskFetchFailureReason :=
                  Some (FailureMessage
                          (errorMessageFromConnectionFailure lib failure));
                p_tasksLastInitiatedFetchTimestamp := None;
                p_tasksLastCompletedFetchTimestamp := None |}
  | Response (Success data) =>
      setCachedTasksResponse
        {| p_tasks := Some data;
           p_taskFetchFailureReason := Some NoFailure;
           p_tasksLastInitiatedFetchTimestamp := None;
           p_tasksLastCompletedFetchTimestamp := None |}
  | Response (Failure code) =>
      setCachedTasksResponse
        {| p_tasks := None;
           p_taskFetchFailureReason :=
             Some (FailureMessage
                     (errorMessageFromCode lib code "DownloadStation.Task"));
           p_tasksLastInitiatedFetchTimestamp := None;
           p_tasksLastCompletedFetchTimestamp := None |}
  end.

(** [pollTasks(api)], for collaborators whose calls return a promise:
    the initiation time is read first, and whatever makes the chain
    reject is caught and logged.  The two calls that make the promises
    stand in the body of the function, before the chain exists; what
    happens when one of them throws is in [Throwing.pollTasks] below,
    which is this definition when no call throws. *)
Definition pollTasks : Async unit :=
  t <- Date_now ;;
  catch (pollAttempt t) (fun error => ret tt).

(** [clearCachedTasks] *)
Definition clearCachedTasks : Async unit :=
  storage_local_set
    {| p_tasks := Some []; p_taskFetchFailureReason := Some NoFailure;
       p_tasksLastInitiatedFetchTimestamp := Some None;
       p_tasksLastCompletedFetchTimestamp := Some None |}.

(** *** [apis/actions.ts]: the submission pipeline *)

Definition AUTO_DOWNLOAD_TORRENT_FILE_PROTOCOLS : list string :=
  ["http"; "https"].

Definition DOWNLOADABLE_PROTOCOLS : list string :=
  ["http"; "https"; "ftp"; "ftps"; "magnet"; "thunder"; "flashget"; "qqdl"].

Definition METADATA_FILE_TYPES : list MetadataFileType :=
  [ {| mediaType := "application/x-bittorrent"; extension := ".torrent" |};
    {| mediaType := "application/x-nzb"; extension := ".nzb" |} ].

Definition ARBITRARY_FILE_FETCH_SIZE_CUTOFF : Z := 1024 * 1024 * 5.

(** [protocols.some(protocol => url.startsWith(`${protocol}:`))] *)
Definition startsWithAnyProtocol (url : string) (protocols : list string) : bool :=
  existsb (fun protocol => Js.startsWith url (protocol ++ ":")%string) protocols.

(** [FILENAME_PROPERTY_REGEX = /filename=(Q([^Q]+)Q|([^Q][^ ]+))/],
    writing Q for the double-quote character.
    The matcher follows the backtracking semantics of the pattern: at
    the leftmost position where the literal [filename=] is followed by
    one of the two alternatives, tried in order.  Both quantifiers are
    greedy and nothing but the closing quote follows them, so giving
    characters back never turns a failure into a success. *)
Record RegexMatch := { group2 : option string; group3 : option string }.

Definition notQuote (c : ascii) : bool := negb (Ascii.eqb c Js.dquote).
Definition notSpace (c : ascii) : bool := negb (Ascii.eqb c Js.space).

(** The alternative [Q([^Q]+)Q] at the start of [s]; yields group 2. *)
Definition matchQuoted (s : string) : option string :=
  match s with
  | String q s' =>
      if Ascii.eqb q Js.dquote then
        match Js.span notQuote s' with
        | (String c run, String _ _) => Some (String c run)
        | _ => None
        end
      else None
  | EmptyString => None
  end.

(** The alternative [([^Q][^ ]+)] at the start of [s]; yields group 3. *)
Definition matchUnquoted (s : string) : option string :=
  match s with
  | String c s' =>
      if notQuote c then
        match Js.span notSpace s' with
        | (String d run, _) => Some (String c (String d run))
        | (EmptyString, _) => None
        end
      else None
  | EmptyString => None
  end.

(** The whole pattern anchored at the start of [s]. *)
Definition matchHere (s : string) : option RegexMatch :=
  if Js.startsWith s "filename=" then
    let value := Js.sliceFrom 9 s in
    match matchQuoted value with
    | Some g => Some {| group2 := Some g; group3 := None |}
    | None =>
        match matchUnquoted value with
        | Some g => Some {| group2 := None; group3 := Some g |}
        | None => None
        end
    end
  else None.

(** [FILENAME_PROPERTY_REGEX.exec(s)] *)
Fixpoint FILENAME_PROPERTY_REGEX_exec (s : string) : option RegexMatch :=
  match matchHere s with
  | Some m => Some m
  | None =>
      match s with
      | EmptyString => None
      | String _ s' => FILENAME_PROPERTY_REGEX_exec s'
      end
  end.

(** The name chosen before the extension is looked at: the first
    half of [guessFileName]. *)
Definition maybeFilename (urlWithoutQuery : string) (headers : Headers)
  : option string :=
  match header headers "content-disposition" with
  | Some contentDisposition =>
      if negb (String.eqb contentDisposition "") &&
         negb (Js.indexOf contentDisposition "filename=" =? -1)
      then
        match FILENAME_PROPERTY_REGEX_exec contentDisposition with
        | Some regexMatch =>
            Js.orElse (Js.orElse (group2 regexMatch) (group3 regexMatch)) None
        | None => None
        end
      else
        Some (Js.sliceFrom (Z.to_nat (Js.lastIndexOf urlWithoutQuery "/" + 1))
                           urlWithoutQuery)
  | None =>
      Some (Js.sliceFrom (Z.to_nat (Js.lastIndexOf urlWithoutQuery "/" + 1))
                         urlWithoutQuery)
  end.

Definition guessFileName (urlWithoutQuery : string) (headers : Headers)
           (metadataFileType : MetadataFileType) : string :=
  let name :=
    match maybeFilename urlWithoutQuery headers with
    | None | Some EmptyString => "download"
    | Some n => n
    end in
  if Js.endsWith name (extension metadataFileType)
  then name
  else (name ++ extension metadataFileType)%string.

Definition doCreateTask
  : DownloadStationTaskCreateRequest -> Async (ApiResult unit) :=
  wrapInNoPermissionsRetry Task_Create.

(** [e && e instanceof Error ? e : new Error]: a reason that is an
    [Error] is kept, any other is replaced by a new [Error] without a
    message. *)
Definition errorOrNew (e : Error) : Error :=
  match e with
  | ErrorObject _ => e
  | PlainValue _ => ErrorObject ""
  end.

(** [partitionPromises]: waits for the promises in queue order and
    sorts their settlements into [resolved] and [rejected]; it never
    rejects itself.  The promises it is given exist already: what
    their creation issued (the HEAD requests) lies before, and an
    element of the list stands for what is left of a promise: its
    settlement, or the callbacks attached to an answer that is still
    to come, which then run when the promise is waited for. *)
Fixpoint partitionPromises {T} (promises : list (Async T))
  : Async (list T * list Error) :=
  match promises with
  | [] => ret ([], [])
  | first :: queue =>
      fun w =>
        let (settled, w1) := first w in
        ('(resolved, rejected) <- partitionPromises queue ;;
         match settled with
         | Resolved result => ret (result :: resolved, rejected)
         | Rejected e => ret (resolved, errorOrNew e :: rejected)
         end) w1
  end.

(** [+contentLength] on a header that may be missing. *)
Definition unaryPlus (v : option string) : JsNumber :=
  match v with
  | None => NaN
  | Some s => StringToNumber lib s
  end.

(** [url.indexOf('?') !== -1 ? url.slice(0, url.indexOf('?')) : url] *)
Definition urlWithoutQuery (url : string) : string :=
  if negb (Js.indexOf url "?" =? -1)
  then Js.sliceTo (Z.to_nat (Js.indexOf url "?")) url
  else url.

(** [find(METADATA_FILE_TYPES, fileType => contentType === fileType.mediaType
                               || urlWithoutQuery.endsWith(fileType.extension))] *)
Definition findMetadataFileType (contentType url : string)
  : option MetadataFileType :=
  find (fun fileType =>
          String.eqb contentType (mediaType fileType) ||
          Js.endsWith (urlWithoutQuery url) (extension fileType))
       METADATA_FILE_TYPES.

(** The [then] callback of the HEAD probe, lines 405-422. *)
Definition onHeadResponse (url : string) (headers : Headers) : Async TaskItem :=
  match header headers "content-type" with
  | None =>
      (* [undefined.toLowerCase()] throws inside the [then] callback *)
      reject "TypeError: Cannot read property 'toLowerCase' of undefined"
  | Some rawContentType =>
      let contentType := Js.toLowerCase rawContentType in
      let contentLength := header headers "content-length" in
      match findMetadataFileType contentType url with
      | Some metadataFileType =>
          if negb (isNaN (unaryPlus contentLength)) &&
             numberLt (unaryPlus contentLength) ARBITRARY_FILE_FETCH_SIZE_CUTOFF
          then
            response <- Axios_get url ;;
            ret (inl {| content := {| blob_data := get_data response;
                                      blob_type := mediaType metadataFileType |};
                        filename := guessFileName (urlWithoutQuery url)
                                                  (get_headers response)
                                                  metadataFileType |})
          else ret (inr url)
      | None => ret (inr url)
      end
  end.

(** [maybeMapUrlToFile(url)], one resolution on its own: the call and
    the settling of the promise it returns. *)
Definition maybeMapUrlToFile (url : string) : Async TaskItem :=
  if startsWithAnyProtocol url AUTO_DOWNLOAD_TORRENT_FILE_PROTOCOLS then
    headers <- Axios_head url ;;
    onHeadResponse url headers
  else ret (inr url).

(** [maybeMapUrlToFile(url)] as [urls.map] calls it: the HEAD request
    goes out with the call, and the callback runs when the returned
    promise is awaited. *)
Definition maybeMapUrlToFile_call (url : string) : Call TaskItem :=
  if startsWithAnyProtocol url AUTO_DOWNLOAD_TORRENT_FILE_PROTOCOLS then
    fun w =>
      let (answer, w') := Axios_head_call url w in
      (headers <- answer ;; onHeadResponse url headers, w')
  else fun w => (ret (inr url), w).

Definition rejectUnknownUrls (taskPromise : Async TaskItem) : Async TaskItem :=
  task <- taskPromise ;;
  match task with
  | inl _ => ret task
  | inr url =>
      if startsWithAnyProtocol url DOWNLOADABLE_PROTOCOLS
      then ret task
      else reject (PlainValue
                     ("URL '" ++ url ++ "' must start with one of " ++
                      String.concat ", " DOWNLOADABLE_PROTOCOLS)%string)
  end.

(** [notifyTaskAddResult(filename)(result)], a closure over [urls] and
    [notificationId].  It is declared inside [addDownloadTasksAndPoll]
    and no call site refers to it. *)
Definition notifyTaskAddResult (urls : list string)
           (notificationId : option NotificationId)
           (filename : option string) (result : ApiResult unit)
  : Async NotificationId :=
  match result with
  | ConnFailure _ =>
      notify "Failed to connection to DiskStation"
             (Some "Please check your settings.") notificationId
  | Response (Success _) =>
      if (List.length urls =? 1)%nat
      then notify "Download added"
                  (Js.orElse filename (nth_error urls 0)) notificationId
      else notify (Js.showNat (List.length urls) ++ " downloads added")%string
                  None notificationId
  | Response (Failure code) =>
      notify "Failed to add download"
             (Some (errorMessageFromCode lib code "DownloadStation.Task"))
             notificationId
  end.

Definition notifyUnexpectedError (notificationId : option NotificationId)
           (error : Error) : Async unit :=
  notify "Failed to add download"
         (Some "Unexpected error; please check your settings and try again")
         notificationId ;;
  ret tt.

(** The [reduce] that splits the resolved items into [file] and [uri]. *)
Definition splitResolved (resolved : list TaskItem) : list FormFile * list string :=
  fold_left
    (fun accumulator task =>
       match task with
       | inl formFile => (fst accumulator ++ [formFile], snd accumulator)
       | inr url => (fst accumulator, snd accumulator ++ [url])
       end)
    resolved ([], []).

(** [partitionPromises(urls.map(maybeMapUrlToFile).map(rejectUnknownUrls))]:
    every URL is mapped first, so every HEAD request is out before any
    answer is handled; the answers arrive in the order the environment
    gives, each running the callbacks that wait for it; and
    [partitionPromises] reads the settlements in queue order. *)
Definition resolveUrls (urls : list string) : Async (list TaskItem * list Error) :=
  fun w =>
    let (taskPromises, w1) := mapCalls maybeMapUrlToFile_call urls w in
    let (arrived, w2) :=
      handleArrivals (arrival env (trace w1))
                     (map rejectUnknownUrls taskPromises) w1 in
    partitionPromises arrived w2.

(** The promise chain of a submission up to, and without, its final
    [.catch(notifyUnexpectedError)]: resolve every URL, and if anything
    resolved send the one batched create request and poll. *)
Definition submitAttempt (urls : list string) (destination : option string)
  : Async unit :=
  '(resolved, rejected) <- resolveUrls urls ;;
  if (List.length resolved =? 0)%nat
  then ret tt
  else
    let (file, uri) := splitResolved resolved in
    doCreateTask {| file := file; uri := uri; destination := destination |} ;;
    pollTasks.

Definition addDownloadTasksAndPoll (urls : list string) (path : option string)
  : Async unit :=
  if (0 <? List.length urls)%nat then
    id <- (if (List.length urls =? 1)%nat
           then notify "Adding download..." (nth_error urls 0) None
           else notify ("Adding " ++ Js.showNat (List.length urls) ++
                        " downloads...")%string None None) ;;
    let notificationId := Some id in
    let destination :=
      match path with
      | Some p =>
          if negb (String.eqb p "") && Js.startsWith p "/"
          then Some (Js.sliceFrom 1 p)
          else None
      | None => None
      end in
    catch (submitAttempt urls destination)
          (notifyUnexpectedError notificationId)
  else
    notify "Failed to add download" (Some "No URL to download given") None ;;
    ret tt.

End Program.

(* ================================================================== *)
(** ** Concrete scenarios                                              *)
(* ================================================================== *)

Module Scenario.

Definition task (id status : string) : DownloadStationTask :=
  {| task_id := id; task_title := ("title-" ++ id)%string; task_status := status |}.

(** A cache-change event after a poll that completed at time [t]
    without failure, completion notifications enabled. *)
Definition polled (t : Z) (ts : list DownloadStationTask) : StoredState :=
  {| cached := {| tasks := ts; taskFetchFailureReason := NoFailure;
                  tasksLastInitiatedFetchTimestamp := Some t;
                  tasksLastCompletedFetchTimestamp := Some t |};
     enableCompletionNotifications := true |}.

(** Scenario A: task 1 is downloading on poll 1 and finished on
    poll 2, and stays finished on poll 3.  The process started at 100. *)
Definition scenarioA : list StoredState :=
  [ polled 101 [task "1" "downloading"];
    polled 102 [task "1" "finished"];
    polled 103 [task "1" "finished"] ].

(** A poll that failed: the failure reason is set. *)
Definition failedPoll (t : Z) (ts : list DownloadStationTask) : StoredState :=
  {| cached := {| tasks := ts; taskFetchFailureReason := MissingConfig;
                  tasksLastInitiatedFetchTimestamp := Some t;
                  tasksLastCompletedFetchTimestamp := Some t |};
     enableCompletionNotifications := true |}.

(** Replies scripted per call: the [k]-th request of a kind gets the
    [k]-th entry, and [fallback] once the script is used up. *)
Definition scripted {A} (isCall : Event -> bool) (replies : list (Settled A))
           (fallback : Settled A) (history : list Event) : Settled A :=
  nth (List.length (filter isCall history) - 1) replies fallback.

Definition isTaskList (e : Event) : bool :=
  match e with TaskList => true | _ => false end.
Definition isTaskCreate (e : Event) : bool :=
  match e with TaskCreate _ => true | _ => false end.
Definition isStorageSet (e : Event) : bool :=
  match e with StorageSet _ => true | _ => false end.

(** Replies keyed by the URL of the request being answered. *)
Definition byUrl {A} (table : string -> Settled A) (history : list Event)
  : Settled A :=
  match last history TaskList with
  | AxiosHead url | AxiosGet url => table url
  | _ => Rejected "not a request"
  end.

Definition permissionFailure {T} : Settled (ApiResult T) :=
  Resolved (Response (Failure 105)).

Definition success {T} (data : T) : Settled (ApiResult T) :=
  Resolved (Response (Success data)).

(** The probe answers of scenarios D and E, and of a server that
    names its file in a one-character unquoted parameter. *)
Definition headTable (url : string) : Settled Headers :=
  if String.eqb url "https://x/y.torrent" then
    Resolved [("content-type", "application/x-bittorrent");
              ("content-length", "1024")]
  else if String.eqb url "https://x/big.torrent" then
    Resolved [("content-type", "application/x-bittorrent");
              ("content-length", "10485760")]
  else Rejected "Network Error".

Definition getTable (url : string) : Settled GetResponse :=
  if String.eqb url "https://x/y.torrent" then
    Resolved {| get_data := "d8:announce";
                get_headers := [("content-type", "application/x-bittorrent")] |}
  else Rejected "Network Error".

(** An environment with a clock that advances by one per reading,
    storage that commits on the writes [commits] allows, and the
    given task-list and create-task scripts. *)
Definition scriptedEnv (commits : list Event -> bool)
           (lists : list (Settled (ApiResult (list DownloadStationTask))))
           (creates : list (Settled (ApiResult unit))) : Env :=
  {| clock := fun k => 1000 + Z.of_nat k;
     storageCommits := commits;
     taskListReply := scripted isTaskList lists (success []);
     taskCreateReply := scripted isTaskCreate creates (success tt);
     headReply := byUrl headTable;
     getReply := byUrl getTable;
     arrival := fun _ => [] |}.

Definition always (history : list Event) : bool := true.

(** A server that answers every probe with a content length and no
    content type. *)
Definition untypedEnv : Env :=
  {| clock := fun k => 1000 + Z.of_nat k;
     storageCommits := always;
     taskListReply := scripted isTaskList [] (success []);
     taskCreateReply := scripted isTaskCreate [] (success tt);
     headReply := fun _ => Resolved [("content-length", "1024")];
     getReply := byUrl getTable;
     arrival := fun _ => [] |}.

(** A server that answers every probe with a small torrent, and whose
    answer to the second probe of a submission arrives first. *)
Definition lateFirstEnv : Env :=
  {| clock := fun k => 1000 + Z.of_nat k;
     storageCommits := always;
     taskListReply := scripted isTaskList [] (success []);
     taskCreateReply := scripted isTaskCreate [] (success tt);
     headReply := fun _ => Resolved [("content-type", "application/x-bittorrent");
                                     ("content-length", "1024")];
     getReply := fun _ => Resolved {| get_data := "d8:announce"; get_headers := [] |};
     arrival := fun _ => [1%nat; 0%nat] |}.

(** Storage that rejects its [k]-th write (counting from 1). *)
Definition failsOn (k : nat) (history : list Event) : bool :=
  negb (List.length (filter isStorageSet history) =? k)%nat.

(** The value of an unsigned decimal literal. *)
Fixpoint digitsValue (s : string) (acc : Z) : option Z :=
  match s with
  | EmptyString => Some acc
  | String c s' =>
      let n := nat_of_ascii c in
      if ((48 <=? n) && (n <=? 57))%nat
      then digitsValue s' (10 * acc + Z.of_nat (n - 48))
      else None
  end.

(** The string-to-number conversion on strings of decimal digits (the
    empty string converts to 0).  Other numeric literals do not occur
    in the scenarios and are not recognised by this instance. *)
Definition decimalToNumber (s : string) : JsNumber :=
  match digitsValue s 0 with
  | Some z => Finite (inject_Z z)
  | None => NaN
  end.

Definition demoLib : Lib :=
  {| errorMessageFromCode := fun code _ => ("error " ++ Js.showNat (Z.to_nat code))%string;
     errorMessageFromConnectionFailure := fun failure => cf_type failure;
     StringToNumber := decimalToNumber |}.

Definition emptyCache : CachedTasks :=
  {| tasks := []; taskFetchFailureReason := NoFailure;
     tasksLastInitiatedFetchTimestamp := None;
     tasksLastCompletedFetchTimestamp := None |}.

Definition world0 : World :=
  {| trace := []; store := emptyCache; ticks := 0; idCounter := 0 |}.

Definition torrent : MetadataFileType :=
  {| mediaType := "application/x-bittorrent"; extension := ".torrent" |}.

End Scenario.

(* ================================================================== *)
(** ** What the specification prescribes                               *)
(* ================================================================== *)

(** Definitions written from the words of the specification, to be
    compared with the program above. *)
Module Spec.

(** Step 1 of a poll: persist [tasksLastInitiatedFetchTimestamp = now]. *)
Definition initWrite (now : Z) : PartialCachedTasks :=
  {| p_tasks := None; p_taskFetchFailureReason := None;
     p_tasksLastInitiatedFetchTimestamp := Some (Some now);
     p_tasksLastCompletedFetchTimestamp := None |}.

(** Steps 2 and 3 of a poll: the single write that classifies the
    settled response into one of the four outcomes and carries the
    completion time [now]. *)
Definition resultWrite (lib : Lib)
           (response : ApiResult (list DownloadStationTask)) (now : Z)
  : PartialCachedTasks :=
  match response with
  | ConnFailure failure =>
      if String.eqb (cf_type failure) "missing-config"
      then (* connection failure, missing configuration *)
        {| p_tasks := None;
           p_taskFetchFailureReason := Some MissingConfig;
           p_tasksLastInitiatedFetchTimestamp := None;
           p_tasksLastCompletedFetchTimestamp := Some (Some now) |}
      else (* connection failure of any other sub-kind *)
        {| p_tasks := None;
           p_taskFetchFailureReason :=
             Some (FailureMessage (errorMessageFromConnectionFailure lib failure));
           p_tasksLastInitiatedFetchTimestamp := None;
           p_tasksLastCompletedFetchTimestamp := Some (Some now) |}
  | Response (Success newTasks) => (* application-level success *)
      {| p_tasks := Some newTasks;
         p_taskFetchFailureReason := Some NoFailure;
         p_tasksLastInitiatedFetchTimestamp := None;
         p_tasksLastCompletedFetchTimestamp := Some (Some now) |}
  | Response (Failure code) => (* application-level error *)
      {| p_tasks := None;
         p_taskFetchFailureReason :=
           Some (FailureMessage
                   (errorMessageFromCode lib code "DownloadStation.Task"));
         p_tasksLastInitiatedFetchTimestamp := None;
         p_tasksLastCompletedFetchTimestamp := Some (Some now) |}
  end.

(** A confirmed poll, as the specification words it: a completed-fetch
    timestamp exists, it is strictly after the process start, and the
    failure reason is null. *)
Definition confirmedPoll (START_TIME : Z) (storedState : StoredState) : Prop :=
  exists completed,
    tasksLastCompletedFetchTimestamp (cached storedState) = Some completed /\
    START_TIME < completed /\
    taskFetchFailureReason (cached storedState) = NoFailure.

(** The id of a task of the snapshot whose status is finished or
    seeding. *)
Definition terminalIn (storedState : StoredState) (id : string) : Prop :=
  exists task,
    In task (tasks (cached storedState)) /\
    task_id task = id /\
    (task_status task = "finished" \/ task_status task = "seeding").

(** A clock that never runs backwards. *)
Definition monotone (clock : nat -> Z) : Prop :=
  forall i j, (i <= j)%nat -> clock i <= clock j.

(** The computation [m] appends to the trace only events satisfying [P]. *)
Definition emitsOnly {A} (P : Event -> Prop) (m : Async A) : Prop :=
  forall w, exists l, trace (snd (m w)) = trace w ++ l /\ Forall P l.

(** Event classes: what a poll issues, what a per-URL resolution
    issues, and what the wrapped create call for [options] issues. *)
Definition fromPoll (e : Event) : Prop :=
  match e with
  | DateNow _ | StorageSet _ | TaskList | AuthLogout => True
  | _ => False
  end.

Definition isProbe (e : Event) : Prop :=
  match e with
  | AxiosHead _ | AxiosGet _ => True
  | _ => False
  end.

Definition fromCreate (options : DownloadStationTaskCreateRequest) (e : Event) : Prop :=
  e = TaskCreate options \/ e = AuthLogout.

Definition isNotify (e : Event) : bool :=
  match e with Notify _ _ _ _ => true | _ => false end.

(** The notification a submission opens with: singular wording with
    the URL for one URL, plural wording with the count otherwise. *)
Definition addingNotice (urls : list string) (id : NotificationId) : Event :=
  if (List.length urls =? 1)%nat
  then Notify "Adding download..." (nth_error urls 0) None id
  else Notify ("Adding " ++ Js.showNat (List.length urls) ++ " downloads...")%string
              None None id.

(** The update that reports an unexpected error under the identity [id]. *)
Definition unexpectedNotice (id : NotificationId) : Event :=
  Notify "Failed to add download"
         (Some "Unexpected error; please check your settings and try again")
         (Some id) id.

(** The scheme of a URL: what precedes its first colon. *)
Fixpoint scheme (url : string) : option string :=
  match url with
  | EmptyString => None
  | String c rest =>
      if Ascii.eqb c ":" then Some EmptyString
      else option_map (String c) (scheme rest)
  end.

(** A probe matches a known metadata type by media type or by the
    suffix of the URL (without its query). *)
Definition probeMatches (contentType url : string) (fileType : MetadataFileType) : Prop :=
  In fileType METADATA_FILE_TYPES /\
  (contentType = mediaType fileType \/
   Js.endsWith (urlWithoutQuery url) (extension fileType) = true).

(** The last path segment of a URL: what follows its last slash. *)
Definition lastSegment (url : string) : string :=
  Js.sliceFrom (Z.to_nat (Js.lastIndexOf url "/" + 1)) url.

(** Append the extension unless the name already ends with it. *)
Definition withExtension (name ext : string) : string :=
  if Js.endsWith name ext then name else (name ++ ext)%string.

(** The file name as claim C8 words it: the filename
    parameter of the Content-Disposition header when present, else
    the last path segment of the URL, else the literal download;
    then the extension. *)
Definition claimedFileName (parameter : option string) (url ext : string) : string :=
  withExtension
    (match parameter with
     | Some name => name
     | None => if String.eqb (lastSegment url) "" then "download" else lastSegment url
     end)
    ext.

(** What the filename pattern captures in a header value. *)
Definition captured (contentDisposition : string) : option string :=
  match FILENAME_PROPERTY_REGEX_exec contentDisposition with
  | Some m => Js.orElse (group2 m) (group3 m)
  | None => None
  end.

(** The destination as claim C9 words it: the path
    without its leading separator when it has one, the path itself
    otherwise. *)
Definition claimedDestination (path : string) : option string :=
  if Js.startsWith path "/" then Some (Js.sliceFrom 1 path) else Some path.

(** The destination the program sends: the path without its leading
    separator when it has one, none otherwise. *)
Definition sentDestination (path : option string) : option string :=
  match path with
  | Some p => if Js.startsWith p "/" then Some (Js.sliceFrom 1 p) else None
  | None => None
  end.

End Spec.

(* ================================================================== *)
(** ** Vocabulary for the laws of the pipeline                         *)
(* ================================================================== *)

Module Laws.

(** The fetched files among the items, in order. *)
Definition filesOf (items : list TaskItem) : list FormFile :=
  flat_map (fun item => match item with inl formFile => [formFile] | inr _ => [] end)
           items.

(** The bare URLs among the items, in order. *)
Definition urisOf (items : list TaskItem) : list string :=
  flat_map (fun item => match item with inl _ => [] | inr url => [url] end) items.

(** A promise that has already settled. *)
Definition settledAs {T} (s : Settled T) : Async T := fun w => (s, w).

(** The values of the settlements that resolved, in order. *)
Definition valuesOf {T} (settlements : list (Settled T)) : list T :=
  flat_map (fun s => match s with Resolved v => [v] | Rejected _ => [] end) settlements.

(** The reasons of the settlements that rejected, in order. *)
Definition reasonsOf {T} (settlements : list (Settled T)) : list Error :=
  flat_map (fun s => match s with Resolved _ => [] | Rejected e => [e] end) settlements.

(** A reason is an instance of [Error]. *)
Definition isErrorInstance (e : Error) : Prop :=
  exists message, e = ErrorObject message.

(** How a reason is reported: an [Error] as it is, anything else as a
    new [Error] that carries no message. *)
Definition reported (e : Error) : Error :=
  match e with
  | ErrorObject message => ErrorObject message
  | PlainValue _ => ErrorObject ""
  end.

(** What the wrapped create call issues for the request [options]: the
    request, or the request, a logout and the request again. *)
Definition createCalls (options : DownloadStationTaskCreateRequest)
           (events : list Event) : Prop :=
  events = [TaskCreate options] \/
  events = [TaskCreate options; AuthLogout; TaskCreate options].

(** An item that the resolution of one of [urls] can produce: a file
    fetched from an http(s) URL of the list, typed and named after a
    known metadata type, or a URL of the list with a downloadable
    protocol. *)
Definition resolvedFrom (urls : list string) (item : TaskItem) : Prop :=
  match item with
  | inl formFile =>
      exists url fileType,
        In url urls /\
        startsWithAnyProtocol url AUTO_DOWNLOAD_TORRENT_FILE_PROTOCOLS = true /\
        In fileType METADATA_FILE_TYPES /\
        blob_type (content formFile) = mediaType fileType /\
        Js.endsWith (filename formFile) (extension fileType) = true
  | inr url =>
      In url urls /\ startsWithAnyProtocol url DOWNLOADABLE_PROTOCOLS = true
  end.

(** An answer of the remote client that is the permission failure,
    the error code 105. *)
Definition isPermissionFailure {T} (answer : Settled (ApiResult T)) : bool :=
  match answer with
  | Resolved (Response (Failure code)) => code =? 105
  | _ => false
  end.

(** The create request sent after [history]: the first answer of the
    environment, the requests that are sent (a second one, after a
    logout, when the first answer is the permission failure), and how
    the call settles. *)
Definition firstCreateAnswer (env : Env) (history : list Event)
           (options : DownloadStationTaskCreateRequest) : Settled (ApiResult unit) :=
  taskCreateReply env (history ++ [TaskCreate options]).

Definition createEvents (env : Env) (history : list Event)
           (options : DownloadStationTaskCreateRequest) : list Event :=
  if isPermissionFailure (firstCreateAnswer env history options)
  then [TaskCreate options; AuthLogout; TaskCreate options]
  else [TaskCreate options].

Definition createOutcome (env : Env) (history : list Event)
           (options : DownloadStationTaskCreateRequest) : Settled (ApiResult unit) :=
  if isPermissionFailure (firstCreateAnswer env history options)
  then taskCreateReply env (history ++ [TaskCreate options; AuthLogout; TaskCreate options])
  else firstCreateAnswer env history options.

(** The file item built from the answer of a GET for a URL matched
    to [fileType]. *)
Definition fileOf (url : string) (fileType : MetadataFileType)
           (response : GetResponse) : FormFile :=
  {| content := {| blob_data := get_data response;
                   blob_type := mediaType fileType |};
     filename := guessFileName (urlWithoutQuery url) (get_headers response) fileType |}.

(** Where an item came from, in the events [probes] issued after
    [history]: a file was fetched, by a GET among the events, from
    an http(s) URL of [urls], and is built from what the environment
    answered to that GET; a bare URL is one of [urls] with a
    downloadable protocol. *)
Definition fetched (env : Env) (history probes : list Event) (urls : list string)
           (item : TaskItem) : Prop :=
  match item with
  | inl formFile =>
      exists url fileType response before after,
        In url urls /\
        startsWithAnyProtocol url AUTO_DOWNLOAD_TORRENT_FILE_PROTOCOLS = true /\
        probes = before ++ AxiosGet url :: after /\
        getReply env (history ++ before ++ [AxiosGet url]) = Resolved response /\
        In fileType METADATA_FILE_TYPES /\
        formFile = fileOf url fileType response
  | inr url =>
      In url urls /\ startsWithAnyProtocol url DOWNLOADABLE_PROTOCOLS = true
  end.

(** The same, with the HEAD request of the URL among the events that
    precede the GET. *)
Definition probedAndFetched (env : Env) (history probes : list Event)
           (urls : list string) (item : TaskItem) : Prop :=
  match item with
  | inl formFile =>
      exists url fileType response before after,
        In url urls /\
        startsWithAnyProtocol url AUTO_DOWNLOAD_TORRENT_FILE_PROTOCOLS = true /\
        probes = before ++ AxiosGet url :: after /\
        In (AxiosHead url) before /\
        getReply env (history ++ before ++ [AxiosGet url]) = Resolved response /\
        In fileType METADATA_FILE_TYPES /\
        formFile = fileOf url fileType response
  | inr url =>
      In url urls /\ startsWithAnyProtocol url DOWNLOADABLE_PROTOCOLS = true
  end.

(** The promise that [maybeMapUrlToFile(url)] returned: the bare URL
    already, or the callback attached to the answer of the HEAD
    request. *)
Definition pendingFor (env : Env) (lib : Lib) (url : string)
           (promise : Async TaskItem) : Prop :=
  (startsWithAnyProtocol url AUTO_DOWNLOAD_TORRENT_FILE_PROTOCOLS = false /\
   promise = ret (inr url))
  \/
  (startsWithAnyProtocol url AUTO_DOWNLOAD_TORRENT_FILE_PROTOCOLS = true /\
   exists answer, promise = bind (settled answer) (onHeadResponse env lib url)).

(** The HEAD requests that mapping [urls] issues. *)
Definition headsOf (urls : list string) : list Event :=
  map AxiosHead
      (filter (fun url => startsWithAnyProtocol url AUTO_DOWNLOAD_TORRENT_FILE_PROTOCOLS)
              urls).

Definition isGetOf (urls : list string) (e : Event) : Prop :=
  exists url, e = AxiosGet url /\ In url urls /\
              startsWithAnyProtocol url AUTO_DOWNLOAD_TORRENT_FILE_PROTOCOLS = true.

Definition isWrite (e : Event) : bool :=
  match e with StorageSet _ => true | _ => false end.

Definition isTaskListCall (e : Event) : bool :=
  match e with TaskList => true | _ => false end.

(** The world apart from its trace. *)
Definition sameState (w w' : World) : Prop :=
  store w' = store w /\ ticks w' = ticks w /\ idCounter w' = idCounter w.

Definition isCreate (e : Event) : bool :=
  match e with TaskCreate _ => true | _ => false end.

(** A URL no stage of the pipeline accepts: neither probed nor
    downloadable. *)
Definition unknownProtocol (url : string) : Prop :=
  startsWithAnyProtocol url AUTO_DOWNLOAD_TORRENT_FILE_PROTOCOLS = false /\
  startsWithAnyProtocol url DOWNLOADABLE_PROTOCOLS = false.

(** The cache [clearCachedTasks] writes. *)
Definition emptyState : CachedTasks :=
  {| tasks := []; taskFetchFailureReason := NoFailure;
     tasksLastInitiatedFetchTimestamp := None;
     tasksLastCompletedFetchTimestamp := None |}.

(** The stored state the subscriber sees for a cache. *)
Definition observed (cache : CachedTasks) (enabled : bool) : StoredState :=
  {| cached := cache; enableCompletionNotifications := enabled |}.

(** The payload of [clearCachedTasks]: every key, reset. *)
Definition clearWrite : PartialCachedTasks :=
  {| p_tasks := Some []; p_taskFetchFailureReason := Some NoFailure;
     p_tasksLastInitiatedFetchTimestamp := Some None;
     p_tasksLastCompletedFetchTimestamp := Some None |}.

(** The code units of [s] are all different from [c]. *)
Definition noChar (c : ascii) (s : string) : bool :=
  Js.allChars (fun d => negb (Ascii.eqb d c)) s.

(** How the promise for [url] settled, when the events [gets] have
    been issued after [history]: a resolved item is accounted for by
    these events, and a URL of unknown protocol is rejected. *)
Definition settlementOf (env : Env) (history : list Event) (urls : list string)
           (url : string) (gets : list Event) (s : Settled TaskItem) : Prop :=
  (unknownProtocol url -> exists e, s = Rejected e) /\
  match s with
  | Resolved item => fetched env history gets urls item
  | Rejected _ => True
  end.

(** A promise of the list handed to [partitionPromises], for [url]:
    still waiting for its answer, or settled. *)
Definition arrivedFor (env : Env) (lib : Lib) (history : list Event)
           (urls : list string) (gets : list Event) (url : string)
           (promise : Async TaskItem) : Prop :=
  (exists pending, pendingFor env lib url pending /\
                   promise = rejectUnknownUrls pending)
  \/
  (exists s, promise = settled s /\ settlementOf env history urls url gets s).

End Laws.

(* ================================================================== *)
(** ** The whole change handler ([background/index.ts], lines 83-178)   *)
(* ================================================================== *)

Module Handler.

(** Modelled from the spec: the notification settings of the settings
    store, [notifications{enableCompletionNotifications,
    enableFeedbackNotifications, completionPollingInterval}]; the
    handler reads these three fields and compares the whole record. *)
Record NotificationSettings := {
  enableCompletionNotifications : bool;
  enableFeedbackNotifications : bool;
  completionPollingInterval : Z
}.

(** Modelled from the spec: the settings delivered with the cache,
    [notifications], [visibleTasks] and [badgeDisplayType].  The type of
    the visibility settings is left open. *)
Record Settings {VisibleTaskSettings : Type} := {
  notifications : NotificationSettings;
  visibleTasks : VisibleTaskSettings;
  badgeDisplayType : string
}.
Arguments Settings : clear implicits.

(** One delivery to the subscriber: the stored state, and what
    [api.updateSettings] answers for its connection settings. *)
Record Delivery {VisibleTaskSettings : Type} := {
  cache : CachedTasks;
  settings : Settings VisibleTaskSettings;
  didUpdateSettings : bool
}.
Arguments Delivery : clear implicits.

(** The interval timers of the page: the live ones, each with its
    period in milliseconds, and how many ids were handed out.
    [setInterval] answers with an id it never gave before;
    [clearInterval] of an id that is not live, or of [undefined], does
    nothing. *)
Record Timers := { live : list (nat * Z); handedOut : nat }.

Definition setInterval (period : Z) (t : Timers) : nat * Timers :=
  (S (handedOut t),
   {| live := (S (handedOut t), period) :: live t; handedOut := S (handedOut t) |}).

Definition clearInterval (id : option nat) (t : Timers) : Timers :=
  match id with
  | None => t
  | Some i => {| live := filter (fun timer => negb (fst timer =? i)%nat) (live t);
                 handedOut := handedOut t |}
  end.

(** The module-level variables of the background script, and the
    timers. *)
Record State := {
  finishedTaskIds : option (list string);
  lastNotificationSettings : option NotificationSettings;
  notificationInterval : option nat;
  showNonErrorNotifications : bool;
  timers : Timers
}.

(** The script as loaded, on a page with the timers [t]. *)
Definition loaded (t : Timers) : State :=
  {| finishedTaskIds := None; lastNotificationSettings := None;
     notificationInterval := None; showNonErrorNotifications := true;
     timers := t |}.

(** [isEqual(settings, lastNotificationSettings)]: deep equality; a
    record never equals [undefined]. *)
Definition isEqual (a : NotificationSettings) (b : option NotificationSettings) : bool :=
  match b with
  | None => false
  | Some b =>
      Bool.eqb (enableCompletionNotifications a) (enableCompletionNotifications b) &&
      Bool.eqb (enableFeedbackNotifications a) (enableFeedbackNotifications b) &&
      (completionPollingInterval a =? completionPollingInterval b)
  end.

(** Lines 97-105: the periodic poll follows the notification settings. *)
Definition reconcileTimers (n : NotificationSettings) (s : State) : State :=
  if negb (isEqual n (lastNotificationSettings s)) then
    let cleared := clearInterval (notificationInterval s) (timers s) in
    if enableCompletionNotifications n then
      let (id, started) := setInterval (completionPollingInterval n * 1000) cleared in
      {| finishedTaskIds := finishedTaskIds s;
         lastNotificationSettings := Some n;
         notificationInterval := Some id;
         showNonErrorNotifications := showNonErrorNotifications s;
         timers := started |}
    else
      {| finishedTaskIds := finishedTaskIds s;
         lastNotificationSettings := Some n;
         notificationInterval := notificationInterval s;
         showNonErrorNotifications := showNonErrorNotifications s;
         timers := cleared |}
  else s.

(** What the handler does to the outside. *)
Inductive Effect :=
| Reload                                   (* clearCachedTasks().then(() => pollTasks(api)) *)
| SetIcon (disabled : bool)                (* browserAction.setIcon, which icon set *)
| SetBadgeText (text : string)
| SetBadgeBackgroundColor (r g b a : Z)
| Notify (notice : Background.Notice).

Definition isNotice (e : Effect) : bool :=
  match e with Notify _ => true | _ => false end.

Section Handle.

Variable VisibleTaskSettings : Type.

(** Modelled from the spec: [filterTasks(tasks, visibleTasks)] applies
    the visibility filter of the user; nothing is assumed of it. *)
Variable filterTasks :
  list DownloadStationTask -> VisibleTaskSettings -> list DownloadStationTask.

Variable START_TIME : Z.

(** Lines 136-144: the number the badge shows, none for a display mode
    the code does not know. *)
Definition taskCount (d : Delivery VisibleTaskSettings) : option nat :=
  if String.eqb (badgeDisplayType (settings d)) "total"
  then Some (List.length (tasks (cache d)))
  else if String.eqb (badgeDisplayType (settings d)) "filtered"
  then Some (List.length (filterTasks (tasks (cache d)) (visibleTasks (settings d))))
  else None.

(** Lines 109-151: icon, badge text and badge colour.  The flag is
    false when the handler returns at the unknown display mode, after
    the icon was set. *)
Definition badge (d : Delivery VisibleTaskSettings) : list Effect * bool :=
  match taskFetchFailureReason (cache d) with
  | NoFailure =>
      match taskCount d with
      | Some n =>
          ([SetIcon false;
            SetBadgeText (if (n =? 0)%nat then "" else Js.showNat n);
            SetBadgeBackgroundColor 0 217 0 255], true)
      | None => ([SetIcon false], false)
      end
  | _ =>
      ([SetIcon true; SetBadgeText ""; SetBadgeBackgroundColor 217 0 0 255], true)
  end.

(** The subscriber of [onStoredStateChange], lines 83-178. *)
Definition handle (d : Delivery VisibleTaskSettings) (s : State)
  : list Effect * State :=
  let reload := if didUpdateSettings d then [Reload] else [] in
  let s1 := reconcileTimers (notifications (settings d)) s in
  let feedback := enableFeedbackNotifications (notifications (settings d)) in
  let (ops, proceeds) := badge d in
  if proceeds then
    let (notices, ids) :=
      Background.onStoredStateChange
        START_TIME (finishedTaskIds s1)
        (Laws.observed (cache d)
                       (enableCompletionNotifications (notifications (settings d)))) in
    (reload ++ ops ++ map Notify notices,
     {| finishedTaskIds := ids;
        lastNotificationSettings := lastNotificationSettings s1;
        notificationInterval := notificationInterval s1;
        showNonErrorNotifications := feedback;
        timers := timers s1 |})
  else
    (reload ++ ops,
     {| finishedTaskIds := finishedTaskIds s1;
        lastNotificationSettings := lastNotificationSettings s1;
        notificationInterval := notificationInterval s1;
        showNonErrorNotifications := feedback;
        timers := timers s1 |}).

(** The handler over a sequence of deliveries. *)
Fixpoint run (deliveries : list (Delivery VisibleTaskSettings)) (s : State)
  : list Effect * State :=
  match deliveries with
  | [] => ([], s)
  | d :: rest =>
      let (e1, s1) := handle d s in
      let (e2, s2) := run rest s1 in
      (e1 ++ e2, s2)
  end.

(** The display mode is one the badge decision knows, or the state is
    failing and the mode is not looked at. *)
Definition recognised (d : Delivery VisibleTaskSettings) : Prop :=
  taskFetchFailureReason (cache d) <> NoFailure \/
  badgeDisplayType (settings d) = "total" \/
  badgeDisplayType (settings d) = "filtered".

(** The delivery as the completion decision sees it. *)
Definition decisionView (d : Delivery VisibleTaskSettings) : StoredState :=
  Laws.observed (cache d)
                (enableCompletionNotifications (notifications (settings d))).

(** The notices among the effects. *)
Definition noticesOf (effects : list Effect) : list Background.Notice :=
  flat_map (fun e => match e with Notify n => [n] | _ => [] end) effects.

(** The badge texts among the effects. *)
Definition badgeTexts (effects : list Effect) : list string :=
  flat_map (fun e => match e with SetBadgeText t => [t] | _ => [] end) effects.

End Handle.

(** The timers the handler has running: none, or the one named
    by [notificationInterval]. *)
Definition ownTimers (own : list (nat * Z)) (s : State) : Prop :=
  match lastNotificationSettings s with
  | None => own = [] /\ notificationInterval s = None
  | Some n =>
      if enableCompletionNotifications n
      then exists id, notificationInterval s = Some id /\
                      own = [(id, completionPollingInterval n * 1000)]
      else own = []
  end.

(** The state of the timers is in order on a page that had the timers
    [t0] when the script was loaded: those are all still live, beside
    them only the handler's own, and the id the script remembers was
    handed out after the script was loaded. *)
Definition reconciled (t0 : Timers) (s : State) : Prop :=
  (handedOut t0 <= handedOut (timers s))%nat /\
  (forall id, notificationInterval s = Some id ->
              (handedOut t0 < id <= handedOut (timers s))%nat) /\
  exists own, live (timers s) = own ++ live t0 /\ ownTimers own s.

(** The timers of a page are in order when no live timer has an id
    that was not handed out yet. *)
Definition wellFormed (t : Timers) : Prop :=
  Forall (fun timer => (fst timer <= handedOut t)%nat) (live t).

End Handler.

(* ================================================================== *)
(** ** The popup ([popup/Popup.tsx])                                    *)
(* ================================================================== *)

Module Popup.

(** The texts of the header: message keys and times are kept
    symbolic, as the lookups and the time formatting are the
    browser's and the moment library's. *)
Inductive Text :=
| Message (key : string)             (* browser.i18n.getMessage(key) *)
| UpdatedFromNow (timestamp : Z)     (* getMessage("Updated_ZtimeZ", [moment(t).fromNow()]) *)
| Formatted (timestamp : Z)          (* moment(t).format("ll LTS") *)
| Literal (s : string)
| UpdatingNow (tooltip : Text).      (* tooltip + " " + getMessage("updating_now") *)

Record Header := {
  text : Text;
  tooltip : Text;
  classes : option string;
  leftIcon : string;
  rightIcon : option string
}.

Definition spinner : string := "fa-sync fa-spin".

(** [renderHeader], lines 96-126: the status shown for the four cache
    props. *)
Definition renderHeader (props : CachedTasks) : Header :=
  let status :=
    match taskFetchFailureReason props, tasksLastCompletedFetchTimestamp props with
    | MissingConfig, _ =>
        {| text := Message "Settings_unconfigured";
           tooltip := Message "The_hostname_username_or_password_are_not_configured";
           classes := None; leftIcon := "fa-cog"; rightIcon := None |}
    | _, None =>
        {| text := Message "Updating";
           tooltip := Message "Updating_download_tasks";
           classes := None; leftIcon := spinner; rightIcon := None |}
    | FailureMessage failureMessage, Some _ =>
        {| text := Message "Error_updating_tasks";
           tooltip := Literal failureMessage;
           classes := Some "intent-error"; leftIcon := "fa-exclamation-triangle";
           rightIcon := Some "fa-info-circle" |}
    | NoFailure, Some completed =>
        {| text := UpdatedFromNow completed;
           tooltip := Formatted completed;
           classes := Some "intent-success"; leftIcon := "fa-check";
           rightIcon := None |}
    end in
  match tasksLastInitiatedFetchTimestamp props, tasksLastCompletedFetchTimestamp props with
  | Some initiated, Some completed =>
      if completed <? initiated
      then {| text := text status; tooltip := UpdatingNow (tooltip status);
              classes := classes status; leftIcon := spinner;
              rightIcon := rightIcon status |}
      else status
  | _, _ => status
  end.

(** [renderDisplaySettings], line 187: the ids the clear button
    deletes. *)
Definition completedTaskIds (props : CachedTasks) : list string :=
  map task_id (filter (fun t => String.eqb (task_status t) "finished") (tasks props)).

(** Lines 215-219: when the clear button is disabled. *)
Definition clearDisabled (isClearingCompletedTasks hasDeleteTasks : bool)
           (props : CachedTasks) : bool :=
  isClearingCompletedTasks || negb hasDeleteTasks ||
  (List.length (completedTaskIds props) =? 0)%nat.

(** What [renderTaskList] shows. *)
Inductive TaskListView :=
| Configure                      (* configure host, user name and password *)
| Loading                        (* the spinner alone *)
| NoTasks                        (* "No_download_tasks" *)
| NoneMatch                      (* tasks exist, none matches the filters *)
| Rows (rows : list DownloadStationTask) (hiddenTaskCount : option Z).

Section TaskList.

Variable VisibleTaskSettings : Type.
Variable TaskSortType : Type.

(** Modelled from the spec: [filterTasks] applies the visibility filter
    of the user and [sortTasks] orders the rows; nothing is assumed of
    either. *)
Variable filterTasks :
  list DownloadStationTask -> VisibleTaskSettings -> list DownloadStationTask.
Variable sortTasks :
  list DownloadStationTask -> TaskSortType -> list DownloadStationTask.

(** [renderTaskList], lines 236-298. *)
Definition renderTaskList (props : CachedTasks) (visibleTasks : VisibleTaskSettings)
           (taskSort : TaskSortType) : TaskListView :=
  match taskFetchFailureReason props with
  | MissingConfig => Configure
  | _ =>
      match tasksLastCompletedFetchTimestamp props with
      | None => Loading
      | Some _ =>
          if (List.length (tasks props) =? 0)%nat then NoTasks
          else
            let filteredTasks := filterTasks (tasks props) visibleTasks in
            if (List.length filteredTasks =? 0)%nat then NoneMatch
            else
              let hiddenTaskCount :=
                Z.of_nat (List.length (tasks props))
                - Z.of_nat (List.length filteredTasks) in
              Rows (sortTasks filteredTasks taskSort)
                   (if 0 <? hiddenTaskCount then Some hiddenTaskCount else None)
      end
  end.

End TaskList.

End Popup.

(* ================================================================== *)
(** ** Calls that throw ([api-actions/pollTasks.ts] with exceptions)    *)
(* ================================================================== *)

(** Above, a collaborator fails by rejecting the promise it returns.
    Here a call may also throw instead of returning.  Where the call
    stands then matters: inside a [then] callback the exception rejects
    the promise that [then] returned; in the body of a function it
    leaves the function, and no promise is returned. *)
Module Throwing.

(** How a call ends. *)
Inductive Completion (A : Type) :=
| Threw (error : Error)
| Returned (value : A).
Arguments Threw {A} error.
Arguments Returned {A} value.

(** Which calls throw.  Each oracle of a request sees the history up to
    and including the call, and answers with the exception, or with
    none when the call returns. *)
Record Faults := {
  storageSetThrows : list Event -> option Error;
  taskListThrows : list Event -> option Error;
  logoutThrows : list Event -> option Error;
  errorMessageFromCodeThrows : Z -> string -> option Error;
  errorMessageFromConnectionFailureThrows : ConnectionFailure -> option Error
}.

Definition noFaults : Faults :=
  {| storageSetThrows := fun _ => None;
     taskListThrows := fun _ => None;
     logoutThrows := fun _ => None;
     errorMessageFromCodeThrows := fun _ _ => None;
     errorMessageFromConnectionFailureThrows := fun _ => None |}.

(** A call of a promise-returning function: it throws, or it returns a
    promise, which settles. *)
Definition Invocation (A : Type) := World -> Completion (Settled A) * World.

(** [p.then(callback)]: an exception of the callback rejects the
    promise; what the callback returns settles it. *)
Definition thenInvoke {A B} (p : Async A) (callback : A -> Invocation B) : Async B :=
  fun w =>
    match p w with
    | (Resolved a, w1) =>
        match callback a w1 with
        | (Threw e, w2) => (Rejected e, w2)
        | (Returned s, w2) => (s, w2)
        end
    | (Rejected e, w1) => (Rejected e, w1)
    end.

Section Program.

Variable env : Env.
Variable lib : Lib.
Variable faults : Faults.

(** [browser.storage.local.set(p)] *)
Definition storage_local_set (p : PartialCachedTasks) : Invocation unit :=
  fun w =>
    match storageSetThrows faults (trace w ++ [StorageSet p]) with
    | Some e => (Threw e, log (StorageSet p) w)
    | None => let (s, w') := storage_local_set env p w in (Returned s, w')
    end.

(** [api.DownloadStation.Task.List({ .. })] *)
Definition Task_List (args : unit)
  : Invocation (ApiResult (list DownloadStationTask)) :=
  fun w =>
    match taskListThrows faults (trace w ++ [TaskList]) with
    | Some e => (Threw e, log TaskList w)
    | None => let (s, w') := Task_List env args w in (Returned s, w')
    end.

(** [api.Auth.Logout()]; what it returns is dropped. *)
Definition Auth_Logout : World -> Completion unit * World :=
  fun w =>
    match logoutThrows faults (trace w ++ [AuthLogout]) with
    | Some e => (Threw e, log AuthLogout w)
    | None => (Returned tt, log AuthLogout w)
    end.

(** [wrapInNoPermissionsRetry(fn)(api, ...args)]: the first call of
    [fn] is made in the body of the wrapper, the logout and the second
    call inside the [then] callback. *)
Definition wrapInNoPermissionsRetry {Args T}
           (fn : Args -> Invocation (ApiResult T)) (args : Args)
  : Invocation (ApiResult T) :=
  fun w =>
    match fn args w with
    | (Threw e, w1) => (Threw e, w1)
    | (Returned first, w1) =>
        let (outcome, w2) :=
          thenInvoke (settled first)
            (fun result =>
               if isNoPermissionsFailure result
               then fun w' =>
                      match Auth_Logout w' with
                      | (Threw e, w'') => (Threw e, w'')
                      | (Returned _, w'') => fn args w''
                      end
               else fun w' => (Returned (Resolved result), w'))
            w1 in
        (Returned outcome, w2)
    end.

Definition doTaskPoll
  : unit -> Invocation (ApiResult (list DownloadStationTask)) :=
  wrapInNoPermissionsRetry Task_List.

(** [setCachedTasksResponse(cachedTasks)] *)
Definition setCachedTasksResponse (cachedTasks : PartialCachedTasks)
  : Invocation unit :=
  fun w =>
    let t := clock env (ticks w) in
    storage_local_set
      (spread {| p_tasks := None; p_taskFetchFailureReason := None;
                 p_tasksLastInitiatedFetchTimestamp := None;
                 p_tasksLastCompletedFetchTimestamp := Some (Some t) |}
              cachedTasks)
      (snd (Date_now env w)).

(** The [then] callback of [pollTasks], lines 28-62: the argument of
    [setCachedTasksResponse] is built before the call, so a message
    lookup that throws leaves no write behind. *)
Definition onPollResponse (response : ApiResult (list DownloadStationTask))
  : Invocation unit :=
  match response with
  | ConnFailure failure =>
      if String.eqb (cf_type failure) "missing-config"
      then setCachedTasksResponse
             {| p_tasks := None;
                p_taskFetchFailureReason := Some MissingConfig;
                p_tasksLastInitiatedFetchTimestamp := None;
                p_tasksLastCompletedFetchTimestamp := None |}
      else
        match errorMessageFromConnectionFailureThrows faults failure with
        | Some e => fun w => (Threw e, w)
        | None =>
            setCachedTasksResponse
              {| p_tasks := None;
                 p_taskFetchFailureReason :=
                   Some (FailureMessage
                           (errorMessageFromConnectionFailure lib failure));
                 p_tasksLastInitiatedFetchTimestamp := None;
                 p_tasksLastCompletedFetchTimestamp := None |}
        end
  | Response (Success data) =>
      setCachedTasksResponse
        {| p_tasks := Some data;
           p_taskFetchFailureReason := Some NoFailure;
           p_tasksLastInitiatedFetchTimestamp := None;
           p_tasksLastCompletedFetchTimestamp := None |}
  | Response (Failure code) =>
      match errorMessageFromCodeThrows faults code "DownloadStation.Task" with
      | Some e => fun w => (Threw e, w)
      | None =>
          setCachedTasksResponse
            {| p_tasks := None;
               p_taskFetchFailureReason :=
                 Some (FailureMessage
                         (errorMessageFromCode lib code "DownloadStation.Task"));
               p_tasksLastInitiatedFetchTimestamp := None;
               p_tasksLastCompletedFetchTimestamp := None |}
      end
  end.

(** The chain [Promise.all([write, poll]).then(..)] of [pollTasks],
    without its final [.catch], for the two promises the calls
    returned. *)
Definition pollChain (write : Settled unit)
           (poll : Settled (ApiResult (list DownloadStationTask))) : Async unit :=
  thenInvoke (all2 (settled write) (settled poll))
             (fun both => onPollResponse (snd both)).

(** [pollTasks(api)]: the two calls that make the promises are made in
    the body of the function, before the chain with its [.catch]
    exists. *)
Definition pollTasks : Invocation unit :=
  fun w =>
    let t := clock env (ticks w) in
    let cachedTasksInit :=
      {| p_tasks := None; p_taskFetchFailureReason := None;
         p_tasksLastInitiatedFetchTimestamp := Some (Some t);
         p_tasksLastCompletedFetchTimestamp := None |} in
    match storage_local_set cachedTasksInit (snd (Date_now env w)) with
    | (Threw e, w1) => (Threw e, w1)
    | (Returned write, w1) =>
        match doTaskPoll tt w1 with
        | (Threw e, w2) => (Threw e, w2)
        | (Returned poll, w2) =>
            let (r, w3) := catch (pollChain write poll) (fun error => ret tt) w2 in
            (Returned r, w3)
        end
    end.

End Program.

(** The three fields of the cache a result write sets are as before. *)
Definition resultUntouched (before after : CachedTasks) : Prop :=
  tasks after = tasks before /\
  taskFetchFailureReason after = taskFetchFailureReason before /\
  tasksLastCompletedFetchTimestamp after = tasksLastCompletedFetchTimestamp before.

End Throwing.

(* ================================================================== *)
(** * Properties                                                       *)
(* ================================================================== *)

(** ** The notification decision engine *)

Section BackgroundFacts.

Import Background.

Variable START_TIME : Z.

Lemma arrayIndexOfFrom_range a x i :
  0 <= i -> Js.arrayIndexOfFrom a x i = -1 \/ i <= Js.arrayIndexOfFrom a x i.
Proof.
  revert i; induction a as [|y a IH]; intros i Hi; simpl.
  - now left.
  - destruct (String.eqb y x); [right; lia|].
    destruct (IH (i + 1)) as [E|E]; [lia | now left | right; lia].
Qed.

Lemma arrayIndexOfFrom_absent a x i :
  0 <= i -> (Js.arrayIndexOfFrom a x i = -1 <-> ~ In x a).
Proof.
  revert i; induction a as [|y a IH]; intros i Hi; simpl.
  - tauto.
  - destruct (String.eqb_spec y x) as [->|Hne].
    + split; [lia | intros H; exfalso; apply H; now left].
    + rewrite (IH (i + 1)) by lia. split.
      * intros H [E|E]; [congruence | tauto].
      * intros H E; apply H; now right.
Qed.

(** [a.indexOf(x) === -1] says that [x] is not an element of [a]. *)
Lemma arrayIndexOf_absent a x :
  (Js.arrayIndexOf a x =? -1) = true <-> ~ In x a.
Proof.
  unfold Js.arrayIndexOf. rewrite Z.eqb_eq.
  apply arrayIndexOfFrom_absent; lia.
Qed.

Lemma arrayIndexOf_present a x :
  (Js.arrayIndexOf a x =? -1) = false <-> In x a.
Proof.
  destruct (Js.arrayIndexOf a x =? -1) eqn:E.
  - apply arrayIndexOf_absent in E. split; [discriminate | tauto].
  - split; [intros _ | reflexivity].
    destruct (in_dec string_dec x a) as [H|H]; [assumption|].
    apply arrayIndexOf_absent in H. congruence.
Qed.

(** The lookup [tasks.filter(t => t.id === id)[0]] is defined for every
    id the handler visits. *)
Lemma lookup_defined storedState id :
  In id (updatedFinishedTaskIds storedState) ->
  exists task rest,
    filter (fun t => String.eqb (task_id t) id) (tasks (cached storedState))
    = task :: rest.
Proof.
  unfold updatedFinishedTaskIds. intros H.
  apply in_map_iff in H as (t & <- & Ht).
  apply filter_In in Ht as [Ht _].
  assert (Hin : In t (filter (fun t' => String.eqb (task_id t') (task_id t))
                             (tasks (cached storedState)))).
  { apply filter_In. split; [assumption | apply String.eqb_refl]. }
  destruct (filter _ _) as [|task rest]; [contradiction | eauto].
Qed.

Lemma noticesFor_app id n1 n2 :
  noticesFor id (n1 ++ n2) = (noticesFor id n1 + noticesFor id n2)%nat.
Proof. unfold noticesFor. now rewrite filter_app, length_app. Qed.

(** One visit of the [forEach] notifies at most once, and only for the
    id it visits. *)
Lemma notifyFinished_count storedState id x :
  (noticesFor id (notifyFinished storedState x) <= (if String.eqb x id then 1 else 0))%nat.
Proof.
  unfold notifyFinished, noticesFor.
  destruct (filter _ (tasks _)) as [|task rest]; simpl; [lia|].
  destruct (enableCompletionNotifications storedState); simpl; [|lia].
  destruct (String.eqb x id); simpl; lia.
Qed.

Lemma noticesFor_visits storedState id (visited : list string) :
  (noticesFor id (flat_map (notifyFinished storedState) visited)
   <= count_occ string_dec visited id)%nat.
Proof.
  induction visited as [|x l IH]; simpl; [unfold noticesFor; simpl; lia|].
  rewrite noticesFor_app.
  pose proof (notifyFinished_count storedState id x) as Hx.
  destruct (string_dec x id) as [->|Hne].
  - rewrite String.eqb_refl in Hx. lia.
  - apply String.eqb_neq in Hne. rewrite Hne in Hx. lia.
Qed.

(** The ids of the terminal tasks of a snapshot are distinct when the
    ids of all its tasks are. *)
Lemma terminal_ids_distinct (ts : list DownloadStationTask) :
  NoDup (map task_id ts) -> NoDup (map task_id (filter isTerminal ts)).
Proof.
  intros Hall. induction ts as [|t ts IH]; cbn [filter map]; [constructor|].
  apply NoDup_cons_iff in Hall as [Hfresh Hrest].
  destruct (isTerminal t); cbn [map]; [|exact (IH Hrest)].
  apply NoDup_cons; [|exact (IH Hrest)].
  intros Hdup. apply Hfresh.
  apply in_map_iff in Hdup as (t' & Hid & Hin).
  apply filter_In in Hin as [Hin _].
  rewrite <- Hid. now apply in_map.
Qed.

Lemma newly_NoDup finished storedState :
  uniqueIds storedState -> NoDup (newlyFinishedTaskIds finished storedState).
Proof.
  intros H. unfold newlyFinishedTaskIds, updatedFinishedTaskIds.
  apply NoDup_filter, terminal_ids_distinct, H.
Qed.

Lemma newly_spec finished storedState id :
  In id (newlyFinishedTaskIds finished storedState) <->
  In id (updatedFinishedTaskIds storedState) /\ ~ In id finished.
Proof.
  unfold newlyFinishedTaskIds. rewrite filter_In, arrayIndexOf_absent. tauto.
Qed.

(** Every notice of one handler run was issued for a newly terminal
    task, with notifications enabled. *)
Lemma notice_origin finished storedState n :
  In n (fst (onStoredStateChange START_TIME (Some finished) storedState)) ->
  enableCompletionNotifications storedState = true /\
  In (note_task n) (newlyFinishedTaskIds finished storedState).
Proof.
  unfold onStoredStateChange.
  destruct (confirmed START_TIME storedState); simpl; [|tauto].
  intros H. apply in_flat_map in H as (x & Hx & Hn).
  unfold notifyFinished in Hn.
  destruct (filter _ (tasks _)) as [|task rest]; [contradiction|].
  destruct (enableCompletionNotifications storedState); [|contradiction].
  destruct Hn as [<-|[]]. simpl. auto.
Qed.

(** A single handler run never removes an id. *)
Lemma step_keeps finishedTaskIds storedState id :
  tracked finishedTaskIds id ->
  tracked (snd (onStoredStateChange START_TIME finishedTaskIds storedState)) id.
Proof.
  unfold onStoredStateChange.
  destruct (confirmed START_TIME storedState); simpl; [|tauto].
  destruct finishedTaskIds as [l|]; simpl; [|tauto].
  intros H. apply in_or_app. now left.
Qed.

(** After a confirmed event every id that is terminal now is tracked. *)
Lemma step_tracks finishedTaskIds storedState id :
  confirmed START_TIME storedState = true ->
  In id (updatedFinishedTaskIds storedState) ->
  tracked (snd (onStoredStateChange START_TIME finishedTaskIds storedState)) id.
Proof.
  unfold onStoredStateChange. intros -> Hin. simpl.
  destruct finishedTaskIds as [l|]; simpl.
  - destruct (in_dec string_dec id l) as [H|H]; apply in_or_app; [now left|right].
    apply filter_In. split; [assumption | now apply arrayIndexOf_absent].
  - apply filter_In. split; [assumption | reflexivity].
Qed.

Lemma step_unconfirmed finishedTaskIds storedState :
  confirmed START_TIME storedState = false ->
  onStoredStateChange START_TIME finishedTaskIds storedState = ([], finishedTaskIds).
Proof. unfold onStoredStateChange. now intros ->. Qed.

Lemma run_app finishedTaskIds earlier later :
  run START_TIME finishedTaskIds (earlier ++ later) =
  (fst (run START_TIME finishedTaskIds earlier) ++
   fst (run START_TIME (snd (run START_TIME finishedTaskIds earlier)) later),
   snd (run START_TIME (snd (run START_TIME finishedTaskIds earlier)) later)).
Proof.
  revert finishedTaskIds; induction earlier as [|e rest IH]; intros s; simpl.
  - now destruct (run START_TIME s later).
  - destruct (onStoredStateChange START_TIME s e) as [n1 s1].
    rewrite IH. destruct (run START_TIME s1 rest) as [n2 s2]. simpl.
    now rewrite app_assoc.
Qed.

Lemma run_keeps events : forall finishedTaskIds id,
  tracked finishedTaskIds id ->
  tracked (snd (run START_TIME finishedTaskIds events)) id.
Proof.
  induction events as [|e rest IH]; intros s id H; simpl; [assumption|].
  pose proof (step_keeps s e id H) as H1.
  destruct (onStoredStateChange START_TIME s e) as [n1 s1]. simpl in H1.
  specialize (IH s1 id H1).
  now destruct (run START_TIME s1 rest).
Qed.

Lemma tracked_dec finishedTaskIds id :
  {tracked finishedTaskIds id} + {~ tracked finishedTaskIds id}.
Proof.
  destruct finishedTaskIds as [l|]; simpl; [apply in_dec, string_dec | now right].
Defined.

(** One handler run: nothing for a tracked id, at most one notice for
    any id, and an id that was notified is tracked afterwards. *)
Lemma step_notices finishedTaskIds storedState id :
  uniqueIds storedState ->
  let out := onStoredStateChange START_TIME finishedTaskIds storedState in
  (noticesFor id (fst out) <= 1)%nat /\
  (tracked finishedTaskIds id -> noticesFor id (fst out) = 0%nat) /\
  (noticesFor id (fst out) = 1%nat -> tracked (snd out) id).
Proof.
  intros Hu out.
  destruct (confirmed START_TIME storedState) eqn:Hc.
  2:{ subst out. rewrite step_unconfirmed by assumption. simpl.
      unfold noticesFor; simpl. repeat split; auto; discriminate. }
  assert (Hcount : (noticesFor id (fst out) <=
                    match finishedTaskIds with
                    | Some l => count_occ string_dec (newlyFinishedTaskIds l storedState) id
                    | None => 0
                    end)%nat).
  { subst out. unfold onStoredStateChange. rewrite Hc. simpl.
    destruct finishedTaskIds as [l|]; [apply noticesFor_visits|].
    unfold noticesFor; simpl; lia. }
  assert (Hle : (noticesFor id (fst out) <= 1)%nat).
  { destruct finishedTaskIds as [l|]; [|lia].
    pose proof (newly_NoDup l storedState Hu) as Hnd.
    rewrite (NoDup_count_occ string_dec) in Hnd. specialize (Hnd id). lia. }
  split; [exact Hle|]. split.
  - intros Ht. destruct finishedTaskIds as [l|]; [|lia].
    simpl in Ht.
    assert (Hnot : ~ In id (newlyFinishedTaskIds l storedState)).
    { rewrite newly_spec. tauto. }
    apply (count_occ_not_In string_dec) in Hnot. lia.
  - intros H1. destruct finishedTaskIds as [l|]; [|lia].
    assert (Hin : In id (newlyFinishedTaskIds l storedState)).
    { apply (count_occ_In string_dec). lia. }
    apply newly_spec in Hin as [Hin _].
    subst out. now apply step_tracks.
Qed.

Lemma run_notices events : forall finishedTaskIds id,
  Forall uniqueIds events ->
  (noticesFor id (fst (run START_TIME finishedTaskIds events))
   <= if tracked_dec finishedTaskIds id then 0 else 1)%nat.
Proof.
  induction events as [|e rest IH]; intros s id Hu; simpl.
  - unfold noticesFor; simpl. destruct (tracked_dec s id); lia.
  - inversion Hu as [|? ? He Hrest]; subst.
    destruct (step_notices s e id He) as (Hle & Hzero & Hone).
    pose proof (step_keeps s e id) as Hkeep.
    destruct (onStoredStateChange START_TIME s e) as [n1 s1]. simpl in *.
    specialize (IH s1 id Hrest).
    destruct (run START_TIME s1 rest) as [n2 s2]. simpl in *.
    rewrite noticesFor_app.
    destruct (tracked_dec s id) as [Ht|Ht].
    + specialize (Hzero Ht). specialize (Hkeep Ht).
      destruct (tracked_dec s1 id); [lia | contradiction].
    + destruct (tracked_dec s1 id) as [Ht1|Ht1]; [lia|].
      assert (noticesFor id n1 <> 1%nat) by (intros E; apply Ht1, Hone, E).
      lia.
Qed.

(** Nothing is notified for an id that is already tracked. *)
Lemma step_silent finishedTaskIds storedState id :
  tracked finishedTaskIds id ->
  noticesFor id (fst (onStoredStateChange START_TIME finishedTaskIds storedState)) = 0%nat.
Proof.
  intros Ht. unfold onStoredStateChange.
  destruct (confirmed START_TIME storedState); [|reflexivity].
  destruct finishedTaskIds as [l|]; [|contradiction]. cbn [fst].
  pose proof (noticesFor_visits storedState id (newlyFinishedTaskIds l storedState)) as Hle.
  assert (Hnot : ~ In id (newlyFinishedTaskIds l storedState)).
  { rewrite newly_spec. simpl in Ht. tauto. }
  apply (count_occ_not_In string_dec) in Hnot. lia.
Qed.

(** An id that was notified is tracked from then on. *)
Lemma step_notified finishedTaskIds storedState id :
  noticesFor id (fst (onStoredStateChange START_TIME finishedTaskIds storedState)) <> 0%nat ->
  tracked (snd (onStoredStateChange START_TIME finishedTaskIds storedState)) id.
Proof.
  intros Hn.
  destruct (confirmed START_TIME storedState) eqn:Hc.
  2:{ rewrite step_unconfirmed in Hn by assumption. now contradiction Hn. }
  apply step_tracks; [assumption|].
  destruct finishedTaskIds as [l|].
  - assert (Hin : In id (newlyFinishedTaskIds l storedState)).
    { apply (count_occ_In string_dec).
      pose proof (noticesFor_visits storedState id (newlyFinishedTaskIds l storedState)).
      unfold onStoredStateChange in Hn. rewrite Hc in Hn. cbn [fst] in Hn. lia. }
    now apply newly_spec in Hin.
  - unfold onStoredStateChange in Hn. rewrite Hc in Hn. now contradiction Hn.
Qed.

Lemma run_silent events : forall finishedTaskIds id,
  tracked finishedTaskIds id ->
  noticesFor id (fst (run START_TIME finishedTaskIds events)) = 0%nat.
Proof.
  induction events as [|e rest IH]; intros s id Ht; cbn [run]; [reflexivity|].
  pose proof (step_silent s e id Ht) as H0.
  pose proof (step_keeps s e id Ht) as H1.
  destruct (onStoredStateChange START_TIME s e) as [n1 s1]. cbn [fst snd] in *.
  specialize (IH s1 id H1).
  destruct (run START_TIME s1 rest) as [n2 s2]. cbn [fst] in *.
  rewrite noticesFor_app. lia.
Qed.

End BackgroundFacts.

(** Scenario A, evaluated: nothing after poll 1, one notification for
    task 1 after poll 2, nothing again while it stays finished. *)
Example scenarioA_notices :
  fst (Background.run 100 None Scenario.scenarioA) =
  [ {| Background.note_task := "1"; Background.note_title := "title-1";
       Background.note_message := "Download_finished" |} ]
  /\ fst (Background.run 100 None (firstn 1 Scenario.scenarioA)) = [].
Proof. split; reflexivity. Qed.

(** Scenario B, evaluated: a task already finished on the first
    confirmed poll seeds the tracked set silently. *)
Example scenarioB_silent :
  Background.run 100 None [Scenario.polled 101 [Scenario.task "1" "finished"]]
  = ([], Some ["1"]).
Proof. reflexivity. Qed.

Section CompletionFacts.

Import Background.

Variable START_TIME : Z.

(** The guard of the handler is the confirmed poll of the
    specification. *)
Lemma confirmed_spec storedState :
  confirmed START_TIME storedState = true <-> Spec.confirmedPoll START_TIME storedState.
Proof.
  unfold confirmed, Spec.confirmedPoll.
  destruct (tasksLastCompletedFetchTimestamp (cached storedState)) as [t|].
  - destruct (taskFetchFailureReason (cached storedState)) eqn:Er;
      rewrite ?andb_true_r, ?andb_false_r; split.
    + intros H. apply Z.ltb_lt in H. exists t. auto.
    + intros (c & Hc & Hlt & _). injection Hc as <-. now apply Z.ltb_lt.
    + discriminate.
    + intros (c & _ & _ & H). discriminate.
    + discriminate.
    + intros (c & _ & _ & H). discriminate.
  - split; [discriminate|]. intros (c & H & _). discriminate.
Qed.

(** The ids the handler computes are the ids of the tasks that are
    finished or seeding. *)
Lemma updated_spec storedState id :
  In id (updatedFinishedTaskIds storedState) <-> Spec.terminalIn storedState id.
Proof.
  unfold updatedFinishedTaskIds, Spec.terminalIn, isTerminal.
  rewrite in_map_iff. split.
  - intros (task & Hid & Hin). apply filter_In in Hin as [Hin Hst].
    exists task. split; [exact Hin|]. split; [exact Hid|].
    apply orb_true_iff in Hst as [H|H]; apply String.eqb_eq in H; auto.
  - intros (task & Hin & Hid & Hst). exists task. split; [exact Hid|].
    apply filter_In. split; [exact Hin|].
    destruct Hst as [-> | ->]; [reflexivity | apply orb_true_r].
Qed.

(** Visiting a terminal id with notifications enabled notifies it. *)
Lemma notifyFinished_fires storedState id :
  enableCompletionNotifications storedState = true ->
  In id (updatedFinishedTaskIds storedState) ->
  noticesFor id (notifyFinished storedState id) = 1%nat.
Proof.
  intros He Hin. destruct (lookup_defined storedState id Hin) as (task & rest & E).
  unfold notifyFinished, noticesFor. rewrite E, He. cbn.
  now rewrite String.eqb_refl.
Qed.

Lemma visits_fire storedState id (visited : list string) :
  enableCompletionNotifications storedState = true ->
  In id (updatedFinishedTaskIds storedState) ->
  In id visited ->
  (1 <= noticesFor id (flat_map (notifyFinished storedState) visited))%nat.
Proof.
  intros He Hin. induction visited as [|x rest IH]; [contradiction|].
  intros [-> | Hrest]; cbn [flat_map]; rewrite noticesFor_app.
  - rewrite (notifyFinished_fires storedState id He Hin). lia.
  - specialize (IH Hrest). lia.
Qed.

(** What a confirmed event leaves in the tracked set. *)
Lemma step_tracked finishedTaskIds storedState id :
  confirmed START_TIME storedState = true ->
  tracked (snd (onStoredStateChange START_TIME finishedTaskIds storedState)) id <->
  tracked finishedTaskIds id \/ In id (updatedFinishedTaskIds storedState).
Proof.
  intros Hc. unfold onStoredStateChange. rewrite Hc. cbn [snd tracked].
  destruct finishedTaskIds as [l|]; cbn [tracked]; rewrite in_app_iff, filter_In.
  - rewrite arrayIndexOf_absent.
    destruct (in_dec string_dec id l); tauto.
  - cbn [In]. tauto.
Qed.

End CompletionFacts.

(** C1. No-duplicate law of the completion notifications.
    (1) The guard of the handler is the confirmed poll: a completed
        timestamp exists, is strictly after the process start, and the
        failure reason is null.
    (2) On the first confirmed poll (the tracked set is still
        undefined) the set is seeded with exactly the ids of the tasks
        whose status is finished or seeding, and nothing is notified.
    (3) On a later confirmed poll every notification is for an id that
        is terminal now and was not tracked, and is only issued with
        completion notifications enabled.
    (4) Conversely, on a later confirmed poll with notifications
        enabled, every id that is terminal now and was not tracked is
        notified, exactly once when the snapshot carries each id once.
    (5) After a later confirmed poll the tracked ids are those tracked
        before and those terminal now.
    (6) Once an id has been notified, no later event notifies it
        again, however long the task stays terminal.
    (7) Over any sequence of cache-change events whose snapshots carry
        each task id once, no task id is notified more than once in
        the whole run. *)
Theorem completion_notified_at_most_once
        (START_TIME : Z) (events : list StoredState)
        (Hunique : Forall Background.uniqueIds events) :
  (forall storedState,
      Background.confirmed START_TIME storedState = true <->
      Spec.confirmedPoll START_TIME storedState)
  /\
  (forall storedState,
      Spec.confirmedPoll START_TIME storedState ->
      exists seeded,
        Background.onStoredStateChange START_TIME None storedState
        = ([], Some seeded) /\
        forall id, In id seeded <-> Spec.terminalIn storedState id)
  /\
  (forall finishedTaskIds storedState n,
      In n (fst (Background.onStoredStateChange
                   START_TIME (Some finishedTaskIds) storedState)) ->
      Spec.confirmedPoll START_TIME storedState /\
      enableCompletionNotifications storedState = true /\
      Spec.terminalIn storedState (Background.note_task n) /\
      ~ In (Background.note_task n) finishedTaskIds /\
      Background.note_message n = "Download_finished")
  /\
  (forall finishedTaskIds storedState id,
      Spec.confirmedPoll START_TIME storedState ->
      enableCompletionNotifications storedState = true ->
      Spec.terminalIn storedState id ->
      ~ In id finishedTaskIds ->
      (1 <= Background.noticesFor id
              (fst (Background.onStoredStateChange
                      START_TIME (Some finishedTaskIds) storedState)))%nat /\
      (Background.uniqueIds storedState ->
       Background.noticesFor id
         (fst (Background.onStoredStateChange
                 START_TIME (Some finishedTaskIds) storedState)) = 1%nat))
  /\
  (forall finishedTaskIds storedState id,
      Spec.confirmedPoll START_TIME storedState ->
      (Background.tracked
         (snd (Background.onStoredStateChange
                 START_TIME (Some finishedTaskIds) storedState)) id <->
       In id finishedTaskIds \/ Spec.terminalIn storedState id))
  /\
  (forall finishedTaskIds storedState later id,
      Background.noticesFor id
        (fst (Background.onStoredStateChange START_TIME finishedTaskIds storedState))
      <> 0%nat ->
      Background.noticesFor id
        (fst (Background.run START_TIME
                (snd (Background.onStoredStateChange START_TIME finishedTaskIds storedState))
                later))
      = 0%nat)
  /\
  (forall id,
      (Background.noticesFor id (fst (Background.run START_TIME None events)) <= 1)%nat).
Proof.
  split; [|split; [|split; [|split; [|split; [|split]]]]].
  - intros storedState. apply confirmed_spec.
  - intros storedState Hc. apply confirmed_spec in Hc.
    exists (Background.updatedFinishedTaskIds storedState). split.
    + unfold Background.onStoredStateChange. rewrite Hc.
      simpl. f_equal. f_equal.
      induction (Background.updatedFinishedTaskIds storedState) as [|x l IH];
        simpl; congruence.
    + intros id. apply updated_spec.
  - intros finishedTaskIds storedState n Hn.
    destruct (Background.confirmed START_TIME storedState) eqn:Hc.
    + assert (Hmessage : Background.note_message n = "Download_finished").
      { unfold Background.onStoredStateChange in Hn. rewrite Hc in Hn. cbn [fst] in Hn.
        apply in_flat_map in Hn as (x & _ & Hn).
        unfold Background.notifyFinished in Hn.
        destruct (filter _ (tasks _)) as [|task rest]; [contradiction|].
        destruct (enableCompletionNotifications storedState); [|contradiction].
        destruct Hn as [<-|[]]. reflexivity. }
      apply notice_origin in Hn as [He Hnew].
      apply newly_spec in Hnew as [Hin Hnot].
      apply confirmed_spec in Hc. apply updated_spec in Hin. auto.
    + rewrite step_unconfirmed in Hn by assumption. contradiction.
  - intros finishedTaskIds storedState id Hc He Hterminal Hnot.
    apply confirmed_spec in Hc. apply updated_spec in Hterminal.
    assert (Hlow : (1 <= Background.noticesFor id
                           (fst (Background.onStoredStateChange
                                   START_TIME (Some finishedTaskIds) storedState)))%nat).
    { unfold Background.onStoredStateChange. rewrite Hc. cbn [fst].
      apply visits_fire; [exact He | exact Hterminal|].
      apply newly_spec. auto. }
    split; [exact Hlow|]. intros Hu.
    destruct (step_notices START_TIME (Some finishedTaskIds) storedState id Hu)
      as (Hle & _). cbv zeta in Hle. lia.
  - intros finishedTaskIds storedState id Hc. apply confirmed_spec in Hc.
    rewrite (step_tracked START_TIME (Some finishedTaskIds) storedState id Hc).
    cbn [Background.tracked]. now rewrite updated_spec.
  - intros finishedTaskIds storedState later id Hn.
    apply run_silent. now apply step_notified.
  - intros id.
    pose proof (run_notices START_TIME events None id Hunique) as H.
    destruct (tracked_dec None id) as [[]|_]. exact H.
Qed.

Lemma completion_notified_at_most_once_witness :
  Forall Background.uniqueIds Scenario.scenarioA /\
  (Background.noticesFor "1" (fst (Background.run 100 None Scenario.scenarioA)) <= 1)%nat.
Proof.
  assert (H : Forall Background.uniqueIds Scenario.scenarioA).
  { repeat constructor; simpl; tauto. }
  split; [exact H|].
  exact (proj2 (proj2 (proj2 (proj2 (proj2 (proj2
           (completion_notified_at_most_once 100 Scenario.scenarioA H)))))) "1").
Defined.

(** C10. The tracked terminal-ID set is monotone: an id that is in the
    set after some events is still in it after any further events; one
    handler run never removes an id; and an event that fails the
    confirmed-poll guard leaves the set as it was and notifies nothing. *)
Theorem tracked_set_never_shrinks
        (START_TIME : Z) (finishedTaskIds : option (list string))
        (earlier later : list StoredState) (id : string)
        (Hin : Background.tracked
                 (snd (Background.run START_TIME finishedTaskIds earlier)) id) :
  Background.tracked
    (snd (Background.run START_TIME finishedTaskIds (earlier ++ later))) id
  /\
  (forall state storedState,
      Background.tracked state id ->
      Background.tracked
        (snd (Background.onStoredStateChange START_TIME state storedState)) id)
  /\
  (forall state storedState,
      Background.confirmed START_TIME storedState = false ->
      Background.onStoredStateChange START_TIME state storedState = ([], state)).
Proof.
  split; [|split].
  - rewrite run_app. simpl. now apply run_keeps.
  - intros state storedState. apply step_keeps.
  - intros state storedState. apply step_unconfirmed.
Qed.

Lemma tracked_set_never_shrinks_witness :
  Background.tracked
    (snd (Background.run 100 None
            (firstn 2 Scenario.scenarioA ++
             [Scenario.failedPoll 104 []; Scenario.polled 105 []]))) "1".
Proof.
  refine (proj1 (tracked_set_never_shrinks 100 None (firstn 2 Scenario.scenarioA)
                   [Scenario.failedPoll 104 []; Scenario.polled 105 []] "1" _)).
  simpl. now left.
Defined.

(** ** Traces *)

Lemma issued_app before after l :
  trace after = trace before ++ l -> issued before after = l.
Proof.
  unfold issued. intros ->.
  rewrite skipn_app, skipn_all, Nat.sub_diag. reflexivity.
Qed.

Lemma issued_log e w : issued w (log e w) = [e].
Proof. now apply issued_app. Qed.

(** ** The no-permissions retry wrapper *)

Lemma isNoPermissionsFailure_spec {T} (result : ApiResult T) :
  isNoPermissionsFailure result = true <-> result = Response (Failure 105).
Proof.
  unfold isNoPermissionsFailure, NO_PERMISSIONS_ERROR_CODE.
  destruct result as [f|[d|code]]; simpl; split; try discriminate.
  - intros H. apply Z.eqb_eq in H. now subst.
  - intros H. injection H as ->. reflexivity.
Qed.

(** The retry law on the two scripts of the specification: a permission
    failure followed by a success returns the success after one logout;
    two permission failures return the second one after one logout and
    two calls. *)
Example retry_law_scripts :
  let heals := Scenario.scriptedEnv Scenario.always
                 [Scenario.permissionFailure; Scenario.success []] [] in
  let stuck := Scenario.scriptedEnv Scenario.always
                 [Scenario.permissionFailure; Scenario.permissionFailure;
                  Scenario.success []] [] in
  (fst (doTaskPoll heals tt Scenario.world0) = Scenario.success []
   /\ trace (snd (doTaskPoll heals tt Scenario.world0))
      = [TaskList; AuthLogout; TaskList])
  /\
  (fst (doTaskPoll stuck tt Scenario.world0) = Scenario.permissionFailure
   /\ trace (snd (doTaskPoll stuck tt Scenario.world0))
      = [TaskList; AuthLogout; TaskList]).
Proof. repeat split. Qed.

(** C2. Retry law of [wrapInNoPermissionsRetry], for any underlying call
    [fn] whose every invocation shows in the trace as the one event
    [call args].  If the first invocation resolves with an unsuccessful
    response whose error code is 105, the wrapper logs out once, invokes
    [fn] once more with the same arguments and settles exactly as that
    second invocation does: the events issued are the call, the logout
    and the call.  In every other case, a rejection included, the
    wrapper settles as the first invocation did, and the only event
    issued is that one call. *)
Theorem no_permissions_retry_law
        {Args T : Type} (fn : Args -> Async (ApiResult T)) (call : Args -> Event)
        (Hcall : forall args w, trace (snd (fn args w)) = trace w ++ [call args])
        (args : Args) (w : World) :
  (forall w1,
      fn args w = (Resolved (Response (Failure 105)), w1) ->
      wrapInNoPermissionsRetry fn args w = fn args (log AuthLogout w1)
      /\ issued w (snd (wrapInNoPermissionsRetry fn args w))
         = [call args; AuthLogout; call args])
  /\
  (forall settled w1,
      fn args w = (settled, w1) ->
      settled <> Resolved (Response (Failure 105)) ->
      wrapInNoPermissionsRetry fn args w = (settled, w1)
      /\ issued w w1 = [call args]).
Proof.
  split.
  - intros w1 H1.
    assert (E : wrapInNoPermissionsRetry fn args w = fn args (log AuthLogout w1)).
    { unfold wrapInNoPermissionsRetry, bind. rewrite H1. reflexivity. }
    split; [exact E|].
    rewrite E. apply issued_app.
    rewrite Hcall. simpl.
    pose proof (Hcall args w) as H. rewrite H1 in H. simpl in H. rewrite H.
    now rewrite <- !app_assoc.
  - intros settled w1 H1 Hne.
    pose proof (Hcall args w) as H. rewrite H1 in H. simpl in H.
    split; [|now apply issued_app].
    unfold wrapInNoPermissionsRetry, bind. rewrite H1.
    destruct settled as [result|e]; [|reflexivity].
    destruct (isNoPermissionsFailure result) eqn:E; [|reflexivity].
    apply isNoPermissionsFailure_spec in E. congruence.
Qed.

Lemma Task_List_logs env (args : unit) w :
  trace (snd (Task_List env args w)) = trace w ++ [TaskList].
Proof. reflexivity. Qed.

Lemma Task_Create_logs env options w :
  trace (snd (Task_Create env options w)) = trace w ++ [TaskCreate options].
Proof. reflexivity. Qed.

Lemma no_permissions_retry_law_witness :
  let env := Scenario.scriptedEnv Scenario.always
               [Scenario.permissionFailure; Scenario.success []] [] in
  issued Scenario.world0 (snd (doTaskPoll env tt Scenario.world0))
  = [TaskList; AuthLogout; TaskList].
Proof.
  intros env.
  exact (proj2 (proj1 (no_permissions_retry_law
                         (Task_List env) (fun _ => TaskList) (Task_List_logs env)
                         tt Scenario.world0)
                      _ eq_refl)).
Defined.

(** ** The poll coordinator *)

Section PollFacts.

Variable env : Env.
Variable lib : Lib.

(** The wrapped task-list call touches neither the cache nor the
    clock, and issues one call, or a call, a logout and a call. *)
Lemma doTaskPoll_frame w :
  let w' := snd (doTaskPoll env tt w) in
  store w' = store w /\ ticks w' = ticks w /\ idCounter w' = idCounter w /\
  exists calls,
    trace w' = trace w ++ calls /\
    (calls = [TaskList] \/ calls = [TaskList; AuthLogout; TaskList]).
Proof.
  unfold doTaskPoll, wrapInNoPermissionsRetry, bind, Task_List, request, Auth_Logout.
  destruct (taskListReply env (trace (log TaskList w))) as [result|e]; simpl.
  - destruct (isNoPermissionsFailure result); simpl.
    + repeat split. exists [TaskList; AuthLogout; TaskList].
      rewrite <- !app_assoc. auto.
    + repeat split. eauto.
  - repeat split. eauto.
Qed.

(** The result write, step by step. *)
Lemma setCachedTasksResponse_run cachedTasks w :
  let now := clock env (ticks w) in
  let payload :=
    spread {| p_tasks := None; p_taskFetchFailureReason := None;
              p_tasksLastInitiatedFetchTimestamp := None;
              p_tasksLastCompletedFetchTimestamp := Some (Some now) |}
           cachedTasks in
  let w' := snd (setCachedTasksResponse env cachedTasks w) in
  trace w' = trace w ++ [DateNow now; StorageSet payload] /\
  ticks w' = S (ticks w) /\ idCounter w' = idCounter w /\
  (if storageCommits env (trace w')
   then fst (setCachedTasksResponse env cachedTasks w) = Resolved tt
        /\ store w' = merge (store w) payload
   else (exists e, fst (setCachedTasksResponse env cachedTasks w) = Rejected e)
        /\ store w' = store w).
Proof.
  unfold setCachedTasksResponse, bind, Date_now, storage_local_set, log. simpl.
  rewrite <- !app_assoc. simpl.
  destruct (storageCommits env _) eqn:E; simpl; rewrite <- ?app_assoc; simpl;
    rewrite E; repeat split; eauto.
Qed.

(** Once the initiation write and the wrapped call have both resolved,
    the attempt is the result write for the classified response. *)
Lemma pollAttempt_resolved t w w1 response w2 :
  storage_local_set env (Spec.initWrite t) w = (Resolved tt, w1) ->
  doTaskPoll env tt w1 = (Resolved response, w2) ->
  exists cachedTasks,
    pollAttempt env lib t w = setCachedTasksResponse env cachedTasks w2 /\
    forall now,
      spread {| p_tasks := None; p_taskFetchFailureReason := None;
                p_tasksLastInitiatedFetchTimestamp := None;
                p_tasksLastCompletedFetchTimestamp := Some (Some now) |}
             cachedTasks
      = Spec.resultWrite lib response now.
Proof.
  intros H1 H2. unfold pollAttempt, bind, all2.
  change {| p_tasks := None; p_taskFetchFailureReason := None;
            p_tasksLastInitiatedFetchTimestamp := Some (Some t);
            p_tasksLastCompletedFetchTimestamp := None |}
    with (Spec.initWrite t).
  rewrite H1, H2.
  destruct response as [failure|[data|code]]; simpl.
  - destruct (String.eqb (cf_type failure) "missing-config");
      eexists; split; reflexivity.
  - eexists; split; reflexivity.
  - eexists; split; reflexivity.
Qed.

(** If either of the two concurrent steps rejects, the attempt
    rejects without reaching the result write. *)
Lemma pollAttempt_rejected_early t w :
  let first := storage_local_set env (Spec.initWrite t) w in
  let second := doTaskPoll env tt (snd first) in
  (forall response, fst first = Resolved tt -> fst second <> Resolved response) ->
  exists e, pollAttempt env lib t w = (Rejected e, snd second).
Proof.
  intros first second H. unfold pollAttempt, bind, all2.
  change {| p_tasks := None; p_taskFetchFailureReason := None;
            p_tasksLastInitiatedFetchTimestamp := Some (Some t);
            p_tasksLastCompletedFetchTimestamp := None |}
    with (Spec.initWrite t).
  fold first. destruct first as [[[]|e1] w1] eqn:E1; simpl in *.
  - fold second. destruct second as [[response|e2] w2]; simpl in *.
    + exfalso. now apply (H response).
    + eauto.
  - fold second. destruct second as [[response|e2] w2]; simpl; eauto.
Qed.

Lemma initWrite_run t w :
  let w' := snd (storage_local_set env (Spec.initWrite t) w) in
  trace w' = trace w ++ [StorageSet (Spec.initWrite t)] /\
  ticks w' = ticks w /\ idCounter w' = idCounter w /\
  tasks (store w') = tasks (store w) /\
  taskFetchFailureReason (store w') = taskFetchFailureReason (store w) /\
  tasksLastCompletedFetchTimestamp (store w')
  = tasksLastCompletedFetchTimestamp (store w).
Proof.
  unfold storage_local_set. simpl.
  destruct (storageCommits env _); simpl; repeat split.
Qed.

(** The shape of every poll: the initiation reading and write, the
    wrapped call, and then either nothing more or the completion
    reading and the result write. *)
Lemma pollTasks_summary w :
  let t0 := clock env (ticks w) in
  let t1 := clock env (S (ticks w)) in
  let w' := snd (pollTasks env lib w) in
  fst (pollTasks env lib w) = Resolved tt /\
  idCounter w' = idCounter w /\
  exists calls tail,
    trace w' = trace w ++ [DateNow t0; StorageSet (Spec.initWrite t0)] ++ calls ++ tail /\
    (calls = [TaskList] \/ calls = [TaskList; AuthLogout; TaskList]) /\
    (tail = [] \/
     exists response, tail = [DateNow t1; StorageSet (Spec.resultWrite lib response t1)]).
Proof.
  intros t0 t1. unfold pollTasks, bind, catch. simpl.
  set (w0 := {| trace := trace w ++ [DateNow (clock env (ticks w))];
                store := store w; ticks := S (ticks w);
                idCounter := idCounter w |}).
  fold t0.
  destruct (initWrite_run t0 w0) as (Ht1 & Hk1 & Hi1 & _).
  destruct (doTaskPoll_frame (snd (storage_local_set env (Spec.initWrite t0) w0)))
    as (_ & Hk2 & Hi2 & calls & Ht2 & Hcalls).
  destruct (storage_local_set env (Spec.initWrite t0) w0) as [r1 w1] eqn:E1.
  cbn [snd fst] in *.
  destruct (doTaskPoll env tt w1) as [r2 w2] eqn:E2.
  cbn [snd fst] in *.
  assert (Hpre : trace w2 = trace w ++ [DateNow t0; StorageSet (Spec.initWrite t0)] ++ calls).
  { rewrite Ht2, Ht1. subst w0. simpl. now rewrite <- !app_assoc. }
  destruct r1 as [[]|e1]; [destruct r2 as [response|e2]|].
  - destruct (pollAttempt_resolved t0 w0 w1 response w2 E1 E2) as (c & -> & Hc).
    destruct (setCachedTasksResponse_run c w2) as (Ht3 & _ & Hi3 & _).
    rewrite Hc in Ht3.
    replace (clock env (ticks w2)) with t1 in Ht3
      by (unfold t1; rewrite Hk2, Hk1; reflexivity).
    destruct (setCachedTasksResponse env c w2) as [[[]|e3] w3]; simpl in *;
      (split; [reflexivity|]); (split; [now rewrite Hi3, Hi2, Hi1|]);
      exists calls, [DateNow t1; StorageSet (Spec.resultWrite lib response t1)];
      (split; [rewrite Ht3, Hpre; now rewrite <- !app_assoc|]); eauto.
  - destruct (pollAttempt_rejected_early t0 w0) as (e & ->).
    { rewrite E1. simpl. rewrite E2. simpl. discriminate. }
    rewrite E1. simpl. rewrite E2. simpl.
    split; [reflexivity|]. split; [now rewrite Hi2, Hi1|].
    exists calls, []. rewrite app_nil_r. auto.
  - destruct (pollAttempt_rejected_early t0 w0) as (e & ->).
    { rewrite E1. simpl. discriminate. }
    rewrite E1. simpl. rewrite E2. simpl.
    split; [reflexivity|]. split; [now rewrite Hi2, Hi1|].
    exists calls, []. rewrite app_nil_r. auto.
Qed.

End PollFacts.

Lemma storage_local_set_resolved env p w w' :
  storage_local_set env p w = (Resolved tt, w') ->
  store w' = merge (store w) p /\ ticks w' = ticks w.
Proof.
  unfold storage_local_set.
  destruct (storageCommits env _); intros H; inversion H; subst; simpl; auto.
Qed.

(** C3. Once the initiation write and the (wrapped) task-list call have
    settled with a response, [pollTasks] issues exactly one further
    write.  Its payload is the one the four-way classification
    prescribes for the response ([Spec.resultWrite]): the failure reason
    [missing-config], a failure message derived from the connection
    failure, the new task list with a null failure reason, or a failure
    message derived from the error code.  In each case the same payload
    carries [tasksLastCompletedFetchTimestamp], and its value is the
    clock reading taken after the response arrived, the one following
    the reading taken at poll start. *)
Theorem poll_commits_classified_response
        (env : Env) (lib : Lib) (w w1 w2 : World)
        (response : ApiResult (list DownloadStationTask))
        (Hinit : storage_local_set env (Spec.initWrite (clock env (ticks w)))
                                   (snd (Date_now env w)) = (Resolved tt, w1))
        (Hcall : doTaskPoll env tt w1 = (Resolved response, w2)) :
  let now := clock env (S (ticks w)) in
  let w' := snd (pollTasks env lib w) in
  trace w' = trace w2 ++ [DateNow now; StorageSet (Spec.resultWrite lib response now)]
  /\ p_tasksLastCompletedFetchTimestamp (Spec.resultWrite lib response now)
     = Some (Some now)
  /\ (storageCommits env (trace w') = true ->
      store w' = merge (store w2) (Spec.resultWrite lib response now)
      /\ tasksLastCompletedFetchTimestamp (store w') = Some now)
  /\ (storageCommits env (trace w') = false -> store w' = store w2).
Proof.
  intros now w'.
  destruct (pollAttempt_resolved env lib _ _ _ _ _ Hinit Hcall) as (c & Ec & Hc).
  destruct (setCachedTasksResponse_run env c w2) as (Ht & _ & _ & Hs).
  rewrite Hc in Ht, Hs.
  assert (Hk : ticks w2 = S (ticks w)).
  { destruct (doTaskPoll_frame env w1) as (_ & Hk2 & _). rewrite Hcall in Hk2.
    simpl in Hk2. apply storage_local_set_resolved in Hinit as [_ Hk1].
    rewrite Hk2, Hk1. reflexivity. }
  rewrite Hk in Ht, Hs. fold now in Ht, Hs.
  assert (Ew : w' = snd (setCachedTasksResponse env c w2)).
  { subst w'. unfold pollTasks, bind, catch. simpl. simpl in Ec. rewrite Ec.
    now destruct (setCachedTasksResponse env c w2) as [[[]|e] w3]. }
  rewrite <- Ew in Ht, Hs.
  split; [exact Ht|]. split.
  { destruct response as [failure|[data|code]]; simpl; try reflexivity.
    now destruct (String.eqb (cf_type failure) "missing-config"). }
  split; intros Hcommit; rewrite Hcommit in Hs; destruct Hs as [_ Hs].
  - split; [exact Hs|]. rewrite Hs.
    destruct response as [failure|[data|code]]; simpl; try reflexivity.
    now destruct (String.eqb (cf_type failure) "missing-config").
  - exact Hs.
Qed.

Lemma poll_commits_classified_response_witness :
  let env := Scenario.scriptedEnv Scenario.always
               [Scenario.success [Scenario.task "1" "finished"]] [] in
  tasks (store (snd (pollTasks env Scenario.demoLib Scenario.world0)))
  = [Scenario.task "1" "finished"].
Proof.
  intros env.
  pose proof (poll_commits_classified_response
                env Scenario.demoLib Scenario.world0 _ _ _ eq_refl eq_refl) as H.
  cbv zeta in H. destruct H as (_ & _ & H & _).
  destruct (H eq_refl) as [Hs _]. rewrite Hs. reflexivity.
Defined.

Section ThrowingFacts.

Variable env : Env.
Variable lib : Lib.
Variable faults : Throwing.Faults.

(** A storage write that may throw: the call is in the trace; the cache
    changes only when the call returned and the write committed. *)
Lemma throwing_storage_local_set_run p w :
  let c := fst (Throwing.storage_local_set env faults p w) in
  let w' := snd (Throwing.storage_local_set env faults p w) in
  trace w' = trace w ++ [StorageSet p] /\ ticks w' = ticks w /\
  idCounter w' = idCounter w /\
  ((c = Throwing.Returned (Resolved tt) /\ store w' = merge (store w) p)
   \/ (c <> Throwing.Returned (Resolved tt) /\ store w' = store w)) /\
  (forall e, c = Throwing.Threw e <->
             Throwing.storageSetThrows faults (trace w ++ [StorageSet p]) = Some e).
Proof.
  cbv zeta. unfold Throwing.storage_local_set.
  destruct (Throwing.storageSetThrows faults (trace w ++ [StorageSet p])) as [e|].
  - cbn [fst snd log trace store ticks idCounter].
    repeat split; auto; try (right; split; [discriminate | reflexivity]).
    + intros H. now injection H as ->.
    + intros H. now injection H as ->.
  - unfold storage_local_set. cbn [log trace].
    destruct (storageCommits env (trace w ++ [StorageSet p]));
      cbn [fst snd log trace store ticks idCounter];
      repeat split; auto; try discriminate.
    right. split; [discriminate | reflexivity].
Qed.

(** The wrapped list call that may throw: it leaves the cache, the
    clock and the notification ids alone, and it throws exactly when
    the first call of the client does. *)
Lemma throwing_doTaskPoll_run w :
  let c := fst (Throwing.doTaskPoll env faults tt w) in
  let w' := snd (Throwing.doTaskPoll env faults tt w) in
  store w' = store w /\ ticks w' = ticks w /\ idCounter w' = idCounter w /\
  (forall e, c = Throwing.Threw e <->
             Throwing.taskListThrows faults (trace w ++ [TaskList]) = Some e).
Proof.
  cbv zeta.
  unfold Throwing.doTaskPoll, Throwing.wrapInNoPermissionsRetry, Throwing.Task_List,
    Throwing.thenInvoke, Throwing.Auth_Logout, settled, Task_List, request.
  destruct (Throwing.taskListThrows faults (trace w ++ [TaskList])) as [e|].
  - cbn [fst snd log trace store ticks idCounter]. repeat split; auto.
    + intros H. now injection H as ->.
    + intros H. now injection H as ->.
  - cbn [fst snd log trace store ticks idCounter].
    destruct (taskListReply env (trace w ++ [TaskList])) as [result|e].
    + destruct (isNoPermissionsFailure result).
      * destruct (Throwing.logoutThrows faults _) as [e|];
          cbn [fst snd log trace store ticks idCounter].
        -- repeat split; auto; discriminate.
        -- destruct (Throwing.taskListThrows faults _) as [e|];
             cbn [fst snd log trace store ticks idCounter];
             repeat split; auto; discriminate.
      * cbn [fst snd log trace store ticks idCounter].
        repeat split; auto; discriminate.
    + cbn [fst snd log trace store ticks idCounter].
      repeat split; auto; discriminate.
Qed.

(** The callback of the chain: unless it returns a resolved promise,
    the cache is as it was. *)
Lemma throwing_onPollResponse_run response w :
  let c := fst (Throwing.onPollResponse env lib faults response w) in
  let w' := snd (Throwing.onPollResponse env lib faults response w) in
  c <> Throwing.Returned (Resolved tt) -> store w' = store w.
Proof.
  cbv zeta.
  assert (Hset : forall cachedTasks,
             fst (Throwing.setCachedTasksResponse env faults cachedTasks w)
             <> Throwing.Returned (Resolved tt) ->
             store (snd (Throwing.setCachedTasksResponse env faults cachedTasks w))
             = store w).
  { intros cachedTasks. unfold Throwing.setCachedTasksResponse.
    destruct (throwing_storage_local_set_run
                (spread {| p_tasks := None; p_taskFetchFailureReason := None;
                           p_tasksLastInitiatedFetchTimestamp := None;
                           p_tasksLastCompletedFetchTimestamp :=
                             Some (Some (clock env (ticks w))) |} cachedTasks)
                (snd (Date_now env w))) as (_ & _ & _ & Hcases & _).
    intros Hc. destruct Hcases as [[Hr _] | [_ Hs]]; [contradiction|].
    rewrite Hs. reflexivity. }
  unfold Throwing.onPollResponse.
  destruct response as [failure|[data|code]].
  - destruct (String.eqb (cf_type failure) "missing-config"); [apply Hset|].
    destruct (Throwing.errorMessageFromConnectionFailureThrows faults failure);
      [reflexivity | apply Hset].
  - apply Hset.
  - destruct (Throwing.errorMessageFromCodeThrows faults code "DownloadStation.Task");
      [reflexivity | apply Hset].
Qed.

(** The chain never settles with anything but [undefined], and when it
    rejects the cache is as it was. *)
Lemma throwing_pollChain_run write poll w :
  forall e w', Throwing.pollChain env lib faults write poll w = (Rejected e, w') ->
               store w' = store w.
Proof.
  intros e w'. unfold Throwing.pollChain, Throwing.thenInvoke, all2, settled.
  destruct write as [[]|e1], poll as [response|e2]; cbn [snd];
    try (intros H; now injection H as _ <-).
  pose proof (throwing_onPollResponse_run response w) as Hrun. cbv zeta in Hrun.
  destruct (Throwing.onPollResponse env lib faults response w) as [[e0|[[]|e0]] w1];
    cbn [fst snd] in Hrun; intros H; try discriminate H;
    injection H as _ <-; apply Hrun; discriminate.
Qed.

End ThrowingFacts.

(** Where no call throws, the model with exceptions is the model
    without. *)
Lemma throwing_without_faults env lib w :
  Throwing.pollTasks env lib Throwing.noFaults w
  = (Throwing.Returned (fst (pollTasks env lib w)), snd (pollTasks env lib w)).
Proof.
  unfold Throwing.pollTasks, Throwing.storage_local_set, Throwing.doTaskPoll,
    Throwing.wrapInNoPermissionsRetry, Throwing.Task_List, Throwing.Auth_Logout,
    Throwing.pollChain, Throwing.thenInvoke, Throwing.onPollResponse,
    Throwing.setCachedTasksResponse, Throwing.storage_local_set, Throwing.noFaults.
  cbn [Throwing.storageSetThrows Throwing.taskListThrows Throwing.logoutThrows
       Throwing.errorMessageFromCodeThrows
       Throwing.errorMessageFromConnectionFailureThrows].
  unfold pollTasks, pollAttempt, doTaskPoll, wrapInNoPermissionsRetry,
    setCachedTasksResponse, bind, catch, all2, settled, Auth_Logout, Task_List, request,
    storage_local_set, Date_now, ret.
  cbn [fst snd log trace store ticks idCounter].
  repeat first
    [ progress cbn [fst snd log trace store ticks idCounter]
    | match goal with
      | |- context [storageCommits env ?h] => destruct (storageCommits env h)
      end
    | match goal with
      | |- context [taskListReply env ?h] =>
          destruct (taskListReply env h) as [[?|[?|?]]|?]
      end
    | match goal with
      | |- context [isNoPermissionsFailure ?r] => destruct (isNoPermissionsFailure r)
      end
    | match goal with
      | |- context [String.eqb (cf_type ?f) ?x] => destruct (String.eqb (cf_type f) x)
      end ];
    reflexivity.
Qed.

(** C5, as stated, fails: the two calls that make the promises are in
    the body of [pollTasks], outside the chain that carries the
    [catch].  When the storage write or the list call throws instead
    of returning a promise, [pollTasks] throws and returns no promise
    at all. *)
Lemma poll_exception_counterexample :
  let env := Scenario.scriptedEnv Scenario.always [] [] in
  let storageGone :=
    {| Throwing.storageSetThrows :=
         fun _ => Some (ErrorObject "TypeError: browser.storage is undefined");
       Throwing.taskListThrows := fun _ => None;
       Throwing.logoutThrows := fun _ => None;
       Throwing.errorMessageFromCodeThrows := fun _ _ => None;
       Throwing.errorMessageFromConnectionFailureThrows := fun _ => None |} in
  let clientBroken :=
    {| Throwing.storageSetThrows := fun _ => None;
       Throwing.taskListThrows :=
         fun _ => Some (ErrorObject "TypeError: api.DownloadStation is undefined");
       Throwing.logoutThrows := fun _ => None;
       Throwing.errorMessageFromCodeThrows := fun _ _ => None;
       Throwing.errorMessageFromConnectionFailureThrows := fun _ => None |} in
  fst (Throwing.pollTasks env Scenario.demoLib storageGone Scenario.world0)
  = Throwing.Threw (ErrorObject "TypeError: browser.storage is undefined")
  /\ fst (Throwing.pollTasks env Scenario.demoLib clientBroken Scenario.world0)
     = Throwing.Threw (ErrorObject "TypeError: api.DownloadStation is undefined")
  /\ fst (Throwing.pollTasks env Scenario.demoLib storageGone Scenario.world0)
     <> Throwing.Returned (Resolved tt)
  /\ fst (Throwing.pollTasks env Scenario.demoLib clientBroken Scenario.world0)
     <> Throwing.Returned (Resolved tt).
Proof. repeat split; try reflexivity; vm_compute; discriminate. Qed.

(** C5, amended.  [pollTasks] never returns a promise that rejects.
    (1) Whatever the calls do, what comes back is not a rejecting
        promise.
    (2) It throws exactly when one of the two calls in its body, the
        initiation write or the first list call, throws instead of
        returning a promise.
    (3) When these two calls return, the promise resolves, however the
        promises settle and whatever throws inside the callbacks: the
        logout, the second list call, a message lookup, the clock or
        the result write.
    (4) When the chain rejects, the handler of the final catch changes
        nothing, and [tasks], [taskFetchFailureReason] and
        [tasksLastCompletedFetchTimestamp] of the cache are as they
        were before the invocation.
    (5) The same three fields are as they were when it throws.
    (6) Where no call throws, this is [pollTasks] as the other claims
        have it. *)
Theorem poll_never_rejects
        (env : Env) (lib : Lib) (faults : Throwing.Faults) (w : World) :
  let init := Spec.initWrite (clock env (ticks w)) in
  let h := trace w ++ [DateNow (clock env (ticks w)); StorageSet init] in
  let outcome := fst (Throwing.pollTasks env lib faults w) in
  let final := snd (Throwing.pollTasks env lib faults w) in
  (forall e, outcome <> Throwing.Returned (Rejected e))
  /\
  (forall e,
      outcome = Throwing.Threw e <->
      Throwing.storageSetThrows faults h = Some e \/
      (Throwing.storageSetThrows faults h = None /\
       Throwing.taskListThrows faults (h ++ [TaskList]) = Some e))
  /\
  (Throwing.storageSetThrows faults h = None ->
   Throwing.taskListThrows faults (h ++ [TaskList]) = None ->
   outcome = Throwing.Returned (Resolved tt))
  /\
  (forall write w1 poll w2 e w',
      Throwing.storage_local_set env faults init (snd (Date_now env w))
      = (Throwing.Returned write, w1) ->
      Throwing.doTaskPoll env faults tt w1 = (Throwing.Returned poll, w2) ->
      Throwing.pollChain env lib faults write poll w2 = (Rejected e, w') ->
      final = w' /\ Throwing.resultUntouched (store w) (store final))
  /\
  (forall e, outcome = Throwing.Threw e ->
             Throwing.resultUntouched (store w) (store final))
  /\
  Throwing.pollTasks env lib Throwing.noFaults w
  = (Throwing.Returned (fst (pollTasks env lib w)), snd (pollTasks env lib w)).
Proof.
  cbv zeta.
  set (t0 := clock env (ticks w)).
  set (w0 := snd (Date_now env w)).
  assert (Hw0 : trace w0 ++ [StorageSet (Spec.initWrite t0)]
                = trace w ++ [DateNow t0; StorageSet (Spec.initWrite t0)]).
  { subst w0 t0. cbn [Date_now snd trace]. now rewrite <- app_assoc. }
  destruct (throwing_storage_local_set_run env faults (Spec.initWrite t0) w0)
    as (Ht1 & _ & _ & Hc1 & Hthrow1).
  rewrite Hw0 in Hthrow1.
  assert (Hstore1 : Throwing.resultUntouched
                      (store w)
                      (store (snd (Throwing.storage_local_set
                                     env faults (Spec.initWrite t0) w0)))).
  { unfold Throwing.resultUntouched.
    destruct Hc1 as [[_ ->] | [_ ->]]; subst w0; cbn; auto. }
  split; [|split; [|split; [|split; [|split]]]]; [..|apply throwing_without_faults].
  all: unfold Throwing.pollTasks; fold t0; fold w0;
    change {| p_tasks := None; p_taskFetchFailureReason := None;
              p_tasksLastInitiatedFetchTimestamp := Some (Some t0);
              p_tasksLastCompletedFetchTimestamp := None |}
      with (Spec.initWrite t0);
    destruct (Throwing.storage_local_set env faults (Spec.initWrite t0) w0)
      as [[e1|write] w1] eqn:E1; cbn [fst snd] in *;
    [ pose proof (proj1 (Hthrow1 e1) eq_refl) as Hs1
    | assert (Hs1 : Throwing.storageSetThrows
                      faults (trace w ++ [DateNow t0; StorageSet (Spec.initWrite t0)])
                    = None)
        by (destruct (Throwing.storageSetThrows faults _) as [e0|] eqn:E0;
            [pose proof (proj2 (Hthrow1 e0) eq_refl) as H0; discriminate H0
            | reflexivity]);
      destruct (throwing_doTaskPoll_run env faults w1) as (Hs2 & _ & _ & Hthrow2);
      rewrite Ht1, Hw0 in Hthrow2;
      destruct (Throwing.doTaskPoll env faults tt w1) as [[e2|poll] w2] eqn:E2;
      cbn [fst snd] in *;
      [ pose proof (proj1 (Hthrow2 e2) eq_refl) as Hl2
      | assert (Hl2 : Throwing.taskListThrows
                        faults ((trace w ++ [DateNow t0; StorageSet (Spec.initWrite t0)])
                                  ++ [TaskList]) = None)
          by (destruct (Throwing.taskListThrows faults _) as [e0|] eqn:E0;
              [pose proof (proj2 (Hthrow2 e0) eq_refl) as H0; discriminate H0
              | reflexivity]);
        pose proof (throwing_pollChain_run env lib faults write poll w2) as Hchain;
        assert (Hres : forall r w3,
                   catch (Throwing.pollChain env lib faults write poll)
                         (fun _ => ret tt) w2 = (r, w3) -> r = Resolved tt)
          by (intros r w3; unfold catch;
              destruct (Throwing.pollChain env lib faults write poll w2)
                as [[[]|e0] w4]; cbn [ret]; intros H; now injection H as <- _);
        destruct (catch (Throwing.pollChain env lib faults write poll)
                        (fun _ => ret tt) w2) as [r w3] eqn:E3;
        cbn [fst snd] in *;
        pose proof (Hres r w3 eq_refl) as -> ] ].
  (* 1 *)
  - discriminate.
  - discriminate.
  - discriminate.
  (* 2 *)
  - intros e. split; [intros H; injection H as <-; now left|].
    intros [H | [H _]]; congruence.
  - intros e. split; [intros H; injection H as <-; now right|].
    intros [H | [_ H]]; congruence.
  - intros e. split; [discriminate|]. intros [H | [_ H]]; congruence.
  (* 3 *)
  - congruence.
  - congruence.
  - reflexivity.
  (* 4 *)
  - intros ? ? ? ? ? ? H. discriminate H.
  - intros write' w1' poll' w2' e w' H. injection H as <- <-.
    intros H. rewrite E2 in H. discriminate H.
  - intros write' w1' poll' w2' e w' H. injection H as <- <-.
    intros H. rewrite E2 in H. injection H as <- <-. intros Hrej.
    unfold catch in E3. rewrite Hrej in E3. cbn [ret] in E3. injection E3 as <-.
    split; [reflexivity|].
    rewrite (Hchain e w' Hrej), Hs2. exact Hstore1.
  (* 5 *)
  - intros _ _. exact Hstore1.
  - intros _ _. rewrite Hs2. exact Hstore1.
  - intros e H. discriminate H.
Qed.

(** A list call that rejects, a message lookup that throws and a result
    write that throws: the promise resolves each time and the cache
    has no completion time. *)
Lemma poll_never_rejects_witness :
  let broken := Scenario.scriptedEnv Scenario.always [Rejected "timeout"] [] in
  let refused := Scenario.scriptedEnv Scenario.always [Resolved (Response (Failure 400))] [] in
  let lookupThrows :=
    {| Throwing.storageSetThrows := fun _ => None;
       Throwing.taskListThrows := fun _ => None;
       Throwing.logoutThrows := fun _ => None;
       Throwing.errorMessageFromCodeThrows := fun _ _ => Some (ErrorObject "no message");
       Throwing.errorMessageFromConnectionFailureThrows := fun _ => None |} in
  fst (Throwing.pollTasks broken Scenario.demoLib Throwing.noFaults Scenario.world0)
  = Throwing.Returned (Resolved tt)
  /\ fst (Throwing.pollTasks refused Scenario.demoLib lookupThrows Scenario.world0)
     = Throwing.Returned (Resolved tt)
  /\ tasksLastCompletedFetchTimestamp
       (store (snd (Throwing.pollTasks refused Scenario.demoLib lookupThrows
                                       Scenario.world0))) = None.
Proof.
  intros broken refused lookupThrows.
  split; [|split].
  - exact (proj1 (proj2 (proj2 (poll_never_rejects
                                  broken Scenario.demoLib Throwing.noFaults
                                  Scenario.world0))) eq_refl eq_refl).
  - exact (proj1 (proj2 (proj2 (poll_never_rejects
                                  refused Scenario.demoLib lookupThrows
                                  Scenario.world0))) eq_refl eq_refl).
  - destruct (proj1 (proj2 (proj2 (proj2 (poll_never_rejects
                                            refused Scenario.demoLib lookupThrows
                                            Scenario.world0))))
                    _ _ _ _ _ _ eq_refl eq_refl eq_refl) as (_ & _ & _ & H).
    exact H.
Defined.

(** C6. With a clock that never runs backwards, any completion
    timestamp a poll invocation writes is at least the initiation
    timestamp the same invocation writes; and when the poll completes,
    the cache holds the invocation's two timestamps in that order. *)
Theorem completion_not_before_initiation
        (env : Env) (lib : Lib) (w : World)
        (Hclock : Spec.monotone (clock env)) :
  (forall p q ti tc,
      In (StorageSet p) (issued w (snd (pollTasks env lib w))) ->
      p_tasksLastInitiatedFetchTimestamp p = Some (Some ti) ->
      In (StorageSet q) (issued w (snd (pollTasks env lib w))) ->
      p_tasksLastCompletedFetchTimestamp q = Some (Some tc) ->
      ti <= tc)
  /\
  (forall w',
      pollAttempt env lib (clock env (ticks w)) (snd (Date_now env w)) = (Resolved tt, w') ->
      exists ti tc,
        tasksLastInitiatedFetchTimestamp (store w') = Some ti /\
        tasksLastCompletedFetchTimestamp (store w') = Some tc /\
        ti = clock env (ticks w) /\ ti <= tc).
Proof.
  assert (Hle : clock env (ticks w) <= clock env (S (ticks w))) by (apply Hclock; lia).
  split.
  - intros p q ti tc Hp Hti Hq Htc.
    destruct (pollTasks_summary env lib w) as (_ & _ & calls & tail & Ht & Hcalls & Htail).
    rewrite (issued_app _ _ _ Ht) in Hp, Hq.
    assert (Hshape : forall x, In (StorageSet x)
              ([DateNow (clock env (ticks w));
                StorageSet (Spec.initWrite (clock env (ticks w)))] ++ calls ++ tail) ->
              x = Spec.initWrite (clock env (ticks w)) \/
              exists response, x = Spec.resultWrite lib response (clock env (S (ticks w)))).
    { intros x Hx. simpl in Hx. destruct Hx as [Hx|[Hx|Hx]]; [discriminate | left; congruence |].
      apply in_app_or in Hx as [Hx|Hx].
      - destruct Hcalls as [->| ->]; simpl in Hx; intuition discriminate.
      - destruct Htail as [->|(response & ->)]; simpl in Hx; [contradiction|].
        destruct Hx as [Hx|[Hx|[]]]; [discriminate|]. right. exists response. congruence. }
    assert (Hres : forall response now,
              p_tasksLastInitiatedFetchTimestamp (Spec.resultWrite lib response now) = None
              /\ p_tasksLastCompletedFetchTimestamp (Spec.resultWrite lib response now)
                 = Some (Some now)).
    { intros [failure|[data|code]] now; simpl; auto.
      destruct (String.eqb (cf_type failure) "missing-config"); auto. }
    destruct (Hshape p Hp) as [->|(rp & ->)].
    2:{ rewrite (proj1 (Hres rp _)) in Hti. discriminate. }
    destruct (Hshape q Hq) as [->|(rq & ->)].
    1:{ simpl in Htc. discriminate. }
    rewrite (proj2 (Hres rq _)) in Htc. simpl in Hti.
    injection Hti as <-. injection Htc as <-. exact Hle.
  - intros w' Hres.
    set (t0 := clock env (ticks w)) in *.
    set (w0 := snd (Date_now env w)) in *.
    destruct (storage_local_set env (Spec.initWrite t0) w0) as [r1 w1] eqn:E1.
    destruct (doTaskPoll env tt w1) as [r2 w2] eqn:E2.
    destruct r1 as [[]|e1]; [destruct r2 as [response|e2]|].
    + destruct (pollAttempt_resolved env lib t0 w0 w1 response w2 E1 E2) as (c & Ec & Hc).
      rewrite Ec in Hres.
      destruct (setCachedTasksResponse_run env c w2) as (_ & _ & _ & Hs).
      rewrite Hres in Hs. simpl in Hs.
      destruct (storageCommits env (trace w')).
      2:{ destruct Hs as [(e & He) _]. discriminate. }
      destruct Hs as [_ Hs]. rewrite Hc in Hs.
      destruct (doTaskPoll_frame env w1) as (Hs2 & Hk2 & _).
      rewrite E2 in Hs2, Hk2. simpl in Hs2, Hk2.
      apply storage_local_set_resolved in E1 as [Hs1 Hk1].
      exists t0, (clock env (S (ticks w))).
      rewrite Hs, Hs2, Hs1, Hk2, Hk1. subst w0. simpl.
      repeat split; try exact Hle.
      * destruct response as [failure|[data|code]]; simpl; try reflexivity.
        now destruct (String.eqb (cf_type failure) "missing-config").
      * destruct response as [failure|[data|code]]; simpl; try reflexivity.
        now destruct (String.eqb (cf_type failure) "missing-config").
    + destruct (pollAttempt_rejected_early env lib t0 w0) as (e' & He').
      { rewrite E1. simpl. rewrite E2. simpl. discriminate. }
      rewrite He' in Hres. discriminate.
    + destruct (pollAttempt_rejected_early env lib t0 w0) as (e' & He').
      { rewrite E1. simpl. discriminate. }
      rewrite He' in Hres. discriminate.
Qed.

Lemma completion_not_before_initiation_witness :
  let env := Scenario.scriptedEnv Scenario.always [] [] in
  Spec.monotone (clock env) /\
  exists ti tc,
    tasksLastInitiatedFetchTimestamp
      (store (snd (pollTasks env Scenario.demoLib Scenario.world0))) = Some ti /\
    tasksLastCompletedFetchTimestamp
      (store (snd (pollTasks env Scenario.demoLib Scenario.world0))) = Some tc /\
    ti = 1000 /\ ti <= tc.
Proof.
  intros env.
  assert (Hmono : Spec.monotone (clock env)).
  { intros i j Hij. change (1000 + Z.of_nat i <= 1000 + Z.of_nat j). lia. }
  split; [exact Hmono|].
  exact (proj2 (completion_not_before_initiation env Scenario.demoLib Scenario.world0 Hmono)
               _ eq_refl).
Defined.

(** ** Which events a computation can issue *)

Section Emits.

Import Spec.
Context {P : Event -> Prop}.

Lemma emitsOnly_ret {A} (a : A) : emitsOnly P (ret a).
Proof. intros w. exists []. simpl. now rewrite app_nil_r. Qed.

Lemma emitsOnly_reject {A} e : emitsOnly P (@reject A e).
Proof. intros w. exists []. simpl. now rewrite app_nil_r. Qed.

Lemma emitsOnly_bind {A B} (m : Async A) (k : A -> Async B) :
  emitsOnly P m -> (forall a, emitsOnly P (k a)) -> emitsOnly P (bind m k).
Proof.
  intros Hm Hk w. unfold bind.
  destruct (Hm w) as (l1 & E1 & F1).
  destruct (m w) as [[a|e] w1]; simpl in *.
  - destruct (Hk a w1) as (l2 & E2 & F2).
    exists (l1 ++ l2). rewrite E2, E1, app_assoc. split; [reflexivity|].
    apply Forall_app; auto.
  - eauto.
Qed.

Lemma emitsOnly_catch {A} (m : Async A) (h : Error -> Async A) :
  emitsOnly P m -> (forall e, emitsOnly P (h e)) -> emitsOnly P (catch m h).
Proof.
  intros Hm Hh w. unfold catch.
  destruct (Hm w) as (l1 & E1 & F1).
  destruct (m w) as [[a|e] w1]; simpl in *.
  - eauto.
  - destruct (Hh e w1) as (l2 & E2 & F2).
    exists (l1 ++ l2). rewrite E2, E1, app_assoc. split; [reflexivity|].
    apply Forall_app; auto.
Qed.

Lemma emitsOnly_request {A} e (reply : list Event -> Settled A) :
  P e -> emitsOnly P (request e reply).
Proof. intros He w. exists [e]. simpl. auto. Qed.

Lemma emitsOnly_notify title message id :
  (forall i, P (Notify title message id i)) ->
  emitsOnly P (notify title message id).
Proof.
  intros H w. unfold notify.
  destruct id as [i|]; simpl; eexists; split; try reflexivity; auto.
Qed.

Lemma emitsOnly_wrap {Args T} (fn : Args -> Async (ApiResult T)) args :
  emitsOnly P (fn args) -> P AuthLogout ->
  emitsOnly P (wrapInNoPermissionsRetry fn args).
Proof.
  intros Hfn Hl. unfold wrapInNoPermissionsRetry.
  apply emitsOnly_bind; [assumption|]. intros result.
  destruct (isNoPermissionsFailure result); [|apply emitsOnly_ret].
  apply emitsOnly_bind; [|now intros _].
  intros w. exists [AuthLogout]. simpl. auto.
Qed.

Lemma emitsOnly_partition {T} (promises : list (Async T)) :
  (forall p, In p promises -> emitsOnly P p) ->
  emitsOnly P (partitionPromises promises).
Proof.
  induction promises as [|first queue IH]; intros H; simpl.
  - apply emitsOnly_ret.
  - intros w.
    destruct (H first (or_introl eq_refl) w) as (l1 & E1 & F1).
    destruct (first w) as [settled w1]. simpl in E1.
    assert (Hrest : emitsOnly P
              (bind (partitionPromises queue)
                    (fun x => let (resolved, rejected) := x in
                              match settled with
                              | Resolved result => ret (result :: resolved, rejected)
                              | Rejected e => ret (resolved, errorOrNew e :: rejected)
                              end))).
    { apply emitsOnly_bind; [apply IH; intros p Hp; apply H; now right|].
      intros [resolved rejected]. destruct settled; apply emitsOnly_ret. }
    destruct (Hrest w1) as (l2 & E2 & F2).
    exists (l1 ++ l2). rewrite E2, E1, app_assoc. split; [reflexivity|].
    apply Forall_app; auto.
Qed.

End Emits.

Lemma emitsOnly_weaken {A} (P Q : Event -> Prop) (m : Async A) :
  (forall e, P e -> Q e) -> Spec.emitsOnly P m -> Spec.emitsOnly Q m.
Proof.
  intros HPQ Hm w. destruct (Hm w) as (l & E & F).
  exists l. split; [assumption|]. eapply Forall_impl; eauto.
Qed.

Lemma pollTasks_emits env lib : Spec.emitsOnly Spec.fromPoll (pollTasks env lib).
Proof.
  intros w.
  destruct (pollTasks_summary env lib w) as (_ & _ & calls & tail & E & Hc & Ht).
  eexists. split; [exact E|].
  repeat constructor.
  apply Forall_app. split.
  - destruct Hc as [->| ->]; repeat constructor.
  - destruct Ht as [->|(response & ->)]; repeat constructor.
Qed.

Lemma onHeadResponse_emits env lib url headers :
  Spec.emitsOnly Spec.isProbe (onHeadResponse env lib url headers).
Proof.
  unfold onHeadResponse.
  destruct (header headers "content-type") as [ct|]; [|apply emitsOnly_reject].
  destruct (findMetadataFileType _ url) as [ft|]; [|apply emitsOnly_ret].
  destruct (_ && _); [|apply emitsOnly_ret].
  apply emitsOnly_bind; [now apply emitsOnly_request|].
  intros response. apply emitsOnly_ret.
Qed.

Lemma maybeMapUrlToFile_emits env lib url :
  Spec.emitsOnly Spec.isProbe (maybeMapUrlToFile env lib url).
Proof.
  unfold maybeMapUrlToFile.
  destruct (startsWithAnyProtocol url AUTO_DOWNLOAD_TORRENT_FILE_PROTOCOLS);
    [|apply emitsOnly_ret].
  apply emitsOnly_bind; [now apply emitsOnly_request|].
  intros headers. apply onHeadResponse_emits.
Qed.

(** Mapping the URLs issues probes only, and so does every promise it
    returns. *)
Lemma mapCalls_emits env lib (urls : list string) (w : World) :
  (exists heads,
      trace (snd (mapCalls (maybeMapUrlToFile_call env lib) urls w)) = trace w ++ heads /\
      Forall Spec.isProbe heads) /\
  Forall (Spec.emitsOnly Spec.isProbe)
         (fst (mapCalls (maybeMapUrlToFile_call env lib) urls w)).
Proof.
  revert w. induction urls as [|url urls IH]; intros w; cbn [mapCalls].
  - split; [exists []; split; [now rewrite app_nil_r | constructor] | constructor].
  - assert (Hcall : (exists heads,
                        trace (snd (maybeMapUrlToFile_call env lib url w))
                        = trace w ++ heads /\ Forall Spec.isProbe heads) /\
                    Spec.emitsOnly Spec.isProbe
                                   (fst (maybeMapUrlToFile_call env lib url w))).
    { unfold maybeMapUrlToFile_call, Axios_head_call.
      destruct (startsWithAnyProtocol url AUTO_DOWNLOAD_TORRENT_FILE_PROTOCOLS);
        cbn [fst snd log trace].
      - split; [exists [AxiosHead url]; split; [reflexivity | repeat constructor]|].
        apply emitsOnly_bind; [|intros headers; apply onHeadResponse_emits].
        intros w0. exists []. cbn. split; [now rewrite app_nil_r | constructor].
      - split; [exists []; split; [now rewrite app_nil_r | constructor]|].
        apply emitsOnly_ret. }
    destruct Hcall as ((h1 & Ht1 & Hp1) & Hpromise).
    destruct (maybeMapUrlToFile_call env lib url w) as [promise w1]. cbn [fst snd] in *.
    destruct (IH w1) as ((h2 & Ht2 & Hp2) & Hpromises).
    destruct (mapCalls (maybeMapUrlToFile_call env lib) urls w1) as [promises w2].
    cbn [fst snd] in *. split.
    + exists (h1 ++ h2). rewrite Ht2, Ht1, app_assoc. split; [reflexivity|].
      apply Forall_app; auto.
    + constructor; assumption.
Qed.

Lemma settleAt_emits {A} (P : Event -> Prop) (i : nat) (promises : list (Async A))
      (w : World) :
  Forall (Spec.emitsOnly P) promises ->
  Forall (Spec.emitsOnly P) (fst (settleAt i promises w)) /\
  exists l, trace (snd (settleAt i promises w)) = trace w ++ l /\ Forall P l.
Proof.
  intros H. revert i w.
  induction H as [|promise rest Hp Hrest IH]; intros i w; cbn [settleAt].
  - cbn [fst snd]. split; [constructor|]. exists []. now rewrite app_nil_r.
  - destruct i as [|j].
    + destruct (Hp w) as (l & E & F).
      destruct (promise w) as [s w']. cbn [fst snd] in *.
      split; [|eauto]. constructor; [|exact Hrest].
      intros w0. exists []. cbn. now rewrite app_nil_r.
    + destruct (IH j w) as (Hall & l & E & F).
      destruct (settleAt j rest w) as [rest' w']. cbn [fst snd] in *.
      split; [now constructor | eauto].
Qed.

Lemma handleArrivals_emits {A} (P : Event -> Prop) (order : list nat)
      (promises : list (Async A)) (w : World) :
  Forall (Spec.emitsOnly P) promises ->
  Forall (Spec.emitsOnly P) (fst (handleArrivals order promises w)) /\
  exists l, trace (snd (handleArrivals order promises w)) = trace w ++ l /\ Forall P l.
Proof.
  revert promises w.
  induction order as [|i later IH]; intros promises w H; cbn [handleArrivals].
  - cbn [fst snd]. split; [exact H|]. exists []. now rewrite app_nil_r.
  - destruct (settleAt_emits P i promises w H) as (H1 & l1 & E1 & F1).
    destruct (settleAt i promises w) as [promises' w']. cbn [fst snd] in *.
    destruct (IH promises' w' H1) as (H2 & l2 & E2 & F2).
    split; [exact H2|]. exists (l1 ++ l2). rewrite E2, E1, app_assoc.
    split; [reflexivity | apply Forall_app; auto].
Qed.

Lemma resolution_emits env lib (urls : list string) :
  Spec.emitsOnly Spec.isProbe (resolveUrls env lib urls).
Proof.
  intros w. unfold resolveUrls.
  destruct (mapCalls_emits env lib urls w) as ((heads & Ht & Hp) & Hpromises).
  destruct (mapCalls (maybeMapUrlToFile_call env lib) urls w) as [promises w1].
  cbn [fst snd] in *.
  assert (Hwaiting : Forall (Spec.emitsOnly Spec.isProbe)
                            (map rejectUnknownUrls promises)).
  { apply Forall_forall. intros p Hin.
    apply in_map_iff in Hin as (q & <- & Hq).
    rewrite Forall_forall in Hpromises.
    unfold rejectUnknownUrls.
    apply emitsOnly_bind; [now apply Hpromises|].
    intros [formFile|u]; [apply emitsOnly_ret|].
    destruct (startsWithAnyProtocol u DOWNLOADABLE_PROTOCOLS);
      [apply emitsOnly_ret | apply emitsOnly_reject]. }
  destruct (handleArrivals_emits Spec.isProbe (arrival env (trace w1)) _ w1 Hwaiting)
    as (Harrived & gets & Ht1 & Hp1).
  destruct (handleArrivals (arrival env (trace w1)) (map rejectUnknownUrls promises) w1)
    as [arrived w2].
  cbn [fst snd] in *.
  assert (Hrest : Spec.emitsOnly Spec.isProbe (partitionPromises arrived)).
  { apply emitsOnly_partition. now apply Forall_forall. }
  destruct (Hrest w2) as (rest & Ht2 & Hp2).
  exists (heads ++ gets ++ rest). rewrite Ht2, Ht1, Ht, <- !app_assoc.
  split; [reflexivity|].
  apply Forall_app; split; [exact Hp|]. apply Forall_app; auto.
Qed.

Lemma doCreateTask_emits env options :
  Spec.emitsOnly (Spec.fromCreate options) (doCreateTask env options).
Proof.
  apply emitsOnly_wrap.
  - apply emitsOnly_request. now left.
  - now right.
Qed.

(** ** The submission pipeline *)

Lemma sentDestination_code (path : option string) :
  match path with
  | Some p =>
      if negb (String.eqb p "") && Js.startsWith p "/"
      then Some (Js.sliceFrom 1 p)
      else None
  | None => None
  end = Spec.sentDestination path.
Proof.
  destruct path as [p|]; [|reflexivity]. simpl.
  destruct p as [|c p]; reflexivity.
Qed.

(** The events of a submission attempt, by class: the probes of the
    per-URL resolution, the wrapped create call for the one request
    built from the resolved items, and the poll. *)
Lemma submitAttempt_emits env lib urls destination (Q : Event -> Prop) :
  (forall e, Spec.isProbe e -> Q e) ->
  (forall e, Spec.fromPoll e -> Q e) ->
  (forall file uri,
      Q (TaskCreate {| file := file; uri := uri; destination := destination |})) ->
  Spec.emitsOnly Q (submitAttempt env lib urls destination).
Proof.
  intros Hp Hpoll Hc. unfold submitAttempt.
  apply emitsOnly_bind.
  { eapply emitsOnly_weaken; [exact Hp | apply resolution_emits]. }
  intros [resolved rejected].
  destruct (List.length resolved =? 0)%nat; [apply emitsOnly_ret|].
  destruct (splitResolved resolved) as [file uri].
  apply emitsOnly_bind.
  - eapply emitsOnly_weaken; [|apply doCreateTask_emits].
    intros e [-> | ->]; [apply Hc | apply Hpoll; exact I].
  - intros _. eapply emitsOnly_weaken; [exact Hpoll | apply pollTasks_emits].
Qed.

Lemma addDownloadTasksAndPoll_emits env lib urls path (Q : Event -> Prop) :
  (forall title message given i, Q (Notify title message given i)) ->
  (forall e, Spec.isProbe e -> Q e) ->
  (forall e, Spec.fromPoll e -> Q e) ->
  (forall file uri,
      Q (TaskCreate {| file := file; uri := uri;
                       destination := Spec.sentDestination path |})) ->
  Spec.emitsOnly Q (addDownloadTasksAndPoll env lib urls path).
Proof.
  intros Hn Hp Hpoll Hc. unfold addDownloadTasksAndPoll.
  rewrite sentDestination_code.
  destruct (0 <? List.length urls)%nat.
  - apply emitsOnly_bind.
    { destruct (List.length urls =? 1)%nat; apply emitsOnly_notify; auto. }
    intros id. apply emitsOnly_catch.
    + now apply submitAttempt_emits.
    + intros e. unfold notifyUnexpectedError.
      apply emitsOnly_bind; [apply emitsOnly_notify; auto | intros _; apply emitsOnly_ret].
  - apply emitsOnly_bind; [apply emitsOnly_notify; auto | intros _; apply emitsOnly_ret].
Qed.

(** C9, as stated, fails: a destination path without a leading separator
    is not sent unchanged, it is not sent at all. *)
Lemma destination_unchanged_counterexample :
  let env := Scenario.scriptedEnv Scenario.always [] [] in
  exists options,
    In (TaskCreate options)
       (issued Scenario.world0
               (snd (addDownloadTasksAndPoll env Scenario.demoLib
                       ["magnet:?xt=abc"] (Some "downloads") Scenario.world0)))
    /\ destination options = None
    /\ destination options <> Spec.claimedDestination "downloads".
Proof.
  intros env.
  exists {| file := []; uri := ["magnet:?xt=abc"]; destination := None |}.
  split; [vm_compute; auto|]. split; [reflexivity|]. vm_compute. discriminate.
Qed.

(** C9, amended.  Every create-task request a submission sends carries
    as destination the path without its leading separator when the path
    starts with one, and no destination at all otherwise (also when no
    path was given). *)
Theorem destination_sent
        (env : Env) (lib : Lib) (urls : list string) (path : option string)
        (w : World) (options : DownloadStationTaskCreateRequest)
        (Hsent : In (TaskCreate options)
                    (issued w (snd (addDownloadTasksAndPoll env lib urls path w)))) :
  destination options = Spec.sentDestination path.
Proof.
  set (Q := fun e => match e with
                     | TaskCreate o => destination o = Spec.sentDestination path
                     | _ => True
                     end).
  assert (H : Spec.emitsOnly Q (addDownloadTasksAndPoll env lib urls path)).
  { apply addDownloadTasksAndPoll_emits; subst Q; simpl; auto.
    - intros [] H; simpl in *; auto; contradiction.
    - intros [] H; simpl in *; auto; contradiction. }
  destruct (H w) as (l & E & F).
  rewrite (issued_app _ _ _ E) in Hsent.
  rewrite Forall_forall in F. exact (F _ Hsent).
Qed.

Lemma destination_sent_witness :
  destination {| file := []; uri := ["magnet:?xt=abc"];
                 destination := Some "downloads/films" |}
  = Spec.sentDestination (Some "/downloads/films").
Proof.
  apply (destination_sent (Scenario.scriptedEnv Scenario.always [] []) Scenario.demoLib
                          ["magnet:?xt=abc"] (Some "/downloads/films") Scenario.world0).
  vm_compute. auto.
Defined.

Lemma filter_none {A} (f : A -> bool) (l : list A) :
  Forall (fun x => f x = false) l -> filter f l = [].
Proof.
  induction 1 as [|x l Hx _ IH]; simpl; [reflexivity|]. now rewrite Hx.
Qed.

(** The notifications of a submission with at least one URL: the one it
    opens with, under a fresh identity, and after it at most the report
    of an unexpected error under the same identity.  The outcome of the
    create call is never among them. *)
Lemma submission_feedback env lib urls path w :
  urls <> [] ->
  let id := idCounter w in
  let shown := filter Spec.isNotify
                      (issued w (snd (addDownloadTasksAndPoll env lib urls path w))) in
  shown = [Spec.addingNotice urls id] \/
  shown = [Spec.addingNotice urls id; Spec.unexpectedNotice id].
Proof.
  intros Hne id shown. subst shown.
  set (first := Spec.addingNotice urls id).
  set (final := snd (addDownloadTasksAndPoll env lib urls path w)).
  assert (Hfirst : Spec.isNotify first = true).
  { subst first. unfold Spec.addingNotice. now destruct (_ =? _)%nat. }
  assert (Hf : exists l tail,
             trace final = trace w ++ first :: l ++ tail /\
             Forall (fun e => Spec.isNotify e = false) l /\
             (tail = [] \/ tail = [Spec.unexpectedNotice id])).
  { subst final. unfold addDownloadTasksAndPoll.
    destruct urls as [|u urls]; [contradiction|].
    change (0 <? List.length (u :: urls))%nat with true. cbv iota.
    rewrite sentDestination_code.
    set (w1 := {| trace := trace w ++ [first]; store := store w;
                  ticks := ticks w; idCounter := S (idCounter w) |}).
    assert (E1 : (if (List.length (u :: urls) =? 1)%nat
                  then notify "Adding download..." (nth_error (u :: urls) 0) None
                  else notify ("Adding " ++ Js.showNat (List.length (u :: urls)) ++
                               " downloads...")%string None None) w
                 = (Resolved id, w1)).
    { subst w1 first. unfold Spec.addingNotice.
      destruct (List.length (u :: urls) =? 1)%nat; reflexivity. }
    unfold bind at 1. rewrite E1.
    set (attempt := submitAttempt env lib (u :: urls) (Spec.sentDestination path)).
    assert (Hq : Spec.emitsOnly (fun e => Spec.isNotify e = false) attempt).
    { apply submitAttempt_emits.
      - intros [] H; simpl in *; auto; contradiction.
      - intros [] H; simpl in *; auto; contradiction.
      - reflexivity. }
    destruct (Hq w1) as (l & El & Fl).
    unfold catch. destruct (attempt w1) as [[[]|e] w2]; cbn [snd fst] in El |- *.
    - exists l, []. rewrite El. subst w1. cbn [trace].
      rewrite <- app_assoc, app_nil_r. auto.
    - exists l, [Spec.unexpectedNotice id].
      unfold notifyUnexpectedError, bind, notify, log. cbn [snd fst trace].
      rewrite El. subst w1. cbn [trace]. rewrite <- !app_assoc. auto. }
  destruct Hf as (l & tail & Et & Fl & Htail).
  rewrite (issued_app _ _ _ Et). cbn [filter]. rewrite Hfirst.
  rewrite filter_app, (filter_none _ _ Fl).
  destruct Htail as [->| ->]; [left | right]; reflexivity.
Qed.

(** C4, evaluated where it fails.  One magnet link is submitted and the
    create call succeeds.  The request is sent and answered, yet the
    only notification of the run is the opening one: the identity 0 is
    never updated.  [notifyTaskAddResult], which would have shown the
    success under that identity, is not part of the run. *)
Theorem create_outcome_not_notified :
  let env := Scenario.scriptedEnv Scenario.always [] [Scenario.success tt] in
  let request := {| file := []; uri := ["magnet:?xt=abc"]; destination := None |} in
  let opening := Notify "Adding download..." (Some "magnet:?xt=abc") None 0%nat in
  let w' := snd (addDownloadTasksAndPoll env Scenario.demoLib
                   ["magnet:?xt=abc"] None Scenario.world0) in
  firstn 2 (trace w') = [opening; TaskCreate request]
  /\ taskCreateReply env [opening; TaskCreate request] = Scenario.success tt
  /\ filter Spec.isNotify (trace w') = [opening]
  /\ issued w' (snd (notifyTaskAddResult Scenario.demoLib ["magnet:?xt=abc"] (Some 0%nat)
                       None (Response (Success tt)) w'))
     = [Notify "Download added" (Some "magnet:?xt=abc") (Some 0%nat) 0%nat].
Proof. repeat split. Qed.

(** *** Per-URL resolution *)

Lemma autoFetch_spec url :
  startsWithAnyProtocol url AUTO_DOWNLOAD_TORRENT_FILE_PROTOCOLS
  = Js.startsWith url "http:" || Js.startsWith url "https:".
Proof.
  unfold startsWithAnyProtocol, AUTO_DOWNLOAD_TORRENT_FILE_PROTOCOLS. simpl.
  now rewrite orb_false_r.
Qed.

Lemma prefix_nil (s : string) : String.prefix "" s = true.
Proof. now destruct s. Qed.

Lemma prefix_cons a s1 b s2 :
  String.prefix (String a s1) (String b s2)
  = if Ascii.eqb a b then String.prefix s1 s2 else false.
Proof.
  change (String.prefix (String a s1) (String b s2))
    with (if ascii_dec a b then String.prefix s1 s2 else false).
  destruct (ascii_dec a b) as [->|Hne].
  - now rewrite Ascii.eqb_refl.
  - apply Ascii.eqb_neq in Hne. now rewrite Hne.
Qed.

(** A magnet link is not in the auto-fetch set and is downloadable. *)
Lemma magnet_protocols url :
  Js.startsWith url "magnet:" = true ->
  startsWithAnyProtocol url AUTO_DOWNLOAD_TORRENT_FILE_PROTOCOLS = false /\
  startsWithAnyProtocol url DOWNLOADABLE_PROTOCOLS = true.
Proof.
  unfold startsWithAnyProtocol, Js.startsWith. intros H.
  destruct url as [|c url]; [discriminate|].
  rewrite prefix_cons in H.
  destruct (Ascii.eqb_spec "m" c) as [<-|]; [|discriminate].
  split; [reflexivity|].
  simpl. rewrite H. reflexivity.
Qed.

(** The metadata type found for a probe is one of the table, matched by
    media type or by the suffix of the URL without its query. *)
Lemma findMetadataFileType_matches contentType url fileType :
  findMetadataFileType contentType url = Some fileType ->
  In fileType METADATA_FILE_TYPES /\
  (contentType = mediaType fileType \/
   Js.endsWith (urlWithoutQuery url) (extension fileType) = true).
Proof.
  unfold findMetadataFileType. intros H.
  apply find_some in H as [Hin Hm]. split; [assumption|].
  apply orb_true_iff in Hm as [Hm|Hm]; [left; now apply String.eqb_eq | now right].
Qed.

Lemma numberLt_finite q n :
  numberLt (Finite q) n = true <-> (q < inject_Z n)%Q.
Proof.
  simpl. rewrite negb_true_iff. split.
  - intros H. apply Qnot_le_lt. intros Hle.
    apply Qle_bool_iff in Hle. congruence.
  - intros H. destruct (Qle_bool (inject_Z n) q) eqn:E; [|reflexivity].
    apply Qle_bool_iff in E. exfalso. exact (Qlt_not_le _ _ H E).
Qed.

(** The wrapped create call starts by sending the request. *)
Lemma doCreateTask_first env options w :
  exists rest,
    trace (snd (doCreateTask env options w)) = trace w ++ TaskCreate options :: rest /\
    Forall (Spec.fromCreate options) rest.
Proof.
  unfold doCreateTask, wrapInNoPermissionsRetry, bind, Task_Create, request, Auth_Logout.
  destruct (taskCreateReply env _) as [result|e]; simpl.
  - destruct (isNoPermissionsFailure result); simpl.
    + exists [AuthLogout; TaskCreate options]. rewrite <- !app_assoc. simpl.
      split; [reflexivity|].
      constructor; [now right | constructor; [now left | constructor]].
    + exists []. auto.
  - exists []. auto.
Qed.

(** Scenarios D and E, evaluated: both URLs are probed as they are
    mapped; the small torrent is then fetched and goes into [file]
    under the name [y.torrent]; the one of 10 MiB is not fetched and
    goes into [uri]. *)
Example scenarios_D_and_E :
  let env := Scenario.scriptedEnv Scenario.always [] [] in
  firstn 4 (trace (snd (addDownloadTasksAndPoll env Scenario.demoLib
                          ["https://x/y.torrent"; "https://x/big.torrent"] None
                          Scenario.world0)))
  = [ Notify "Adding 2 downloads..." None None 0%nat;
      AxiosHead "https://x/y.torrent"; AxiosHead "https://x/big.torrent";
      AxiosGet "https://x/y.torrent" ]
  /\
  nth_error (trace (snd (addDownloadTasksAndPoll env Scenario.demoLib
                           ["https://x/y.torrent"; "https://x/big.torrent"] None
                           Scenario.world0))) 4
  = Some (TaskCreate
            {| file := [ {| content := {| blob_data := "d8:announce";
                                          blob_type := "application/x-bittorrent" |};
                            filename := "y.torrent" |} ];
               uri := ["https://x/big.torrent"];
               destination := None |}).
Proof. split; reflexivity. Qed.

(** Answers out of order: the answer to the second probe arrives
    first, so the second URL is fetched first; the files go into the
    create request in the order of the URLs all the same. *)
Example answers_out_of_order :
  let env := Scenario.lateFirstEnv in
  let urls := ["https://x/a.torrent"; "https://x/b.torrent"] in
  let fileNamed name :=
    {| content := {| blob_data := "d8:announce";
                     blob_type := "application/x-bittorrent" |};
       filename := name |} in
  firstn 6 (trace (snd (addDownloadTasksAndPoll env Scenario.demoLib urls None
                          Scenario.world0)))
  = [ Notify "Adding 2 downloads..." None None 0%nat;
      AxiosHead "https://x/a.torrent"; AxiosHead "https://x/b.torrent";
      AxiosGet "https://x/b.torrent"; AxiosGet "https://x/a.torrent";
      TaskCreate {| file := [fileNamed "a.torrent"; fileNamed "b.torrent"];
                    uri := []; destination := None |} ].
Proof. reflexivity. Qed.

Lemma scheme_startsWith (url p : string) :
  Spec.scheme url = Some p -> Js.startsWith url (p ++ ":") = true.
Proof.
  unfold Js.startsWith. revert p.
  induction url as [|c url IH]; intros p; cbn [Spec.scheme]; [discriminate|].
  destruct (Ascii.eqb_spec c ":") as [->|Hc].
  - intros H. injection H as <-. cbn [append].
    rewrite prefix_cons, Ascii.eqb_refl. apply prefix_nil.
  - destruct (Spec.scheme url) as [q|]; [|discriminate].
    intros H. injection H as <-. cbn [append].
    rewrite prefix_cons, Ascii.eqb_refl. now apply IH.
Qed.

Lemma startsWith_scheme (url p : string) :
  Js.allChars (fun c => negb (Ascii.eqb c ":")) p = true ->
  Js.startsWith url (p ++ ":") = true -> Spec.scheme url = Some p.
Proof.
  unfold Js.startsWith. revert url.
  induction p as [|a p IH]; intros url Hp H; cbn [append] in H.
  - destruct url as [|c url]; [discriminate|].
    rewrite prefix_cons in H. cbn [Spec.scheme].
    destruct (Ascii.eqb_spec ":" c) as [<-|]; [|discriminate].
    now rewrite Ascii.eqb_refl.
  - destruct url as [|c url]; [discriminate|].
    rewrite prefix_cons in H. cbn [Spec.scheme].
    destruct (Ascii.eqb_spec a c) as [<-|]; [|discriminate].
    cbn [Js.allChars] in Hp. apply andb_true_iff in Hp as [Ha Hp].
    apply negb_true_iff in Ha. rewrite Ha, (IH url Hp H). reflexivity.
Qed.

(** The auto-fetch test of the program is a test on the scheme. *)
Lemma autoFetch_scheme url :
  startsWithAnyProtocol url AUTO_DOWNLOAD_TORRENT_FILE_PROTOCOLS = true <->
  (Spec.scheme url = Some "http" \/ Spec.scheme url = Some "https").
Proof.
  rewrite autoFetch_spec, orb_true_iff. split.
  - intros [H|H]; [left|right]; now apply startsWith_scheme.
  - intros [H|H]; [left|right]; now apply scheme_startsWith in H.
Qed.

(** A type of the table matches exactly when the program finds one, and
    the one it finds matches. *)
Lemma findMetadataFileType_complete contentType url :
  (exists fileType, Spec.probeMatches contentType url fileType) ->
  exists found,
    findMetadataFileType contentType url = Some found /\
    Spec.probeMatches contentType url found.
Proof.
  intros (fileType & Hin & Hmatch).
  destruct (findMetadataFileType contentType url) as [found|] eqn:E.
  - exists found. split; [reflexivity|].
    now apply findMetadataFileType_matches.
  - exfalso. unfold findMetadataFileType in E.
    pose proof (find_none _ _ E fileType Hin) as Hnone. cbv beta in Hnone.
    apply orb_false_iff in Hnone as [Hm He].
    destruct Hmatch as [->|Hs]; [|congruence].
    now rewrite String.eqb_refl in Hm.
Qed.

(** A single promise that settles without issuing anything: when its
    answer is taken to arrive makes no difference. *)
Lemma handleArrivals_one {A} (q : Async A) (s : Settled A) :
  (forall w, q w = (s, w)) ->
  forall order w,
  exists q', handleArrivals order [q] w = ([q'], w) /\ forall w0, q' w0 = (s, w0).
Proof.
  intros Hq order. revert q Hq.
  induction order as [|i later IH]; intros q Hq w; cbn [handleArrivals].
  - eauto.
  - destruct i as [|j]; cbn [settleAt].
    + rewrite Hq. apply IH. reflexivity.
    + apply IH. exact Hq.
Qed.

(** The resolution stage for one URL that is not probed. *)
Lemma resolveUrls_bare env lib url w :
  startsWithAnyProtocol url AUTO_DOWNLOAD_TORRENT_FILE_PROTOCOLS = false ->
  startsWithAnyProtocol url DOWNLOADABLE_PROTOCOLS = true ->
  resolveUrls env lib [url] w = (Resolved ([inr url], []), w).
Proof.
  intros Hauto Hdown. unfold resolveUrls. cbn [mapCalls].
  unfold maybeMapUrlToFile_call. rewrite Hauto. cbn [map].
  destruct (handleArrivals_one (rejectUnknownUrls (ret (inr url))) (Resolved (inr url))
                               ltac:(intros w0; unfold rejectUnknownUrls, bind, ret;
                                     now rewrite Hdown)
                               (arrival env (trace w)) w)
    as (q' & -> & Hq').
  cbn [partitionPromises]. rewrite Hq'. reflexivity.
Qed.

(** X26. Per-URL resolution, for a probe that answers with a content
    type.
    (1) A URL whose scheme is neither http nor https resolves to the
        bare URL and issues no event at all: no probe.
    (2) For an http(s) URL whose probe answers with a content type that,
        or whose URL suffix, matches a known metadata type, and whose
        content length converts to a number below the cutoff of 5 MiB,
        the body is fetched and the item is the file content, typed by
        the matching metadata type and named by [guessFileName].
    (3) If instead the content length is missing, converts to
        not-a-number, or is at or above the cutoff, the item is the bare
        URL and the only event is the probe: the body is not fetched.
    (4) A submitted magnet link goes, unprobed, into the [uri] list of
        the create request, which is the first thing sent after the
        opening notification. *)
Theorem per_url_resolution (env : Env) (lib : Lib) (url : string) (w : World) :
  (Spec.scheme url <> Some "http" ->
   Spec.scheme url <> Some "https" ->
   maybeMapUrlToFile env lib url w = (Resolved (inr url), w))
  /\
  (forall headers rawContentType q response,
      Spec.scheme url = Some "http" \/ Spec.scheme url = Some "https" ->
      headReply env (trace w ++ [AxiosHead url]) = Resolved headers ->
      header headers "content-type" = Some rawContentType ->
      (exists fileType, Spec.probeMatches (Js.toLowerCase rawContentType) url fileType) ->
      unaryPlus lib (header headers "content-length") = Finite q ->
      (q < inject_Z ARBITRARY_FILE_FETCH_SIZE_CUTOFF)%Q ->
      getReply env (trace w ++ [AxiosHead url; AxiosGet url]) = Resolved response ->
      exists fileType,
        Spec.probeMatches (Js.toLowerCase rawContentType) url fileType /\
        fst (maybeMapUrlToFile env lib url w)
        = Resolved (inl {| content := {| blob_data := get_data response;
                                         blob_type := mediaType fileType |};
                           filename := guessFileName (urlWithoutQuery url)
                                                     (get_headers response) fileType |})
        /\ issued w (snd (maybeMapUrlToFile env lib url w))
           = [AxiosHead url; AxiosGet url])
  /\
  (forall headers rawContentType,
      Spec.scheme url = Some "http" \/ Spec.scheme url = Some "https" ->
      headReply env (trace w ++ [AxiosHead url]) = Resolved headers ->
      header headers "content-type" = Some rawContentType ->
      (exists fileType, Spec.probeMatches (Js.toLowerCase rawContentType) url fileType) ->
      (header headers "content-length" = None
       \/ unaryPlus lib (header headers "content-length") = NaN
       \/ unaryPlus lib (header headers "content-length") = Infinity false
       \/ exists q, unaryPlus lib (header headers "content-length") = Finite q
                    /\ (inject_Z ARBITRARY_FILE_FETCH_SIZE_CUTOFF <= q)%Q) ->
      fst (maybeMapUrlToFile env lib url w) = Resolved (inr url)
      /\ issued w (snd (maybeMapUrlToFile env lib url w)) = [AxiosHead url])
  /\
  (forall path,
      Spec.scheme url = Some "magnet" ->
      exists rest,
        issued w (snd (addDownloadTasksAndPoll env lib [url] path w))
        = Notify "Adding download..." (Some url) None (idCounter w)
          :: TaskCreate {| file := []; uri := [url];
                           destination := Spec.sentDestination path |}
          :: rest
        /\ Forall (fun e => ~ Spec.isProbe e) rest).
Proof.
  split; [|split; [|split]].
  - intros H1 H2. unfold maybeMapUrlToFile.
    destruct (startsWithAnyProtocol url AUTO_DOWNLOAD_TORRENT_FILE_PROTOCOLS) eqn:E;
      [|reflexivity].
    apply autoFetch_scheme in E. tauto.
  - intros headers raw q response Hauto Hhead Hct Hmatch Hlen Hlt Hget.
    apply autoFetch_scheme in Hauto.
    apply findMetadataFileType_complete in Hmatch as (fileType & Hfind & Hm).
    exists fileType. split; [exact Hm|].
    unfold maybeMapUrlToFile, onHeadResponse, bind, Axios_head, Axios_get, request.
    rewrite Hauto. simpl. rewrite Hhead, Hct, Hfind, Hlen.
    apply numberLt_finite in Hlt. rewrite Hlt. simpl.
    rewrite <- app_assoc. simpl. rewrite Hget. simpl.
    split; [reflexivity|]. apply issued_app. simpl. now rewrite <- app_assoc.
  - intros headers raw Hauto Hhead Hct Hmatch Hlen.
    apply autoFetch_scheme in Hauto.
    apply findMetadataFileType_complete in Hmatch as (fileType & Hfind & _).
    unfold maybeMapUrlToFile, onHeadResponse, bind, Axios_head, request.
    rewrite Hauto. simpl. rewrite Hhead, Hct, Hfind.
    assert (Hno : negb (isNaN (unaryPlus lib (header headers "content-length"))) &&
                  numberLt (unaryPlus lib (header headers "content-length"))
                           ARBITRARY_FILE_FETCH_SIZE_CUTOFF = false).
    { destruct Hlen as [E|[E|[E|(q & E & Hq)]]].
      - rewrite E. reflexivity.
      - rewrite E. reflexivity.
      - rewrite E. reflexivity.
      - rewrite E. apply andb_false_iff. right.
        destruct (numberLt (Finite q) ARBITRARY_FILE_FETCH_SIZE_CUTOFF) eqn:El;
          [|reflexivity].
        apply numberLt_finite in El. exfalso. exact (Qle_not_lt _ _ Hq El). }
    rewrite Hno. simpl. split; [reflexivity|]. now apply issued_app.
  - intros path Hm. apply scheme_startsWith in Hm.
    destruct (magnet_protocols url Hm) as [Hauto Hdown].
    unfold addDownloadTasksAndPoll. simpl. rewrite sentDestination_code.
    unfold bind at 1. unfold notify at 1.
    set (opts := {| file := []; uri := [url];
                    destination := Spec.sentDestination path |}).
    set (w1 := {| trace := trace w ++ [Notify "Adding download..." (Some url) None (idCounter w)];
                  store := store w; ticks := ticks w; idCounter := S (idCounter w) |}).
    assert (Esub : submitAttempt env lib [url] (Spec.sentDestination path) w1
                   = bind (doCreateTask env opts) (fun _ => pollTasks env lib) w1).
    { assert (Hitem : resolveUrls env lib [url] w1 = (Resolved ([inr url], []), w1)).
      { exact (resolveUrls_bare env lib url w1 Hauto Hdown). }
      unfold submitAttempt. unfold bind at 1. rewrite Hitem. reflexivity. }
    unfold catch. rewrite Esub. unfold bind.
    destruct (doCreateTask_first env opts w1) as (r1 & E1 & F1).
    assert (Hc : forall e, Spec.fromCreate opts e -> ~ Spec.isProbe e).
    { intros e [-> | ->]; simpl; tauto. }
    assert (Hp : forall e, Spec.fromPoll e -> ~ Spec.isProbe e).
    { intros [] He; simpl in *; tauto. }
    destruct (doCreateTask env opts w1) as [[result|e] w2]; cbn [snd fst] in *.
    + destruct (pollTasks_emits env lib w2) as (l2 & E2 & F2).
      pose proof (proj1 (pollTasks_summary env lib w2)) as Hres.
      destruct (pollTasks env lib w2) as [[[]|e] w3]; cbn [snd fst] in *;
        [|discriminate].
      exists (r1 ++ l2). split.
      * apply issued_app. rewrite E2, E1. subst w1. cbn [trace].
        now rewrite <- !app_assoc.
      * apply Forall_app; split;
          [exact (Forall_impl _ Hc F1) | exact (Forall_impl _ Hp F2)].
    + exists (r1 ++ [Notify "Failed to add download"
                       (Some "Unexpected error; please check your settings and try again")
                       (Some (idCounter w)) (idCounter w)]).
      unfold notifyUnexpectedError, bind, notify, log. cbn [snd fst trace].
      split.
      * apply issued_app. rewrite E1. subst w1. cbn [trace].
        now rewrite <- !app_assoc.
      * apply Forall_app; split; [exact (Forall_impl _ Hc F1)|].
        repeat constructor. simpl. tauto.
Qed.

Lemma per_url_resolution_witness :
  let env := Scenario.scriptedEnv Scenario.always [] [] in
  (exists fileType,
      fst (maybeMapUrlToFile env Scenario.demoLib "https://x/y.torrent" Scenario.world0)
      = Resolved (inl {| content := {| blob_data := "d8:announce";
                                       blob_type := mediaType fileType |};
                         filename := guessFileName "https://x/y.torrent"
                                       [("content-type", "application/x-bittorrent")]
                                       fileType |}))
  /\
  fst (maybeMapUrlToFile env Scenario.demoLib "https://x/big.torrent" Scenario.world0)
  = Resolved (inr "https://x/big.torrent").
Proof.
  intros env.
  assert (Hm : forall url,
             exists fileType,
               Spec.probeMatches (Js.toLowerCase "application/x-bittorrent") url fileType).
  { intros url. exists Scenario.torrent. split; [now left | now left]. }
  split.
  - destruct (proj1 (proj2 (per_url_resolution env Scenario.demoLib
                              "https://x/y.torrent" Scenario.world0))
                    _ _ (inject_Z 1024) _
                    (or_intror eq_refl) eq_refl eq_refl (Hm _) eq_refl eq_refl eq_refl)
      as (fileType & _ & H & _).
    exists fileType. exact H.
  - refine (proj1 (proj1 (proj2 (proj2 (per_url_resolution env Scenario.demoLib
                                          "https://x/big.torrent" Scenario.world0)))
                         _ _ (or_intror eq_refl) eq_refl eq_refl (Hm _) _)).
    right. right. right. exists (inject_Z 10485760). split; [reflexivity|].
    unfold Qle. simpl. lia.
Defined.

(** C7, evaluated where it fails.  The URL ends in [.torrent], so the
    probe matches a known metadata type by URL suffix, and the answer
    carries a content length of 1024, a number under the cutoff: the
    claim has the body fetched and a file item yielded.  But the answer
    carries no content type, and the callback lower-cases the content
    type before it looks at the suffix: it throws, the item is
    rejected, the body is never requested and the submission sends
    nothing.  With a content type in the answer, whatever it says, the
    same URL and length give the file item. *)
Theorem suffix_match_without_content_type :
  let env := Scenario.untypedEnv in
  let url := "https://x/y.torrent" in
  let headers := [("content-length", "1024")] in
  let opening := Notify "Adding download..." (Some url) None 0%nat in
  let typed := ("content-type", "text/plain") :: headers in
  headReply env [AxiosHead url] = Resolved headers
  /\ In Scenario.torrent METADATA_FILE_TYPES
  /\ Js.endsWith (urlWithoutQuery url) (extension Scenario.torrent) = true
  /\ unaryPlus Scenario.demoLib (header headers "content-length") = Finite (inject_Z 1024)
  /\ (inject_Z 1024 < inject_Z ARBITRARY_FILE_FETCH_SIZE_CUTOFF)%Q
  /\ header headers "content-type" = None
  /\ maybeMapUrlToFile env Scenario.demoLib url Scenario.world0
     = (Rejected "TypeError: Cannot read property 'toLowerCase' of undefined",
        log (AxiosHead url) Scenario.world0)
  /\ trace (snd (addDownloadTasksAndPoll env Scenario.demoLib [url] None Scenario.world0))
     = [opening; AxiosHead url]
  /\ fst (onHeadResponse env Scenario.demoLib url typed Scenario.world0)
     = Resolved (inl {| content := {| blob_data := "d8:announce";
                                      blob_type := "application/x-bittorrent" |};
                        filename := "y.torrent" |}).
Proof.
  repeat split; try reflexivity.
  - now left.
Qed.

(** *** File names *)

Lemma string_length_append (s1 s2 : string) :
  String.length (s1 ++ s2) = (String.length s1 + String.length s2)%nat.
Proof. induction s1 as [|c s1 IH]; simpl; [reflexivity | now rewrite IH]. Qed.

Lemma sliceFrom_append (s x : string) :
  Js.sliceFrom (String.length s) (s ++ x) = x.
Proof. induction s as [|c s IH]; simpl; [now destruct x | exact IH]. Qed.

(** A name to which the extension was appended ends with it. *)
Lemma endsWith_append (s x : string) : Js.endsWith (s ++ x) x = true.
Proof.
  unfold Js.endsWith. rewrite string_length_append.
  apply andb_true_iff. split.
  - apply Nat.leb_le. lia.
  - replace (String.length s + String.length x - String.length x)%nat
      with (String.length s) by lia.
    rewrite sliceFrom_append. apply String.eqb_refl.
Qed.

Lemma withExtension_ends (name ext : string) :
  Js.endsWith (Spec.withExtension name ext) ext = true.
Proof.
  unfold Spec.withExtension.
  destruct (Js.endsWith name ext) eqn:E; [exact E | apply endsWith_append].
Qed.

Lemma startsWith_append (p s : string) : Js.startsWith (p ++ s) p = true.
Proof.
  unfold Js.startsWith. induction p as [|c p IH]; simpl append.
  - apply prefix_nil.
  - now rewrite prefix_cons, Ascii.eqb_refl.
Qed.

(** A run of code units satisfying [p], ended by the end of the string
    or by a code unit that does not satisfy [p], is what [span] takes. *)
Lemma span_run (p : ascii -> bool) (run rest : string) :
  Js.allChars p run = true ->
  match rest with EmptyString => True | String c _ => p c = false end ->
  Js.span p (run ++ rest) = (run, rest).
Proof.
  intros Hrun Hrest. induction run as [|c run IH]; simpl in *.
  - destruct rest as [|d rest]; [reflexivity|]. simpl. now rewrite Hrest.
  - apply andb_true_iff in Hrun as [Hc Hrun]. rewrite Hc, (IH Hrun). reflexivity.
Qed.

(** The quoted form: [filename=], a quote, a non-empty value without
    quotes, a quote.  Group 2 is the value. *)
Lemma matchHere_quoted (c : ascii) (value rest : string) :
  Js.allChars notQuote (String c value) = true ->
  matchHere ("filename=" ++ String Js.dquote (String c value ++ String Js.dquote rest))
  = Some {| group2 := Some (String c value); group3 := None |}.
Proof.
  intros Hv. unfold matchHere.
  rewrite startsWith_append, (sliceFrom_append "filename=").
  unfold matchQuoted. rewrite Ascii.eqb_refl.
  rewrite (span_run notQuote (String c value) (String Js.dquote rest) Hv) by reflexivity.
  reflexivity.
Qed.

(** The unquoted form: [filename=], a code unit that is not a quote, one
    or more code units that are not spaces, then a space or the end.
    Group 3 is the whole run. *)
Lemma matchHere_unquoted (c d : ascii) (value rest : string) :
  notQuote c = true ->
  Js.allChars notSpace (String d value) = true ->
  match rest with EmptyString => True | String e _ => e = Js.space end ->
  matchHere ("filename=" ++ String c (String d value ++ rest))
  = Some {| group2 := None; group3 := Some (String c (String d value)) |}.
Proof.
  intros Hc Hv Hrest. unfold matchHere.
  rewrite startsWith_append, (sliceFrom_append "filename=").
  unfold matchQuoted, matchUnquoted.
  assert (Hq : Ascii.eqb c Js.dquote = false).
  { unfold notQuote in Hc. now apply negb_true_iff in Hc. }
  rewrite Hq, Hc.
  rewrite (span_run notSpace (String d value) rest Hv).
  - reflexivity.
  - destruct rest as [|e rest]; [exact I|]. subst e. reflexivity.
Qed.

(** Whatever the pattern matches, exactly one of the two groups took
    part and it is not empty. *)
Lemma matchHere_groups (s : string) (m : RegexMatch) :
  matchHere s = Some m ->
  exists c value,
    m = {| group2 := Some (String c value); group3 := None |} \/
    m = {| group2 := None; group3 := Some (String c value) |}.
Proof.
  unfold matchHere. destruct (Js.startsWith s "filename="); [|discriminate].
  destruct (matchQuoted (Js.sliceFrom 9 s)) as [g|] eqn:Eq.
  - intros H. injection H as <-.
    unfold matchQuoted in Eq.
    destruct (Js.sliceFrom 9 s) as [|q v]; [discriminate|].
    destruct (Ascii.eqb q Js.dquote); [|discriminate].
    destruct (Js.span notQuote v) as [[|c run] [|e rest]]; try discriminate.
    injection Eq as <-. eauto.
  - destruct (matchUnquoted (Js.sliceFrom 9 s)) as [g|] eqn:Eu; [|discriminate].
    intros H. injection H as <-.
    unfold matchUnquoted in Eu.
    destruct (Js.sliceFrom 9 s) as [|c v]; [discriminate|].
    destruct (notQuote c); [|discriminate].
    destruct (Js.span notSpace v) as [[|d run] rest]; [discriminate|].
    injection Eu as <-. eauto.
Qed.

(** [exec] returns the match at some position of the string. *)
Lemma exec_position (s : string) (m : RegexMatch) :
  FILENAME_PROPERTY_REGEX_exec s = Some m ->
  exists before after, s = (before ++ after)%string /\ matchHere after = Some m.
Proof.
  induction s as [|c s IH]; cbn [FILENAME_PROPERTY_REGEX_exec].
  - discriminate.
  - destruct (matchHere (String c s)) eqn:E.
    + intros H. injection H as <-. exists "", (String c s). auto.
    + intros H. destruct (IH H) as (before & after & -> & Hm).
      exists (String c before), after. auto.
Qed.

Lemma captured_nonempty (contentDisposition name : string) :
  Spec.captured contentDisposition = Some name -> name <> "".
Proof.
  unfold Spec.captured.
  destruct (FILENAME_PROPERTY_REGEX_exec contentDisposition) as [m|] eqn:E;
    [|discriminate].
  apply exec_position in E as (before & after & _ & Hm).
  apply matchHere_groups in Hm as (c & value & [-> | ->]); simpl;
    intros H; injection H as <-; discriminate.
Qed.

(** Two usual headers, evaluated: a quoted name with a space in it, and
    an unquoted one. *)
Example content_disposition_forms :
  guessFileName "https://x/dl"
    [("content-disposition",
      ("attachment; filename=" ++ String Js.dquote ("my file.torrent" ++ String Js.dquote ""))%string)]
    Scenario.torrent = "my file.torrent"
  /\
  guessFileName "https://x/dl" [("content-disposition", "attachment; filename=ubuntu.iso")]
    Scenario.torrent = "ubuntu.iso.torrent".
Proof. split; reflexivity. Qed.

(** C8, as stated, fails: with a filename parameter that is present but
    empty and a URL that ends in [y.torrent], the derived name is
    neither the parameter nor the last path segment but the fallback.
    The same happens with the one-character parameter [filename=a]. *)
Lemma filename_cascade_counterexample :
  let headers :=
    [("content-disposition",
      ("attachment; filename=" ++ String Js.dquote (String Js.dquote ""))%string)] in
  let url := "https://x/y.torrent" in
  guessFileName url headers Scenario.torrent = "download.torrent"
  /\ Spec.claimedFileName (Some "") url ".torrent" = ".torrent"
  /\ Spec.claimedFileName None url ".torrent" = "y.torrent"
  /\ guessFileName url headers Scenario.torrent
     <> Spec.claimedFileName (Some "") url ".torrent"
  /\ guessFileName url headers Scenario.torrent
     <> Spec.claimedFileName None url ".torrent"
  /\ guessFileName url [("content-disposition", "attachment; filename=a")]
                   Scenario.torrent = "download.torrent".
Proof. repeat split; try reflexivity; vm_compute; discriminate. Qed.

(** C8, amended.  The name [guessFileName] derives is, with the
    extension appended unless the name already ends with it:
    (1) when the Content-Disposition header contains [filename=], what
        the filename pattern captures in it, a non-empty value;
    (2) when the header contains [filename=] and the pattern captures
        nothing, the literal [download], whatever the URL is;
    (3) when there is no such header, or it does not contain
        [filename=], the last path segment of the URL, or [download] if
        that segment is empty.
    (4) The result always ends with the extension.
    (5) The pattern captures the quoted form (the text between the
        quotes) and the unquoted form (a run of two or more code units,
        up to the next space). *)
Theorem guessFileName_cascade
        (urlWithoutQuery : string) (headers : Headers) (fileType : MetadataFileType) :
  (forall contentDisposition name,
      header headers "content-disposition" = Some contentDisposition ->
      Js.indexOf contentDisposition "filename=" <> -1 ->
      Spec.captured contentDisposition = Some name ->
      name <> "" /\
      guessFileName urlWithoutQuery headers fileType
      = Spec.withExtension name (extension fileType))
  /\
  (forall contentDisposition,
      header headers "content-disposition" = Some contentDisposition ->
      Js.indexOf contentDisposition "filename=" <> -1 ->
      Spec.captured contentDisposition = None ->
      guessFileName urlWithoutQuery headers fileType
      = Spec.withExtension "download" (extension fileType))
  /\
  ((header headers "content-disposition" = None \/
    exists contentDisposition,
      header headers "content-disposition" = Some contentDisposition /\
      Js.indexOf contentDisposition "filename=" = -1) ->
   guessFileName urlWithoutQuery headers fileType
   = Spec.withExtension
       (if String.eqb (Spec.lastSegment urlWithoutQuery) ""
        then "download" else Spec.lastSegment urlWithoutQuery)
       (extension fileType))
  /\
  Js.endsWith (guessFileName urlWithoutQuery headers fileType) (extension fileType) = true
  /\
  (forall c value rest,
      Js.allChars notQuote (String c value) = true ->
      matchHere ("filename=" ++ String Js.dquote (String c value ++ String Js.dquote rest))
      = Some {| group2 := Some (String c value); group3 := None |})
  /\
  (forall c d value rest,
      notQuote c = true ->
      Js.allChars notSpace (String d value) = true ->
      match rest with EmptyString => True | String e _ => e = Js.space end ->
      matchHere ("filename=" ++ String c (String d value ++ rest))
      = Some {| group2 := None; group3 := Some (String c (String d value)) |}).
Proof.
  assert (Hshape : guessFileName urlWithoutQuery headers fileType
                   = Spec.withExtension
                       (match maybeFilename urlWithoutQuery headers with
                        | None | Some EmptyString => "download"
                        | Some n => n
                        end) (extension fileType)) by reflexivity.
  assert (Hcode : forall cd,
             header headers "content-disposition" = Some cd ->
             Js.indexOf cd "filename=" <> -1 ->
             maybeFilename urlWithoutQuery headers = Spec.captured cd).
  { intros cd Hcd Hidx. unfold maybeFilename, Spec.captured. rewrite Hcd.
    apply Z.eqb_neq in Hidx. rewrite Hidx.
    assert (Hne : String.eqb cd "" = false).
    { destruct cd; [|reflexivity]. vm_compute in Hidx. discriminate. }
    rewrite Hne. simpl.
    destruct (FILENAME_PROPERTY_REGEX_exec cd) as [m|] eqn:E; [|reflexivity].
    apply exec_position in E as (before & after & _ & Hm).
    now apply matchHere_groups in Hm as (c & value & [-> | ->]). }
  split; [|split; [|split; [|split; [|split]]]].
  - intros cd name Hcd Hidx Hcap.
    pose proof (captured_nonempty _ _ Hcap) as Hne.
    split; [exact Hne|].
    rewrite Hshape, (Hcode _ Hcd Hidx), Hcap.
    destruct name; [contradiction | reflexivity].
  - intros cd Hcd Hidx Hcap. now rewrite Hshape, (Hcode _ Hcd Hidx), Hcap.
  - intros Hno. rewrite Hshape.
    assert (Hseg : maybeFilename urlWithoutQuery headers
                   = Some (Spec.lastSegment urlWithoutQuery)).
    { unfold maybeFilename. destruct Hno as [-> | (cd & -> & Hidx)]; [reflexivity|].
      rewrite Hidx. simpl. now rewrite andb_false_r. }
    rewrite Hseg. now destruct (Spec.lastSegment urlWithoutQuery).
  - rewrite Hshape. apply withExtension_ends.
  - intros c value rest. apply matchHere_quoted.
  - intros c d value rest. apply matchHere_unquoted.
Qed.

Lemma guessFileName_cascade_witness :
  guessFileName "https://x/dl"
    [("content-disposition", "attachment; filename=ubuntu.torrent x")]
    Scenario.torrent
  = "ubuntu.torrent".
Proof.
  refine (proj2 (proj1 (guessFileName_cascade
                          "https://x/dl"
                          [("content-disposition", "attachment; filename=ubuntu.torrent x")]
                          Scenario.torrent)
                       "attachment; filename=ubuntu.torrent x" "ubuntu.torrent"
                       eq_refl _ eq_refl)).
  vm_compute. discriminate.
Defined.

(* ================================================================== *)
(** * Further properties of the code                                   *)
(* ================================================================== *)

(** ** Aggregation of the per-URL outcomes *)

(** X1. [partitionPromises] has all-settled semantics: it always
    resolves, whatever its promises do, and every promise ends up in
    exactly one of the two lists. *)
Theorem partitionPromises_settles {T} (promises : list (Async T)) (w : World) :
  exists resolved rejected,
    fst (partitionPromises promises w) = Resolved (resolved, rejected) /\
    (List.length resolved + List.length rejected = List.length promises)%nat.
Proof.
  revert w. induction promises as [|first queue IH]; intros w; cbn [partitionPromises].
  - exists [], []. split; reflexivity.
  - destruct (first w) as [settled w1]. unfold bind.
    destruct (IH w1) as (resolved & rejected & E & Hlen).
    destruct (partitionPromises queue w1) as [[[res rej]|e] w2]; cbn [fst] in E;
      [|discriminate].
    injection E as -> ->.
    destruct settled as [result|e]; cbn [ret fst].
    + exists (result :: resolved), rejected. split; [reflexivity|]. simpl. lia.
    + exists resolved, (errorOrNew e :: rejected). split; [reflexivity|]. simpl. lia.
Qed.

(** X2. [partitionPromises] keeps the queue order and reports errors
    only: for promises that settle as [settlements] say, the resolved
    list holds the values in the order of the queue, and the rejected
    list holds, in the order of the queue, each reason that is an
    [Error] as it is and a new [Error] without a message in the place
    of every other reason.  So every entry of the rejected list is an
    [Error], and the text of a reason that is not one, such as the
    message about an unknown protocol, is lost. *)
Theorem partitionPromises_order {T} (settlements : list (Settled T)) (w : World) :
  partitionPromises (map Laws.settledAs settlements) w
  = (Resolved (Laws.valuesOf settlements,
               map Laws.reported (Laws.reasonsOf settlements)), w)
  /\ Forall Laws.isErrorInstance (map Laws.reported (Laws.reasonsOf settlements))
  /\ (Forall Laws.isErrorInstance (Laws.reasonsOf settlements) ->
      map Laws.reported (Laws.reasonsOf settlements) = Laws.reasonsOf settlements)
  /\ (forall value, Laws.reported (PlainValue value) = ErrorObject "").
Proof.
  split; [|split; [|split]].
  - induction settlements as [|s rest IH]; cbn [map partitionPromises]; [reflexivity|].
    unfold Laws.settledAs at 1. unfold bind. rewrite IH.
    destruct s as [value|[message|value]]; reflexivity.
  - apply Forall_forall. intros e Hin. apply in_map_iff in Hin as ([m|v] & <- & _).
    + now exists m.
    + now exists "".
  - intros Hall. induction (Laws.reasonsOf settlements) as [|e rest IH]; [reflexivity|].
    inversion Hall as [|? ? (m & ->) Hrest]; subst. cbn [map Laws.reported].
    now rewrite IH.
  - reflexivity.
Qed.

Lemma splitResolved_from (items : list TaskItem) (files : list FormFile)
      (uris : list string) :
  fold_left
    (fun accumulator task =>
       match task with
       | inl formFile => (fst accumulator ++ [formFile], snd accumulator)
       | inr url => (fst accumulator, snd accumulator ++ [url])
       end)
    items (files, uris)
  = (files ++ Laws.filesOf items, uris ++ Laws.urisOf items).
Proof.
  revert files uris. induction items as [|item items IH]; intros files uris; simpl.
  - now rewrite !app_nil_r.
  - destruct item as [formFile|url]; rewrite IH; simpl;
      now rewrite <- ?app_assoc.
Qed.

(** X3. The [reduce] that builds the create request splits the
    resolved items without loss or reordering: [file] holds exactly the
    fetched files, [uri] exactly the bare URLs, each in their original
    order, and together they are as many as the items. *)
Theorem splitResolved_partitions (resolved : list TaskItem) :
  splitResolved resolved = (Laws.filesOf resolved, Laws.urisOf resolved)
  /\ (List.length (fst (splitResolved resolved)) +
      List.length (snd (splitResolved resolved)) = List.length resolved)%nat.
Proof.
  assert (E : splitResolved resolved = (Laws.filesOf resolved, Laws.urisOf resolved)).
  { unfold splitResolved. now rewrite splitResolved_from. }
  split; [exact E|]. rewrite E. cbn [fst snd]. clear E.
  unfold Laws.filesOf, Laws.urisOf.
  induction resolved as [|[formFile|url] rest IH]; simpl; lia.
Qed.

(** ** Per-URL resolution: probes and failure modes *)

Lemma guessFileName_ends url headers fileType :
  Js.endsWith (guessFileName url headers fileType) (extension fileType) = true.
Proof.
  change (guessFileName url headers fileType)
    with (Spec.withExtension
            (match maybeFilename url headers with
             | None | Some EmptyString => "download"
             | Some n => n
             end) (extension fileType)).
  apply withExtension_ends.
Qed.

(** Everything one resolution can do, case by case. *)
Lemma maybeMapUrlToFile_cases env lib url w :
  let r := fst (maybeMapUrlToFile env lib url w) in
  let w' := snd (maybeMapUrlToFile env lib url w) in
  Laws.sameState w w' /\
  ((startsWithAnyProtocol url AUTO_DOWNLOAD_TORRENT_FILE_PROTOCOLS = false /\
    trace w' = trace w /\ r = Resolved (inr url))
   \/
   (startsWithAnyProtocol url AUTO_DOWNLOAD_TORRENT_FILE_PROTOCOLS = true /\
    trace w' = trace w ++ [AxiosHead url] /\
    (r = Resolved (inr url) \/ exists e, r = Rejected e))
   \/
   (startsWithAnyProtocol url AUTO_DOWNLOAD_TORRENT_FILE_PROTOCOLS = true /\
    trace w' = trace w ++ [AxiosHead url; AxiosGet url] /\
    ((exists e, r = Rejected e) \/
     exists formFile, r = Resolved (inl formFile) /\
                      Laws.resolvedFrom [url] (inl formFile)))).
Proof.
  cbv zeta. unfold maybeMapUrlToFile, onHeadResponse, Laws.sameState.
  destruct (startsWithAnyProtocol url AUTO_DOWNLOAD_TORRENT_FILE_PROTOCOLS) eqn:Hauto.
  2:{ cbn [ret fst snd]. split; [auto|]. left. auto. }
  unfold bind, Axios_head, Axios_get, request.
  cbn [log trace store ticks idCounter].
  destruct (headReply env (trace w ++ [AxiosHead url])) as [headers|e];
    cbn [fst snd trace store ticks idCounter].
  2:{ split; [auto|]. right. left. eauto 6. }
  destruct (header headers "content-type") as [raw|];
    cbn [reject fst snd trace store ticks idCounter].
  2:{ split; [auto|]. right. left. eauto 6. }
  destruct (findMetadataFileType (Js.toLowerCase raw) url) as [fileType|] eqn:Hfind;
    cbn [ret fst snd trace store ticks idCounter].
  2:{ split; [auto|]. right. left. eauto 6. }
  destruct (negb (isNaN (unaryPlus lib (header headers "content-length"))) &&
            numberLt (unaryPlus lib (header headers "content-length"))
                     ARBITRARY_FILE_FETCH_SIZE_CUTOFF);
    cbn [ret fst snd trace store ticks idCounter].
  2:{ split; [auto|]. right. left. eauto 6. }
  cbv beta. cbn [log trace store ticks idCounter].
  rewrite <- app_assoc. cbn [app].
  destruct (getReply env (trace w ++ [AxiosHead url; AxiosGet url])) as [response|e];
    cbn [ret log fst snd trace store ticks idCounter];
    rewrite <- ?app_assoc; cbn [app].
  2:{ split; [auto|]. right. right. eauto 6. }
  split; [auto|]. right. right. split; [reflexivity|]. split; [reflexivity|].
  right. eexists. split; [reflexivity|].
  exists url, fileType. cbn [Laws.resolvedFrom content filename blob_type].
  apply findMetadataFileType_matches in Hfind as [Hin _].
  repeat split; auto. now left. apply guessFileName_ends.
Qed.

(** X4. Probe discipline of one resolution: it issues nothing, one HEAD,
    or one HEAD followed by one GET of the same URL, never a GET that
    no HEAD preceded; a file item is only ever produced after both; a
    URL outside http and https is never probed; and the cache, the
    clock and the notification identities are left alone. *)
Theorem resolution_probe_discipline (env : Env) (lib : Lib) (url : string) (w : World) :
  let r := fst (maybeMapUrlToFile env lib url w) in
  let w' := snd (maybeMapUrlToFile env lib url w) in
  (issued w w' = [] \/ issued w w' = [AxiosHead url]
   \/ issued w w' = [AxiosHead url; AxiosGet url])
  /\ (forall formFile, r = Resolved (inl formFile) ->
                       issued w w' = [AxiosHead url; AxiosGet url])
  /\ (startsWithAnyProtocol url AUTO_DOWNLOAD_TORRENT_FILE_PROTOCOLS = false ->
      issued w w' = [] /\ r = Resolved (inr url))
  /\ store w' = store w /\ ticks w' = ticks w /\ idCounter w' = idCounter w.
Proof.
  intros r w'.
  destruct (maybeMapUrlToFile_cases env lib url w) as ((Hs & Hk & Hi) & Hcases).
  fold r w' in Hs, Hk, Hi, Hcases.
  assert (Hframe : store w' = store w /\ ticks w' = ticks w /\ idCounter w' = idCounter w)
    by auto.
  destruct Hcases as [(Ha & Ht & Hr)|[(Ha & Ht & Hr)|(Ha & Ht & Hr)]].
  - assert (Hissued : issued w w' = []).
    { apply issued_app. now rewrite app_nil_r. }
    split; [auto|]. split; [|split; [auto | exact Hframe]].
    intros formFile E. rewrite Hr in E. discriminate.
  - pose proof (issued_app _ _ _ Ht) as Hissued.
    split; [auto|]. split; [|split; [intros Hf; congruence | exact Hframe]].
    intros formFile E. rewrite E in Hr. destruct Hr as [Hr|(e & Hr)]; discriminate.
  - pose proof (issued_app _ _ _ Ht) as Hissued.
    split; [auto|]. split; [auto|]. split; [intros Hf; congruence | exact Hframe].
Qed.

(** X5. Failure modes of the probe of an http(s) URL.
    (1) A HEAD that rejects rejects the item with the same reason.
    (2) A HEAD answer without a content-type header rejects the item,
        whatever the URL suffix and the content length are: the
        suffix is only consulted once a content type was read.
    (3) When no metadata type matches, the item is the bare URL.
    (4) A GET that rejects rejects the item with the same reason.
    The body is requested in case (4) only. *)
Theorem resolution_failure_modes (env : Env) (lib : Lib) (url : string) (w : World)
        (Hauto : startsWithAnyProtocol url AUTO_DOWNLOAD_TORRENT_FILE_PROTOCOLS = true) :
  let r := fst (maybeMapUrlToFile env lib url w) in
  let w' := snd (maybeMapUrlToFile env lib url w) in
  (forall e,
      headReply env (trace w ++ [AxiosHead url]) = Rejected e ->
      r = Rejected e /\ issued w w' = [AxiosHead url])
  /\
  (forall headers,
      headReply env (trace w ++ [AxiosHead url]) = Resolved headers ->
      header headers "content-type" = None ->
      (exists e, r = Rejected e) /\ issued w w' = [AxiosHead url])
  /\
  (forall headers rawContentType,
      headReply env (trace w ++ [AxiosHead url]) = Resolved headers ->
      header headers "content-type" = Some rawContentType ->
      findMetadataFileType (Js.toLowerCase rawContentType) url = None ->
      r = Resolved (inr url) /\ issued w w' = [AxiosHead url])
  /\
  (forall headers rawContentType fileType e,
      headReply env (trace w ++ [AxiosHead url]) = Resolved headers ->
      header headers "content-type" = Some rawContentType ->
      findMetadataFileType (Js.toLowerCase rawContentType) url = Some fileType ->
      isNaN (unaryPlus lib (header headers "content-length")) = false ->
      numberLt (unaryPlus lib (header headers "content-length"))
               ARBITRARY_FILE_FETCH_SIZE_CUTOFF = true ->
      getReply env (trace w ++ [AxiosHead url; AxiosGet url]) = Rejected e ->
      r = Rejected e /\ issued w w' = [AxiosHead url; AxiosGet url]).
Proof.
  intros r w'. subst r w'.
  unfold maybeMapUrlToFile, onHeadResponse, bind, Axios_head, Axios_get, request.
  rewrite Hauto. cbn [log trace store ticks idCounter].
  split; [|split; [|split]].
  - intros e ->. cbn. split; [reflexivity | now apply issued_app].
  - intros headers -> ->. cbn. split; [eauto | now apply issued_app].
  - intros headers raw -> -> ->. cbn. split; [reflexivity | now apply issued_app].
  - intros headers raw fileType e -> -> -> -> ->. cbn.
    rewrite <- app_assoc. cbn [app]. intros ->. cbn.
    split; [reflexivity|]. apply issued_app. cbn. now rewrite <- app_assoc.
Qed.

Lemma resolution_failure_modes_witness :
  let env := Scenario.scriptedEnv Scenario.always [] [] in
  fst (maybeMapUrlToFile env Scenario.demoLib "https://nowhere/a.torrent" Scenario.world0)
  = Rejected "Network Error"
  /\ issued Scenario.world0
            (snd (maybeMapUrlToFile env Scenario.demoLib "https://nowhere/a.torrent"
                    Scenario.world0))
     = [AxiosHead "https://nowhere/a.torrent"].
Proof.
  intros env.
  exact (proj1 (resolution_failure_modes env Scenario.demoLib
                  "https://nowhere/a.torrent" Scenario.world0 eq_refl)
               "Network Error" eq_refl).
Defined.

(** ** The submission as a whole *)

Lemma fetched_resolvedFrom env history probes urls item :
  Laws.fetched env history probes urls item -> Laws.resolvedFrom urls item.
Proof.
  destruct item as [formFile|u]; cbn [Laws.fetched Laws.resolvedFrom]; [|tauto].
  intros (url & fileType & response & before & after & Hin & Ha & _ & _ & Hft & ->).
  exists url, fileType. repeat split; auto.
  unfold Laws.fileOf. cbn [filename]. apply guessFileName_ends.
Qed.

(** What the callback of the HEAD probe does with the answer. *)
Lemma onHeadResponse_run env lib url headers w :
  let r := fst (onHeadResponse env lib url headers w) in
  let w' := snd (onHeadResponse env lib url headers w) in
  Laws.sameState w w' /\
  ((trace w' = trace w /\ (r = Resolved (inr url) \/ exists e, r = Rejected e))
   \/
   (trace w' = trace w ++ [AxiosGet url] /\
    ((exists e, r = Rejected e) \/
     exists fileType response,
       In fileType METADATA_FILE_TYPES /\
       getReply env (trace w ++ [AxiosGet url]) = Resolved response /\
       r = Resolved (inl (Laws.fileOf url fileType response))))).
Proof.
  cbv zeta. unfold onHeadResponse, Laws.sameState.
  destruct (header headers "content-type") as [raw|];
    [|cbn [reject fst snd]; split; [auto | left; split; [reflexivity | eauto]]].
  destruct (findMetadataFileType (Js.toLowerCase raw) url) as [fileType|] eqn:Hfind;
    [|cbn [ret fst snd]; split; [auto | left; split; [reflexivity | now left]]].
  destruct (_ && _);
    [|cbn [ret fst snd]; split; [auto | left; split; [reflexivity | now left]]].
  unfold bind, Axios_get, request. cbn [log trace fst snd].
  destruct (getReply env (trace w ++ [AxiosGet url])) as [response|e] eqn:Hget;
    cbn [ret fst snd trace store ticks idCounter log].
  - split; [auto|]. right. split; [reflexivity|]. right.
    exists fileType, response. split; [|split; [reflexivity | reflexivity]].
    unfold findMetadataFileType in Hfind. now apply find_some in Hfind as [Hin _].
  - split; [auto|]. right. split; [reflexivity | left; eauto].
Qed.

(** One call of [urls.map]: the HEAD request goes out, for an http(s)
    URL, and the promise is left pending. *)
Lemma maybeMapUrlToFile_call_run env lib url w :
  let promise := fst (maybeMapUrlToFile_call env lib url w) in
  let w' := snd (maybeMapUrlToFile_call env lib url w) in
  Laws.pendingFor env lib url promise /\
  Laws.sameState w w' /\
  trace w' = trace w ++ Laws.headsOf [url].
Proof.
  cbv zeta.
  unfold maybeMapUrlToFile_call, Axios_head_call, Laws.pendingFor, Laws.sameState,
    Laws.headsOf.
  cbn [filter].
  destruct (startsWithAnyProtocol url AUTO_DOWNLOAD_TORRENT_FILE_PROTOCOLS);
    cbn [fst snd log trace store ticks idCounter map].
  - split; [right; split; [reflexivity | eexists; reflexivity]|]. auto.
  - split; [left; auto|]. rewrite app_nil_r. auto.
Qed.

(** The call awaited at once is the resolution on its own. *)
Lemma maybeMapUrlToFile_awaited env lib url w :
  await (maybeMapUrlToFile_call env lib url) w = maybeMapUrlToFile env lib url w.
Proof.
  unfold await, maybeMapUrlToFile_call, maybeMapUrlToFile, Axios_head_call, Axios_head,
    request, bind, settled.
  now destruct (startsWithAnyProtocol url AUTO_DOWNLOAD_TORRENT_FILE_PROTOCOLS).
Qed.

Lemma headsOf_cons url urls :
  Laws.headsOf (url :: urls) = Laws.headsOf [url] ++ Laws.headsOf urls.
Proof.
  unfold Laws.headsOf. cbn [filter].
  now destruct (startsWithAnyProtocol url AUTO_DOWNLOAD_TORRENT_FILE_PROTOCOLS).
Qed.

(** Mapping the URLs: every HEAD request is issued, in list order, and
    every promise is left pending. *)
Lemma mapCalls_run env lib urls w :
  let promises := fst (mapCalls (maybeMapUrlToFile_call env lib) urls w) in
  let w' := snd (mapCalls (maybeMapUrlToFile_call env lib) urls w) in
  Forall2 (Laws.pendingFor env lib) urls promises /\
  Laws.sameState w w' /\
  trace w' = trace w ++ Laws.headsOf urls.
Proof.
  cbv zeta. revert w. induction urls as [|url urls IH]; intros w; cbn [mapCalls].
  - cbn [fst snd]. split; [constructor|]. split; [unfold Laws.sameState; auto|].
    unfold Laws.headsOf. cbn. now rewrite app_nil_r.
  - destruct (maybeMapUrlToFile_call_run env lib url w) as (Hp & Hs1 & Ht1).
    destruct (maybeMapUrlToFile_call env lib url w) as [promise w1]. cbn [fst snd] in *.
    destruct (IH w1) as (Hps & Hs2 & Ht2).
    destruct (mapCalls (maybeMapUrlToFile_call env lib) urls w1) as [promises w2].
    cbn [fst snd] in *.
    split; [now constructor|]. split.
    + destruct Hs1 as (A1 & A2 & A3), Hs2 as (B1 & B2 & B3).
      unfold Laws.sameState. rewrite B1, B2, B3. auto.
    + now rewrite Ht2, Ht1, (headsOf_cons url urls), app_assoc.
Qed.

(** A pending promise, awaited through [rejectUnknownUrls]. *)
Lemma pending_run env lib url promise w :
  Laws.pendingFor env lib url promise ->
  let r := fst (rejectUnknownUrls promise w) in
  let w' := snd (rejectUnknownUrls promise w) in
  Laws.sameState w w' /\
  ((trace w' = trace w /\
    ((r = Resolved (inr url) /\
      startsWithAnyProtocol url DOWNLOADABLE_PROTOCOLS = true)
     \/ exists e, r = Rejected e))
   \/
   (startsWithAnyProtocol url AUTO_DOWNLOAD_TORRENT_FILE_PROTOCOLS = true /\
    trace w' = trace w ++ [AxiosGet url] /\
    ((exists e, r = Rejected e) \/
     exists fileType response,
       In fileType METADATA_FILE_TYPES /\
       getReply env (trace w ++ [AxiosGet url]) = Resolved response /\
       r = Resolved (inl (Laws.fileOf url fileType response)))))
  /\
  (Laws.unknownProtocol url -> trace w' = trace w /\ exists e, r = Rejected e).
Proof.
  intros Hpending. cbv zeta.
  assert (Hbare : forall w0,
             let out := rejectUnknownUrls (ret (inr url)) w0 in
             snd out = w0 /\
             ((fst out = Resolved (inr url) /\
               startsWithAnyProtocol url DOWNLOADABLE_PROTOCOLS = true)
              \/ (startsWithAnyProtocol url DOWNLOADABLE_PROTOCOLS = false /\
                  exists e, fst out = Rejected e))).
  { intros w0. unfold rejectUnknownUrls, bind, ret.
    destruct (startsWithAnyProtocol url DOWNLOADABLE_PROTOCOLS);
      cbn [reject fst snd]; split; eauto. }
  destruct Hpending as [[Ha ->] | [Ha (answer & ->)]].
  - destruct (Hbare w) as (Hw & Hout). rewrite Hw.
    split; [unfold Laws.sameState; auto|]. split.
    + left. split; [reflexivity|].
      destruct Hout as [H | (_ & H)]; [now left | now right].
    + intros [_ Hd]. split; [reflexivity|].
      destruct Hout as [[_ H] | (_ & H)]; [congruence | exact H].
  - assert (Hsplit : rejectUnknownUrls (bind (settled answer) (onHeadResponse env lib url)) w
                     = match answer with
                       | Resolved headers =>
                           rejectUnknownUrls (onHeadResponse env lib url headers) w
                       | Rejected e => (Rejected e, w)
                       end).
    { unfold rejectUnknownUrls, bind, settled. now destruct answer. }
    rewrite Hsplit. split; [|split].
    + destruct answer as [headers|e]; [|unfold Laws.sameState; auto].
      destruct (onHeadResponse_run env lib url headers w) as (Hs & _).
      unfold rejectUnknownUrls, bind.
      destruct (onHeadResponse env lib url headers w) as [[[f|u]|e] w1];
        cbn [fst snd ret] in *; try exact Hs.
      now destruct (startsWithAnyProtocol u DOWNLOADABLE_PROTOCOLS).
    + destruct answer as [headers|e];
        [|left; cbn [fst snd]; split; [reflexivity | eauto]].
      destruct (onHeadResponse_run env lib url headers w) as (_ & Hcases).
      unfold rejectUnknownUrls, bind.
      destruct (onHeadResponse env lib url headers w) as [r1 w1]. cbn [fst snd] in *.
      destruct Hcases as [(Ht & Hr) | (Ht & Hr)].
      * left. destruct Hr as [-> | (e & ->)]; cbn [fst snd].
        -- destruct (startsWithAnyProtocol url DOWNLOADABLE_PROTOCOLS) eqn:Hd;
             cbn [ret reject fst snd]; split; eauto.
        -- split; eauto.
      * right. split; [exact Ha|].
        destruct Hr as [(e & ->) | (fileType & response & Hin & Hget & ->)];
          cbn [ret fst snd]; split; eauto 8.
    + intros [Hauto _]. congruence.
Qed.

Lemma fetched_more env history gets more urls item :
  Laws.fetched env history gets urls item ->
  Laws.fetched env history (gets ++ more) urls item.
Proof.
  destruct item as [formFile|u]; cbn [Laws.fetched]; [|tauto].
  intros (u & fileType & response & before & after & Hin & Ha & -> & Hget & Hft & ->).
  exists u, fileType, response, before, (after ++ more).
  split; [exact Hin|]. split; [exact Ha|].
  split; [now rewrite <- app_assoc|]. auto.
Qed.

Lemma settlementOf_more env history urls url gets more s :
  Laws.settlementOf env history urls url gets s ->
  Laws.settlementOf env history urls url (gets ++ more) s.
Proof.
  intros [Hu Hs]. split; [exact Hu|].
  destruct s as [item|e]; [now apply fetched_more | exact I].
Qed.

Lemma arrivedFor_more env lib history urls gets more url promise :
  Laws.arrivedFor env lib history urls gets url promise ->
  Laws.arrivedFor env lib history urls (gets ++ more) url promise.
Proof.
  intros [H | (s & -> & Hs)]; [now left | right].
  exists s. split; [reflexivity | now apply settlementOf_more].
Qed.

Lemma sameState_trans w1 w2 w3 :
  Laws.sameState w1 w2 -> Laws.sameState w2 w3 -> Laws.sameState w1 w3.
Proof.
  intros (A1 & A2 & A3) (B1 & B2 & B3).
  unfold Laws.sameState. rewrite B1, B2, B3. auto.
Qed.

Lemma isGetOf_one urls url :
  In url urls ->
  startsWithAnyProtocol url AUTO_DOWNLOAD_TORRENT_FILE_PROTOCOLS = true ->
  Forall (Laws.isGetOf urls) [AxiosGet url].
Proof. intros Hin Ha. repeat constructor. exists url. auto. Qed.

(** One promise of the list settles: its callbacks issue the GET
    request or nothing, and a promise that had settled issues
    nothing. *)
Lemma arrived_run env lib history urls gets url promise w :
  Laws.arrivedFor env lib history urls gets url promise ->
  In url urls ->
  trace w = history ++ gets ->
  exists g1,
    Laws.sameState w (snd (promise w)) /\
    trace (snd (promise w)) = history ++ gets ++ g1 /\
    Forall (Laws.isGetOf urls) g1 /\
    Laws.settlementOf env history urls url (gets ++ g1) (fst (promise w)) /\
    (Laws.unknownProtocol url -> g1 = []).
Proof.
  intros [(pending & Hp & ->) | (s & -> & Hs)] Hin Ht.
  - destruct (pending_run env lib url pending w Hp) as (Hsame & Hcases & Hunknown).
    destruct (rejectUnknownUrls pending w) as [r w']. cbn [fst snd] in *.
    destruct Hcases as [(Ht1 & Hr) | (Ha & Ht1 & Hr)].
    + exists []. split; [exact Hsame|].
      split; [now rewrite Ht1, Ht, app_nil_r|]. split; [constructor|].
      split; [|reflexivity]. split.
      * intros Hu. now destruct (Hunknown Hu).
      * destruct Hr as [[-> Hd] | (e & ->)]; [|exact I].
        cbn [Laws.fetched]. auto.
    + exists [AxiosGet url]. split; [exact Hsame|].
      split; [now rewrite Ht1, Ht, <- app_assoc|].
      split; [now apply isGetOf_one|]. split.
      * split; [intros Hu; now destruct (Hunknown Hu)|].
        destruct Hr as [(e & ->) | (fileType & response & Hft & Hget & ->)]; [exact I|].
        cbn [Laws.fetched]. exists url, fileType, response, gets, [].
        split; [exact Hin|]. split; [exact Ha|]. split; [reflexivity|].
        split; [|auto]. now rewrite app_assoc, <- Ht.
      * intros [Hu _]. congruence.
  - exists []. unfold settled. cbn [fst snd]. rewrite !app_nil_r.
    split; [unfold Laws.sameState; auto|]. split; [exact Ht|].
    split; [constructor|]. auto.
Qed.

(** An answer arrives. *)
Lemma settleAt_run env lib history urls i :
  forall some promises gets w,
    Forall2 (Laws.arrivedFor env lib history urls gets) some promises ->
    incl some urls ->
    trace w = history ++ gets ->
    exists g1,
      Forall2 (Laws.arrivedFor env lib history urls (gets ++ g1)) some
              (fst (settleAt i promises w)) /\
      Laws.sameState w (snd (settleAt i promises w)) /\
      trace (snd (settleAt i promises w)) = history ++ gets ++ g1 /\
      Forall (Laws.isGetOf urls) g1 /\
      (Forall Laws.unknownProtocol some -> g1 = []).
Proof.
  intros some promises gets w H. revert i w.
  induction H as [|url promise some promises Hp Hrest IH]; intros i w Hincl Ht;
    cbn [settleAt].
  - exists []. cbn [fst snd]. rewrite !app_nil_r.
    split; [constructor|]. split; [unfold Laws.sameState; auto|]. auto.
  - assert (Hin : In url urls) by (apply Hincl; now left).
    assert (Hincl' : incl some urls) by (intros u Hu; apply Hincl; now right).
    destruct i as [|j].
    + destruct (arrived_run env lib history urls gets url promise w Hp Hin Ht)
        as (g1 & Hsame & Ht1 & Hg1 & Hs & Hquiet).
      destruct (promise w) as [s w']. cbn [fst snd] in *.
      exists g1. split.
      { constructor.
        - right. exists s. auto.
        - eapply Forall2_impl; [|exact Hrest].
          intros u p. apply arrivedFor_more. }
      split; [exact Hsame|]. split; [exact Ht1|]. split; [exact Hg1|].
      intros Hall. inversion Hall; subst. auto.
    + destruct (IH j w Hincl' Ht) as (g1 & Hall & Hsame & Ht1 & Hg1 & Hquiet).
      destruct (settleAt j promises w) as [rest' w']. cbn [fst snd] in *.
      exists g1. split.
      { constructor; [now apply arrivedFor_more | exact Hall]. }
      split; [exact Hsame|]. split; [exact Ht1|]. split; [exact Hg1|].
      intros Hall'. inversion Hall'; subst. auto.
Qed.

(** The answers arrive, in whatever order. *)
Lemma handleArrivals_run env lib history urls order :
  forall promises gets w,
    Forall2 (Laws.arrivedFor env lib history urls gets) urls promises ->
    trace w = history ++ gets ->
    exists g,
      Forall2 (Laws.arrivedFor env lib history urls (gets ++ g)) urls
              (fst (handleArrivals order promises w)) /\
      Laws.sameState w (snd (handleArrivals order promises w)) /\
      trace (snd (handleArrivals order promises w)) = history ++ gets ++ g /\
      Forall (Laws.isGetOf urls) g /\
      (Forall Laws.unknownProtocol urls -> g = []).
Proof.
  induction order as [|i later IH]; intros promises gets w H Ht; cbn [handleArrivals].
  - exists []. cbn [fst snd]. rewrite !app_nil_r.
    split; [exact H|]. split; [unfold Laws.sameState; auto|]. auto.
  - destruct (settleAt_run env lib history urls i urls promises gets w H
                           (incl_refl urls) Ht)
      as (g1 & H1 & Hsame1 & Ht1 & Hg1 & Hquiet1).
    destruct (settleAt i promises w) as [promises' w']. cbn [fst snd] in *.
    destruct (IH promises' (gets ++ g1) w' H1 Ht1)
      as (g2 & H2 & Hsame2 & Ht2 & Hg2 & Hquiet2).
    exists (g1 ++ g2).
    split; [now rewrite app_assoc|]. split; [eapply sameState_trans; eauto|].
    split; [now rewrite Ht2, <- !app_assoc|].
    split; [apply Forall_app; auto|].
    intros Hall. now rewrite (Hquiet1 Hall), (Hquiet2 Hall).
Qed.

(** Reading the settlements in queue order; the callbacks of a promise
    whose answer had not arrived run as it is waited for. *)
Lemma partition_arrived env lib history urls :
  forall some promises,
    forall gets w,
    Forall2 (Laws.arrivedFor env lib history urls gets) some promises ->
    incl some urls ->
    trace w = history ++ gets ->
    exists resolved rejected g w',
      partitionPromises promises w = (Resolved (resolved, rejected), w') /\
      Laws.sameState w w' /\
      trace w' = history ++ gets ++ g /\
      Forall (Laws.isGetOf urls) g /\
      (List.length resolved + List.length rejected = List.length some)%nat /\
      Forall (Laws.fetched env history (gets ++ g) urls) resolved /\
      (Forall Laws.unknownProtocol some -> resolved = [] /\ g = []).
Proof.
  intros some promises.
  revert promises.
  induction some as [|url some IH]; intros promises gets w H Hincl Ht;
    inversion H as [|? promise ? queue Hp Hrest]; subst; cbn [partitionPromises].
  - exists [], [], [], w. cbn [ret]. rewrite !app_nil_r.
    unfold Laws.sameState. repeat split; auto.
  - assert (Hin : In url urls) by (apply Hincl; now left).
    assert (Hincl' : incl some urls) by (intros u Hu; apply Hincl; now right).
    destruct (arrived_run env lib history urls gets url promise w Hp Hin Ht)
      as (g1 & Hsame1 & Ht1 & Hg1 & [Hu Hs] & Hquiet1).
    destruct (promise w) as [s w1]. cbn [fst snd] in *.
    assert (Hrest' : Forall2 (Laws.arrivedFor env lib history urls (gets ++ g1))
                             some queue).
    { eapply Forall2_impl; [|exact Hrest]. intros u p. apply arrivedFor_more. }
    destruct (IH queue (gets ++ g1) w1 Hrest' Hincl' Ht1)
      as (resolved & rejected & g2 & w2 & E & Hsame2 & Ht2 & Hg2 & Hlen & Hall
          & Hquiet2).
    unfold bind. rewrite E.
    assert (Hsame : Laws.sameState w w2) by (eapply sameState_trans; eauto).
    assert (Htrace : trace w2 = history ++ gets ++ g1 ++ g2)
      by (now rewrite Ht2, <- !app_assoc).
    assert (Hgets : Forall (Laws.isGetOf urls) (g1 ++ g2))
      by (apply Forall_app; auto).
    assert (Hall' : Forall (Laws.fetched env history (gets ++ g1 ++ g2) urls) resolved)
      by (now rewrite app_assoc).
    destruct s as [item|e]; cbn [ret].
    + exists (item :: resolved), rejected, (g1 ++ g2), w2.
      split; [reflexivity|]. split; [exact Hsame|]. split; [exact Htrace|].
      split; [exact Hgets|]. split; [simpl; lia|]. split.
      * constructor; [|exact Hall'].
        rewrite app_assoc. now apply fetched_more.
      * intros Hunknown. inversion Hunknown as [|? ? Hu1 Hus]; subst.
        destruct (Hu Hu1) as (e & He). discriminate.
    + exists resolved, (errorOrNew e :: rejected), (g1 ++ g2), w2.
      split; [reflexivity|]. split; [exact Hsame|]. split; [exact Htrace|].
      split; [exact Hgets|]. split; [simpl; lia|]. split; [exact Hall'|].
      intros Hunknown. inversion Hunknown as [|? ? Hu1 Hus]; subst.
      destruct (Hquiet2 Hus) as [-> ->]. now rewrite (Hquiet1 Hu1).
Qed.

Lemma fetched_after_heads env history gets urls item :
  Laws.fetched env (history ++ Laws.headsOf urls) gets urls item ->
  Laws.probedAndFetched env history (Laws.headsOf urls ++ gets) urls item.
Proof.
  destruct item as [formFile|u]; cbn [Laws.fetched Laws.probedAndFetched]; [|tauto].
  intros (u & fileType & response & before & after & Hin & Ha & -> & Hget & Hft & ->).
  exists u, fileType, response, (Laws.headsOf urls ++ before), after.
  split; [exact Hin|]. split; [exact Ha|].
  split; [now rewrite <- app_assoc|]. split.
  { apply in_or_app. left. unfold Laws.headsOf. apply in_map.
    apply filter_In. auto. }
  split; [now rewrite <- !app_assoc in *|]. auto.
Qed.

Lemma probedAndFetched_fetched env history probes urls item :
  Laws.probedAndFetched env history probes urls item ->
  Laws.fetched env history probes urls item.
Proof.
  destruct item as [formFile|u]; cbn [Laws.fetched Laws.probedAndFetched]; [|tauto].
  intros (u & fileType & response & before & after & Hin & Ha & Hp & _ & Hget & Hft & Hf).
  exists u, fileType, response, before, after. auto 8.
Qed.

Lemma headsOf_unknown urls :
  Forall Laws.unknownProtocol urls -> Laws.headsOf urls = [].
Proof.
  unfold Laws.headsOf. induction 1 as [|url urls [Ha _] _ IH]; [reflexivity|].
  cbn [filter]. now rewrite Ha.
Qed.

(** The resolution stage of a submission: the HEAD requests of the
    http(s) URLs in list order, then the GET requests of the URLs that
    are fetched; it resolves with the items and the reasons. *)
Lemma resolution_result env lib urls w :
  exists resolved rejected probes w',
    resolveUrls env lib urls w = (Resolved (resolved, rejected), w') /\
    Laws.sameState w w' /\
    trace w' = trace w ++ probes /\
    Forall Spec.isProbe probes /\
    (List.length resolved + List.length rejected = List.length urls)%nat /\
    Forall (Laws.resolvedFrom urls) resolved /\
    Forall (Laws.probedAndFetched env (trace w) probes urls) resolved /\
    (exists gets, probes = Laws.headsOf urls ++ gets /\ Forall (Laws.isGetOf urls) gets) /\
    (Forall Laws.unknownProtocol urls -> resolved = [] /\ probes = []).
Proof.
  unfold resolveUrls.
  destruct (mapCalls_run env lib urls w) as (Hpending & Hs1 & Ht1).
  destruct (mapCalls (maybeMapUrlToFile_call env lib) urls w) as [promises w1].
  cbn [fst snd] in *.
  assert (Hwaiting : Forall2 (Laws.arrivedFor env lib (trace w1) urls []) urls
                             (map rejectUnknownUrls promises)).
  { clear - Hpending. generalize urls at 1.
    induction Hpending as [|url promise some rest Hp _ IH]; intros all;
      cbn [map]; constructor; [|apply IH].
    left. eauto. }
  destruct (handleArrivals_run env lib (trace w1) urls (arrival env (trace w1))
                               _ [] w1 Hwaiting)
    as (g1 & Harrived & Hs2 & Ht2 & Hg1 & Hquiet1); [now rewrite app_nil_r|].
  destruct (handleArrivals (arrival env (trace w1)) (map rejectUnknownUrls promises) w1)
    as [arrived w2].
  cbn [fst snd app] in *.
  destruct (partition_arrived env lib (trace w1) urls urls arrived g1 w2 Harrived
                              (incl_refl urls) Ht2)
    as (resolved & rejected & g2 & w3 & E & Hs3 & Ht3 & Hg2 & Hlen & Hall & Hquiet2).
  set (gets := g1 ++ g2) in *.
  assert (Hg : Forall (Laws.isGetOf urls) gets) by (apply Forall_app; auto).
  exists resolved, rejected, (Laws.headsOf urls ++ gets), w3.
  split; [exact E|]. split.
  { eapply sameState_trans; [exact Hs1|]. eapply sameState_trans; eauto. }
  split; [now rewrite Ht3, Ht1, <- !app_assoc|].
  assert (Hfetched : Forall (Laws.probedAndFetched
                               env (trace w) (Laws.headsOf urls ++ gets) urls)
                            resolved).
  { eapply Forall_impl; [|exact Hall].
    intros item Hitem. apply fetched_after_heads. now rewrite <- Ht1. }
  split.
  { apply Forall_app. split.
    - unfold Laws.headsOf. apply Forall_forall. intros e Hin.
      apply in_map_iff in Hin as (u & <- & _). exact I.
    - eapply Forall_impl; [|exact Hg]. intros e (u & -> & _). exact I. }
  split; [exact Hlen|]. split.
  { eapply Forall_impl; [|exact Hfetched]. intros item Hitem.
    eapply fetched_resolvedFrom, probedAndFetched_fetched, Hitem. }
  split; [exact Hfetched|]. split; [eauto|].
  intros Hunknown. destruct (Hquiet2 Hunknown) as [-> Hg2'].
  subst gets. rewrite (Hquiet1 Hunknown), Hg2'.
  now rewrite (headsOf_unknown urls Hunknown).
Qed.

(** The wrapped create call, event by event. *)
Lemma doCreateTask_calls env options w :
  let w' := snd (doCreateTask env options w) in
  Laws.sameState w w' /\
  exists calls, trace w' = trace w ++ calls /\ Laws.createCalls options calls.
Proof.
  cbv zeta.
  unfold doCreateTask, wrapInNoPermissionsRetry, bind, Task_Create, request, Auth_Logout,
    Laws.sameState, Laws.createCalls.
  destruct (taskCreateReply env (trace (log (TaskCreate options) w))) as [result|e];
    cbn [fst snd log trace store ticks idCounter].
  - destruct (isNoPermissionsFailure result); cbn [ret fst snd log trace store ticks idCounter].
    + split; [auto|]. exists [TaskCreate options; AuthLogout; TaskCreate options].
      rewrite <- !app_assoc. auto.
    + split; [auto|]. eauto.
  - split; [auto|]. eauto.
Qed.

(** The shape of every submission with at least one URL: the opening
    notification, the probes of the resolution stage, and then nothing
    more when no item resolved, or else the create call for the request
    built from the resolved items followed by a poll, or by the report
    of an unexpected error when the create call rejected. *)
Lemma submission_shape env lib urls path w :
  urls <> [] ->
  exists (resolved : list TaskItem) (rejected : list Error) (probes tail : list Event)
         (final : World),
    addDownloadTasksAndPoll env lib urls path w = (Resolved tt, final) /\
    trace final = trace w ++ Spec.addingNotice urls (idCounter w) :: probes ++ tail /\
    Forall Spec.isProbe probes /\
    (List.length resolved + List.length rejected = List.length urls)%nat /\
    Forall (Laws.resolvedFrom urls) resolved /\
    (resolved = [] -> tail = []) /\
    (resolved <> [] ->
     exists calls after,
       tail = calls ++ after /\
       Laws.createCalls {| file := Laws.filesOf resolved; uri := Laws.urisOf resolved;
                           destination := Spec.sentDestination path |} calls /\
       (after = [Spec.unexpectedNotice (idCounter w)] \/
        (Forall Spec.fromPoll after /\ In TaskList after))).
Proof.
  intros Hne.
  unfold addDownloadTasksAndPoll.
  destruct urls as [|u urls]; [contradiction|].
  change (0 <? List.length (u :: urls))%nat with true. cbv iota.
  rewrite sentDestination_code.
  set (first := Spec.addingNotice (u :: urls) (idCounter w)).
  set (w1 := {| trace := trace w ++ [first]; store := store w;
                ticks := ticks w; idCounter := S (idCounter w) |}).
  assert (E1 : (if (List.length (u :: urls) =? 1)%nat
                then notify "Adding download..." (nth_error (u :: urls) 0) None
                else notify ("Adding " ++ Js.showNat (List.length (u :: urls)) ++
                             " downloads...")%string None None) w
               = (Resolved (idCounter w), w1)).
  { subst w1 first. unfold Spec.addingNotice.
    destruct (List.length (u :: urls) =? 1)%nat; reflexivity. }
  unfold bind at 1. rewrite E1. unfold catch, submitAttempt, bind.
  destruct (resolution_result env lib (u :: urls) w1)
    as (resolved & rejected & probes & w2 & E2 & Hs2 & Ht2 & Hp2 & Hlen & Hall & _).
  rewrite E2.
  exists resolved, rejected, probes.
  destruct resolved as [|item resolved].
  - exists [], w2. cbn [List.length Nat.eqb ret].
    split; [reflexivity|]. split.
    { rewrite Ht2. subst w1. cbn [trace].
      now rewrite <- app_assoc, app_nil_r. }
    repeat split; auto. intros H. now contradiction H.
  - change (List.length (item :: resolved) =? 0)%nat with false. cbv iota.
    destruct (splitResolved_partitions (item :: resolved)) as [-> _].
    set (o := {| file := Laws.filesOf (item :: resolved);
                 uri := Laws.urisOf (item :: resolved);
                 destination := Spec.sentDestination path |}).
    destruct (doCreateTask_calls env o w2) as (Hs3 & calls & Ht3 & Hcalls).
    destruct (doCreateTask env o w2) as [[result|e] w3]; cbn [fst snd] in *.
    + destruct (pollTasks_summary env lib w3) as (Hres & _ & pc & pt & Ht4 & Hpc & Hpt).
      destruct (pollTasks env lib w3) as [[[]|e] w4]; cbn [fst snd] in *;
        [|discriminate].
      set (after := [DateNow (clock env (ticks w3));
                     StorageSet (Spec.initWrite (clock env (ticks w3)))] ++ pc ++ pt) in *.
      exists (calls ++ after), w4.
      split; [reflexivity|]. split.
      { rewrite Ht4, Ht3, Ht2. subst w1. cbn [trace].
        now rewrite <- !app_assoc. }
      repeat split; auto; [discriminate|].
      intros _. exists calls, after. split; [reflexivity|]. split; [exact Hcalls|].
      right. split.
      * subst after. repeat constructor. apply Forall_app. split.
        -- destruct Hpc as [->| ->]; repeat constructor.
        -- destruct Hpt as [->|(response & ->)]; repeat constructor.
      * subst after. cbn [app]. right. right. apply in_or_app. left.
        destruct Hpc as [->| ->]; now left.
    + unfold notifyUnexpectedError, bind, notify, log. cbn [fst snd trace idCounter].
      eexists (calls ++ [Spec.unexpectedNotice (idCounter w)]), _.
      split; [reflexivity|]. cbn [trace]. split.
      { rewrite Ht3, Ht2. subst w1. cbn [trace].
        now rewrite <- !app_assoc. }
      repeat split; auto; [discriminate|].
      intros _. exists calls, [Spec.unexpectedNotice (idCounter w)]. auto.
Qed.

(** The wrapped create call, read off the answers of the environment. *)
Lemma doCreateTask_outcome env options w :
  fst (doCreateTask env options w) = Laws.createOutcome env (trace w) options /\
  trace (snd (doCreateTask env options w))
  = trace w ++ Laws.createEvents env (trace w) options /\
  Laws.sameState w (snd (doCreateTask env options w)).
Proof.
  unfold doCreateTask, wrapInNoPermissionsRetry, bind, Task_Create, request, Auth_Logout,
    Laws.createOutcome, Laws.createEvents, Laws.firstCreateAnswer, Laws.sameState,
    isNoPermissionsFailure, NO_PERMISSIONS_ERROR_CODE.
  cbn [log trace].
  destruct (taskCreateReply env (trace w ++ [TaskCreate options]))
    as [[failure|[data|code]]|e];
    cbn [Laws.isPermissionFailure isConnectionFailure negb andb ret fst snd log trace
         store ticks idCounter]; auto.
  destruct (code =? 105); cbn [ret fst snd log trace store ticks idCounter]; auto.
  rewrite <- !app_assoc. cbn [app]. auto.
Qed.

(** A submission with at least one URL, event by event: the opening
    notification; the HEAD requests of the http(s) URLs, in list order;
    the GET requests of the URLs that are fetched; then, if anything
    resolved, the create request for the resolved items, sent once or
    twice, followed by a poll when the create call resolved and by the
    report of an unexpected error when it rejected. *)
Lemma submission_trace env lib urls path w :
  urls <> [] ->
  exists (resolved : list TaskItem) (rejected : list Error) (gets tail : list Event)
         (final : World),
    let opening := Spec.addingNotice urls (idCounter w) in
    let probes := Laws.headsOf urls ++ gets in
    let options := {| file := Laws.filesOf resolved; uri := Laws.urisOf resolved;
                      destination := Spec.sentDestination path |} in
    let history := trace w ++ opening :: probes in
    addDownloadTasksAndPoll env lib urls path w = (Resolved tt, final) /\
    trace final = trace w ++ opening :: probes ++ tail /\
    Forall (Laws.isGetOf urls) gets /\
    (List.length resolved + List.length rejected = List.length urls)%nat /\
    Forall (Laws.probedAndFetched env (trace w ++ [opening]) probes urls) resolved /\
    (resolved = [] -> tail = []) /\
    (resolved <> [] ->
     exists after,
       tail = Laws.createEvents env history options ++ after /\
       match Laws.createOutcome env history options with
       | Resolved _ => Forall Spec.fromPoll after /\ In TaskList after
       | Rejected _ => after = [Spec.unexpectedNotice (idCounter w)]
       end).
Proof.
  intros Hne. cbv zeta.
  unfold addDownloadTasksAndPoll.
  destruct urls as [|u urls]; [contradiction|].
  change (0 <? List.length (u :: urls))%nat with true. cbv iota.
  rewrite sentDestination_code.
  set (first := Spec.addingNotice (u :: urls) (idCounter w)).
  set (w1 := {| trace := trace w ++ [first]; store := store w;
                ticks := ticks w; idCounter := S (idCounter w) |}).
  assert (E1 : (if (List.length (u :: urls) =? 1)%nat
                then notify "Adding download..." (nth_error (u :: urls) 0) None
                else notify ("Adding " ++ Js.showNat (List.length (u :: urls)) ++
                             " downloads...")%string None None) w
               = (Resolved (idCounter w), w1)).
  { subst w1 first. unfold Spec.addingNotice.
    destruct (List.length (u :: urls) =? 1)%nat; reflexivity. }
  unfold bind at 1. rewrite E1. unfold catch, submitAttempt, bind.
  destruct (resolution_result env lib (u :: urls) w1)
    as (resolved & rejected & probes & w2 & E2 & Hs2 & Ht2 & Hp2 & Hlen & Hall & Hfetched
        & (gets & -> & Hgets) & _).
  rewrite E2.
  exists resolved, rejected, gets.
  assert (Hhistory : trace w2 = trace w ++ first :: Laws.headsOf (u :: urls) ++ gets).
  { rewrite Ht2. subst w1. cbn [trace]. now rewrite <- app_assoc. }
  destruct resolved as [|item resolved].
  - exists [], w2. cbn [List.length Nat.eqb ret].
    split; [reflexivity|]. split; [now rewrite app_nil_r|].
    split; [exact Hgets|]. split; [exact Hlen|]. split; [exact Hfetched|].
    split; [reflexivity | intros H; now contradiction H].
  - change (List.length (item :: resolved) =? 0)%nat with false. cbv iota.
    destruct (splitResolved_partitions (item :: resolved)) as [-> _].
    set (o := {| file := Laws.filesOf (item :: resolved);
                 uri := Laws.urisOf (item :: resolved);
                 destination := Spec.sentDestination path |}).
    destruct (doCreateTask_outcome env o w2) as (Hout & Ht3 & Hs3).
    rewrite Hhistory in Hout, Ht3.
    destruct (doCreateTask env o w2) as [[result|e] w3]; cbn [fst snd] in *.
    + destruct (pollTasks_summary env lib w3) as (Hres & _ & pc & pt & Ht4 & Hpc & Hpt).
      destruct (pollTasks env lib w3) as [[[]|e] w4]; cbn [fst snd] in *;
        [|discriminate].
      set (after := [DateNow (clock env (ticks w3));
                     StorageSet (Spec.initWrite (clock env (ticks w3)))] ++ pc ++ pt) in *.
      exists (Laws.createEvents
                env (trace w ++ first :: Laws.headsOf (u :: urls) ++ gets) o ++ after), w4.
      split; [reflexivity|]. split.
      { rewrite Ht4, Ht3. set (ce := Laws.createEvents _ _ _).
        rewrite <- !app_assoc. cbn [app]. now rewrite <- ?app_assoc. }
      split; [exact Hgets|]. split; [exact Hlen|]. split; [exact Hfetched|].
      split; [discriminate|]. intros _. exists after. split; [reflexivity|].
      rewrite <- Hout. split.
      * subst after. repeat constructor. apply Forall_app. split.
        -- destruct Hpc as [->| ->]; repeat constructor.
        -- destruct Hpt as [->|(response & ->)]; repeat constructor.
      * subst after. cbn [app]. right. right. apply in_or_app. left.
        destruct Hpc as [->| ->]; now left.
    + unfold notifyUnexpectedError, bind, notify, log. cbn [fst snd trace idCounter].
      eexists (Laws.createEvents
                 env (trace w ++ first :: Laws.headsOf (u :: urls) ++ gets) o
                 ++ [Spec.unexpectedNotice (idCounter w)]), _.
      split; [reflexivity|]. cbn [trace]. split.
      { rewrite Ht3. set (ce := Laws.createEvents _ _ _).
        rewrite <- !app_assoc. cbn [app]. now rewrite <- ?app_assoc. }
      split; [exact Hgets|]. split; [exact Hlen|]. split; [exact Hfetched|].
      split; [discriminate|]. intros _.
      exists [Spec.unexpectedNotice (idCounter w)]. split; [reflexivity|].
      now rewrite <- Hout.
Qed.

(** A submission with at least one URL, event by event: the opening
    notification; the HEAD requests of the http(s) URLs, in list order;
    the GET requests of the URLs that are fetched; then, if anything
    resolved, the create request for the resolved items, sent once or
    twice, followed by a poll when the create call resolved and by the
    report of an unexpected error when it rejected. *)
Lemma submission_run env lib urls path w :
  urls <> [] ->
  exists (resolved : list TaskItem) (rejected : list Error) (gets : list Event),
    let opening := Spec.addingNotice urls (idCounter w) in
    let probes := Laws.headsOf urls ++ gets in
    let options := {| file := Laws.filesOf resolved; uri := Laws.urisOf resolved;
                      destination := Spec.sentDestination path |} in
    let history := trace w ++ opening :: probes in
    let events := issued w (snd (addDownloadTasksAndPoll env lib urls path w)) in
    Forall (Laws.isGetOf urls) gets /\
    (List.length resolved + List.length rejected = List.length urls)%nat /\
    Forall (Laws.probedAndFetched env (trace w ++ [opening]) probes urls) resolved /\
    (resolved = [] -> events = opening :: probes) /\
    (resolved <> [] ->
     exists after,
       events = opening :: probes ++ Laws.createEvents env history options ++ after /\
       match Laws.createOutcome env history options with
       | Resolved _ => Forall Spec.fromPoll after /\ In TaskList after
       | Rejected _ => after = [Spec.unexpectedNotice (idCounter w)]
       end).
Proof.
  intros Hne.
  destruct (submission_trace env lib urls path w Hne)
    as (resolved & rejected & gets & tail & final & E & Ht & Hgets & Hlen & Hfetched
        & Hnil & Hcons).
  exists resolved, rejected, gets. cbv zeta. rewrite E. cbn [snd].
  rewrite (issued_app _ _ _ Ht).
  split; [exact Hgets|]. split; [exact Hlen|]. split; [exact Hfetched|]. split.
  - intros Hr. now rewrite (Hnil Hr), app_nil_r.
  - intros Hr. destruct (Hcons Hr) as (after & -> & Hafter).
    exists after. split; [reflexivity | exact Hafter].
Qed.

Lemma in_filesOf (items : list TaskItem) (formFile : FormFile) :
  In formFile (Laws.filesOf items) -> In (inl formFile) items.
Proof.
  unfold Laws.filesOf. intros H. apply in_flat_map in H as ([f|u] & Hin & Hf).
  - destruct Hf as [<-|[]]. exact Hin.
  - contradiction.
Qed.

Lemma in_urisOf (items : list TaskItem) (url : string) :
  In url (Laws.urisOf items) -> In (inr url) items.
Proof.
  unfold Laws.urisOf. intros H. apply in_flat_map in H as ([f|u] & Hin & Hf).
  - contradiction.
  - destruct Hf as [<-|[]]. exact Hin.
Qed.

Lemma empty_submission_run env lib path w :
  addDownloadTasksAndPoll env lib [] path w
  = (Resolved tt,
     {| trace := trace w ++ [Notify "Failed to add download"
                                    (Some "No URL to download given") None (idCounter w)];
        store := store w; ticks := ticks w; idCounter := S (idCounter w) |}).
Proof. reflexivity. Qed.

(** The create requests found in the trace of a submission are the one
    request built from the resolved items. *)
Lemma submission_creates env lib urls path w options :
  In (TaskCreate options) (issued w (snd (addDownloadTasksAndPoll env lib urls path w))) ->
  exists (resolved : list TaskItem) (rejected : list Error),
    resolved <> [] /\
    (List.length resolved + List.length rejected = List.length urls)%nat /\
    Forall (Laws.resolvedFrom urls) resolved /\
    options = {| file := Laws.filesOf resolved; uri := Laws.urisOf resolved;
                 destination := Spec.sentDestination path |}.
Proof.
  intros Hin.
  destruct urls as [|u urls].
  { rewrite empty_submission_run in Hin. cbn [snd] in Hin.
    erewrite issued_app in Hin by reflexivity.
    destruct Hin as [Hin|[]]. discriminate. }
  destruct (submission_shape env lib (u :: urls) path w ltac:(discriminate))
    as (resolved & rejected & probes & tail & final & E & Ht & Hp & Hlen & Hall & Hnil & Hcons).
  rewrite E in Hin. cbn [snd] in Hin. rewrite (issued_app _ _ _ Ht) in Hin.
  destruct Hin as [Hin|Hin].
  { unfold Spec.addingNotice in Hin. destruct (_ =? _)%nat; discriminate. }
  apply in_app_or in Hin as [Hin|Hin].
  { rewrite Forall_forall in Hp. now apply Hp in Hin. }
  destruct resolved as [|item resolved].
  { rewrite (Hnil eq_refl) in Hin. contradiction. }
  destruct (Hcons ltac:(discriminate)) as (calls & after & -> & Hcalls & Hafter).
  exists (item :: resolved), rejected.
  split; [discriminate|]. split; [exact Hlen|]. split; [exact Hall|].
  apply in_app_or in Hin as [Hin|Hin].
  - destruct Hcalls as [->| ->]; cbn [In] in Hin.
    + destruct Hin as [H|[]]. now injection H as <-.
    + destruct Hin as [H|[H|[H|[]]]]; [|discriminate|]; now injection H as <-.
  - destruct Hafter as [->|[Hpoll _]].
    + destruct Hin as [Hin|[]]. discriminate.
    + rewrite Forall_forall in Hpoll. now apply Hpoll in Hin.
Qed.

Lemma createEvents_cases env history options :
  (Laws.isPermissionFailure (Laws.firstCreateAnswer env history options) = false /\
   Laws.createEvents env history options = [TaskCreate options])
  \/
  (Laws.isPermissionFailure (Laws.firstCreateAnswer env history options) = true /\
   Laws.createEvents env history options
   = [TaskCreate options; AuthLogout; TaskCreate options]).
Proof.
  unfold Laws.createEvents.
  destruct (Laws.isPermissionFailure _); [right | left]; auto.
Qed.

Lemma probes_not_create urls gets e :
  Forall (Laws.isGetOf urls) gets -> In e (Laws.headsOf urls ++ gets) ->
  Laws.isCreate e = false /\ e <> TaskList.
Proof.
  intros Hgets Hin. apply in_app_or in Hin as [Hin|Hin].
  - unfold Laws.headsOf in Hin. apply in_map_iff in Hin as (u & <- & _).
    split; [reflexivity | discriminate].
  - rewrite Forall_forall in Hgets. destruct (Hgets e Hin) as (u & -> & _).
    split; [reflexivity | discriminate].
Qed.

(** Where the create request of a submission stands among its events. *)
Lemma submission_create_position env lib urls path w options :
  In (TaskCreate options) (issued w (snd (addDownloadTasksAndPoll env lib urls path w))) ->
  exists (resolved : list TaskItem) (rejected : list Error) (gets after : list Event),
    let opening := Spec.addingNotice urls (idCounter w) in
    let probes := Laws.headsOf urls ++ gets in
    let history := trace w ++ opening :: probes in
    resolved <> [] /\
    options = {| file := Laws.filesOf resolved; uri := Laws.urisOf resolved;
                 destination := Spec.sentDestination path |} /\
    issued w (snd (addDownloadTasksAndPoll env lib urls path w))
    = opening :: probes ++ Laws.createEvents env history options ++ after /\
    match Laws.createOutcome env history options with
    | Resolved _ => Forall Spec.fromPoll after /\ In TaskList after
    | Rejected _ => after = [Spec.unexpectedNotice (idCounter w)]
    end /\
    Forall (Laws.isGetOf urls) gets /\
    (List.length resolved + List.length rejected = List.length urls)%nat /\
    Forall (Laws.probedAndFetched env (trace w ++ [opening]) probes urls) resolved.
Proof.
  intros Hin.
  destruct urls as [|u urls].
  { rewrite empty_submission_run in Hin. cbn [snd] in Hin.
    erewrite issued_app in Hin by reflexivity.
    destruct Hin as [Hin|[]]. discriminate. }
  destruct (submission_run env lib (u :: urls) path w ltac:(discriminate))
    as (resolved & rejected & gets & Hgets & Hlen & Hfetched & Hnil & Hcons).
  cbv zeta in *.
  assert (Hopening : forall o, Spec.addingNotice (u :: urls) (idCounter w) <> TaskCreate o).
  { intros o. unfold Spec.addingNotice. destruct (_ =? _)%nat; discriminate. }
  destruct resolved as [|item resolved].
  { rewrite (Hnil eq_refl) in Hin. destruct Hin as [Hin|Hin].
    - now apply Hopening in Hin.
    - apply (probes_not_create _ _ _ Hgets) in Hin as [Hin _]. discriminate. }
  destruct (Hcons ltac:(discriminate)) as (after & Hevents & Hafter).
  set (o := {| file := Laws.filesOf (item :: resolved);
               uri := Laws.urisOf (item :: resolved);
               destination := Spec.sentDestination path |}) in *.
  assert (Ho : options = o).
  { rewrite Hevents in Hin. destruct Hin as [Hin|Hin]; [now apply Hopening in Hin|].
    apply in_app_or in Hin as [Hin|Hin].
    { apply (probes_not_create _ _ _ Hgets) in Hin as [Hin _]. discriminate. }
    apply in_app_or in Hin as [Hin|Hin].
    - destruct (createEvents_cases
                  env (trace w ++ Spec.addingNotice (u :: urls) (idCounter w)
                         :: Laws.headsOf (u :: urls) ++ gets) o) as [[_ E]|[_ E]];
        rewrite E in Hin; cbn [In] in Hin.
      + destruct Hin as [H|[]]. now injection H as <-.
      + destruct Hin as [H|[H|[H|[]]]]; [|discriminate|]; now injection H as <-.
    - destruct (Laws.createOutcome _ _ _).
      + destruct Hafter as [Hpoll _]. rewrite Forall_forall in Hpoll.
        now apply Hpoll in Hin.
      + rewrite Hafter in Hin. destruct Hin as [Hin|[]]. discriminate. }
  subst options.
  exists (item :: resolved), rejected, gets, after.
  split; [discriminate|]. split; [reflexivity|]. auto.
Qed.

(** X6. What a create request of a submission contains.  It is never
    empty; it holds at most as many items as URLs were submitted; every
    entry of [uri] is one of the submitted URLs and starts with a
    downloadable protocol; every entry of [file] was fetched from a
    submitted http(s) URL: among the events of the submission there is,
    before the create request, a GET of that URL, itself after the HEAD
    of that URL, and the file is built from what the environment
    answered to that GET; it carries the media type of a known metadata
    type and a name that ends with that type's extension. *)
Theorem create_request_contents
        (env : Env) (lib : Lib) (urls : list string) (path : option string)
        (w : World) (options : DownloadStationTaskCreateRequest)
        (Hsent : In (TaskCreate options)
                    (issued w (snd (addDownloadTasksAndPoll env lib urls path w)))) :
  let events := issued w (snd (addDownloadTasksAndPoll env lib urls path w)) in
  (file options <> [] \/ uri options <> [])
  /\ (List.length (file options) + List.length (uri options) <= List.length urls)%nat
  /\ (forall url, In url (uri options) ->
                  In url urls /\ startsWithAnyProtocol url DOWNLOADABLE_PROTOCOLS = true)
  /\ (forall formFile, In formFile (file options) ->
        exists url fileType response before after,
          In url urls /\
          startsWithAnyProtocol url AUTO_DOWNLOAD_TORRENT_FILE_PROTOCOLS = true /\
          events = before ++ AxiosGet url :: after /\
          In (AxiosHead url) before /\
          In (TaskCreate options) after /\
          getReply env (trace w ++ before ++ [AxiosGet url]) = Resolved response /\
          In fileType METADATA_FILE_TYPES /\
          formFile = Laws.fileOf url fileType response /\
          blob_type (content formFile) = mediaType fileType /\
          Js.endsWith (filename formFile) (extension fileType) = true).
Proof.
  cbv zeta.
  destruct (submission_create_position env lib urls path w options Hsent)
    as (resolved & rejected & gets & tail & Hne & Ho & Hevents & _ & _ & Hlen & Hfetched).
  cbv zeta in *. rewrite Hevents.
  assert (Hfile : file options = Laws.filesOf resolved) by (now rewrite Ho).
  assert (Huri : uri options = Laws.urisOf resolved) by (now rewrite Ho).
  rewrite Hfile, Huri.
  assert (Hcount : (List.length (Laws.filesOf resolved) +
                    List.length (Laws.urisOf resolved) = List.length resolved)%nat).
  { clear. unfold Laws.filesOf, Laws.urisOf.
    induction resolved as [|[f|u] rest IH]; simpl; lia. }
  rewrite Forall_forall in Hfetched.
  split; [|split; [lia|split]].
  - destruct resolved as [|[f|u] rest]; [contradiction | left | right];
      cbn; discriminate.
  - intros url Hin. apply in_urisOf in Hin. exact (Hfetched _ Hin).
  - intros formFile Hin. apply in_filesOf in Hin.
    destruct (Hfetched _ Hin)
      as (url & fileType & response & before & after & Hu & Ha & Hp & Hhead & Hget
          & Hft & ->).
    set (opening := Spec.addingNotice urls (idCounter w)) in *.
    set (calls := Laws.createEvents env _ options) in *.
    exists url, fileType, response, (opening :: before), (after ++ calls ++ tail).
    split; [exact Hu|]. split; [exact Ha|]. split.
    { rewrite Hp. cbn [app]. now rewrite <- !app_assoc. }
    split; [now right|]. split.
    { apply in_or_app. right. apply in_or_app. left. subst calls.
      destruct (createEvents_cases
                  env (trace w ++ opening :: Laws.headsOf urls ++ gets) options)
        as [[_ ->]|[_ ->]]; now left. }
    split.
    { rewrite <- Hget. f_equal. cbn [app]. now rewrite <- !app_assoc. }
    split; [exact Hft|]. split; [reflexivity|]. split; [reflexivity|].
    unfold Laws.fileOf. cbn [filename]. apply guessFileName_ends.
Qed.

Lemma create_request_contents_witness :
  let env := Scenario.scriptedEnv Scenario.always [] [] in
  let request :=
    {| file := [ {| content := {| blob_data := "d8:announce";
                                  blob_type := "application/x-bittorrent" |};
                    filename := "y.torrent" |} ];
       uri := ["https://x/big.torrent"];
       destination := None |} in
  (List.length (file request) + List.length (uri request) <= 3)%nat.
Proof.
  intros env request.
  refine (proj1 (proj2 (create_request_contents
                          env Scenario.demoLib
                          ["https://x/y.torrent"; "bogus"; "https://x/big.torrent"]
                          None Scenario.world0 request _))).
  vm_compute. auto 10.
Defined.

(** X7. Polling and creating go together.  A submission that sent a
    create request has, after the events of the create call, the events
    of a poll with its list call and nothing else when the create call
    resolved, and the report of an unexpected error, under the identity
    of its opening notification, and no poll when the create call
    rejected; before the create request there is neither a list call
    nor a create request.  How the create call settles is read off the
    answers of the environment: the first answer, or the second when
    the first is the permission failure.  And a submission never polls
    without having sent a create request. *)
Theorem poll_follows_create
        (env : Env) (lib : Lib) (urls : list string) (path : option string) (w : World) :
  let events := issued w (snd (addDownloadTasksAndPoll env lib urls path w)) in
  (forall options,
      In (TaskCreate options) events ->
      exists before after,
        events = before ++ Laws.createEvents env (trace w ++ before) options ++ after /\
        Forall (fun e => e <> TaskList /\ Laws.isCreate e = false) before /\
        match Laws.createOutcome env (trace w ++ before) options with
        | Resolved _ => Forall Spec.fromPoll after /\ In TaskList after
        | Rejected _ =>
            after = [Spec.unexpectedNotice (idCounter w)] /\ ~ In TaskList events
        end)
  /\
  (forall options at_call,
      fst (doCreateTask env options at_call)
      = Laws.createOutcome env (trace at_call) options)
  /\
  (In TaskList events -> exists options, In (TaskCreate options) events).
Proof.
  cbv zeta. split; [|split].
  - intros options Hin.
    destruct (submission_create_position env lib urls path w options Hin)
      as (resolved & rejected & gets & after & _ & _ & Hevents & Hafter & Hgets & _).
    cbv zeta in *.
    set (opening := Spec.addingNotice urls (idCounter w)) in *.
    assert (Hopening : opening <> TaskList /\ Laws.isCreate opening = false).
    { subst opening. unfold Spec.addingNotice.
      destruct (_ =? _)%nat; split; [discriminate | reflexivity
                                    | discriminate | reflexivity]. }
    assert (Hbefore : Forall (fun e => e <> TaskList /\ Laws.isCreate e = false)
                             (opening :: Laws.headsOf urls ++ gets)).
    { constructor; [exact Hopening|]. apply Forall_forall. intros e He.
      destruct (probes_not_create _ _ _ Hgets He). auto. }
    exists (opening :: Laws.headsOf urls ++ gets), after.
    split; [exact Hevents|]. split; [exact Hbefore|].
    destruct (Laws.createOutcome _ _ _) as [result|e]; [exact Hafter|].
    split; [exact Hafter|]. rewrite Hevents, Hafter.
    intros Hlist. destruct Hlist as [Hlist|Hlist].
    { destruct Hopening as [Hopening _]. now apply Hopening. }
    apply in_app_or in Hlist as [Hlist|Hlist].
    { now destruct (probes_not_create _ _ _ Hgets Hlist). }
    apply in_app_or in Hlist as [Hlist|Hlist].
    + destruct (createEvents_cases
                  env (trace w ++ opening :: Laws.headsOf urls ++ gets) options)
        as [[_ E]|[_ E]]; rewrite E in Hlist; cbn [In] in Hlist;
        intuition discriminate.
    + destruct Hlist as [Hlist|[]]. discriminate.
  - intros options at_call. apply doCreateTask_outcome.
  - intros Hlist.
    destruct urls as [|u urls].
    { rewrite empty_submission_run in Hlist. cbn [snd] in Hlist.
      erewrite issued_app in Hlist by reflexivity.
      destruct Hlist as [H|[]]. discriminate. }
    destruct (submission_run env lib (u :: urls) path w ltac:(discriminate))
      as (resolved & rejected & gets & Hgets & _ & _ & Hnil & Hcons).
    cbv zeta in *.
    assert (Hopening : Spec.addingNotice (u :: urls) (idCounter w) <> TaskList).
    { unfold Spec.addingNotice. destruct (_ =? _)%nat; discriminate. }
    destruct resolved as [|item resolved].
    { rewrite (Hnil eq_refl) in Hlist. destruct Hlist as [H|H]; [contradiction|].
      now destruct (probes_not_create _ _ _ Hgets H). }
    destruct (Hcons ltac:(discriminate)) as (after & Hevents & _).
    eexists. rewrite Hevents. right. apply in_or_app. right. apply in_or_app. left.
    destruct (createEvents_cases
                env (trace w ++ Spec.addingNotice (u :: urls) (idCounter w)
                       :: Laws.headsOf (u :: urls) ++ gets)
                {| file := Laws.filesOf (item :: resolved);
                   uri := Laws.urisOf (item :: resolved);
                   destination := Spec.sentDestination path |})
      as [[_ ->]|[_ ->]]; now left.
Qed.

Lemma poll_follows_create_witness :
  let env := Scenario.scriptedEnv Scenario.always [] [Rejected "socket hang up"] in
  In (Spec.unexpectedNotice 0%nat)
     (issued Scenario.world0
             (snd (addDownloadTasksAndPoll env Scenario.demoLib ["ftp://h/f.iso"] None
                     Scenario.world0))).
Proof.
  intros env.
  destruct (proj1 (poll_follows_create env Scenario.demoLib ["ftp://h/f.iso"] None
                     Scenario.world0)
                  {| file := []; uri := ["ftp://h/f.iso"]; destination := None |})
    as (before & after & Hevents & Hbefore & Hafter).
  - vm_compute. auto.
  - rewrite Hevents. apply in_or_app. right. apply in_or_app. right.
    assert (Hopening : before = [Notify "Adding download..." (Some "ftp://h/f.iso")
                                        None 0%nat]).
    { match type of Hevents with
      | ?l = _ => let v := eval vm_compute in l in change l with v in Hevents
      end.
      destruct before as [|e0 [|e1 rest]].
      - exfalso. vm_compute in Hevents. discriminate Hevents.
      - cbn [app] in Hevents. now injection Hevents as <- _.
      - exfalso. cbn [app] in Hevents. injection Hevents as _ He1 _.
        inversion Hbefore as [|? ? _ Hrest]. inversion Hrest as [|? ? [_ Hcreate] _].
        rewrite <- He1 in Hcreate. discriminate Hcreate. }
    subst before. vm_compute in Hafter. destruct Hafter as [-> _]. now left.
Defined.


(** X8. A submission never rejects its caller: whatever the probes, the
    create call, the storage and the poll do, the returned promise
    resolves.  With an empty list of URLs it does nothing but show one
    failure notification under a fresh identity. *)
Theorem submission_never_rejects
        (env : Env) (lib : Lib) (urls : list string) (path : option string) (w : World) :
  fst (addDownloadTasksAndPoll env lib urls path w) = Resolved tt
  /\ (urls = [] ->
      issued w (snd (addDownloadTasksAndPoll env lib urls path w))
      = [Notify "Failed to add download" (Some "No URL to download given")
                None (idCounter w)]).
Proof.
  destruct urls as [|u urls].
  - rewrite empty_submission_run. split; [reflexivity|].
    intros _. now apply issued_app.
  - destruct (submission_shape env lib (u :: urls) path w ltac:(discriminate))
      as (resolved & rejected & probes & tail & final & E & _).
    rewrite E. split; [reflexivity | discriminate].
Qed.

Lemma submission_never_rejects_witness :
  issued Scenario.world0
         (snd (addDownloadTasksAndPoll (Scenario.scriptedEnv Scenario.always [] [])
                 Scenario.demoLib [] (Some "/downloads") Scenario.world0))
  = [Notify "Failed to add download" (Some "No URL to download given") None 0%nat].
Proof.
  exact (proj2 (submission_never_rejects (Scenario.scriptedEnv Scenario.always [] [])
                  Scenario.demoLib [] (Some "/downloads") Scenario.world0) eq_refl).
Defined.

Lemma resolution_unknown env lib urls w :
  Forall Laws.unknownProtocol urls ->
  exists (rejected : list Error) (w' : World),
    resolveUrls env lib urls w = (Resolved ([], rejected), w') /\
    trace w' = trace w.
Proof.
  intros Hall.
  destruct (resolution_result env lib urls w)
    as (resolved & rejected & probes & w' & E & _ & Ht & _ & _ & _ & _ & _ & Hsilent).
  destruct (Hsilent Hall) as [-> ->].
  exists rejected, w'. split; [exact E|]. now rewrite Ht, app_nil_r.
Qed.

(** X9. A submission none of whose URLs resolves is silent.  If no URL
    starts with a known protocol, the opening notification is the only
    event: nothing is probed, nothing is sent, nothing is polled and no
    failure is reported.  More generally, a run that sends no create
    request consists of the opening notification and probes only. *)
Theorem unresolved_submission_is_silent
        (env : Env) (lib : Lib) (urls : list string) (path : option string) (w : World)
        (Hne : urls <> []) :
  let events := issued w (snd (addDownloadTasksAndPoll env lib urls path w)) in
  (Forall Laws.unknownProtocol urls ->
   events = [Spec.addingNotice urls (idCounter w)])
  /\
  ((forall options, ~ In (TaskCreate options) events) ->
   exists probes,
     events = Spec.addingNotice urls (idCounter w) :: probes /\
     Forall Spec.isProbe probes).
Proof.
  intros events. subst events. split.
  - intros Hall.
    unfold addDownloadTasksAndPoll.
    destruct urls as [|u urls]; [contradiction|].
    change (0 <? List.length (u :: urls))%nat with true. cbv iota.
    set (first := Spec.addingNotice (u :: urls) (idCounter w)).
    set (w1 := {| trace := trace w ++ [first]; store := store w;
                  ticks := ticks w; idCounter := S (idCounter w) |}).
    assert (E1 : (if (List.length (u :: urls) =? 1)%nat
                  then notify "Adding download..." (nth_error (u :: urls) 0) None
                  else notify ("Adding " ++ Js.showNat (List.length (u :: urls)) ++
                               " downloads...")%string None None) w
                 = (Resolved (idCounter w), w1)).
    { subst w1 first. unfold Spec.addingNotice.
      destruct (List.length (u :: urls) =? 1)%nat; reflexivity. }
    unfold bind at 1. rewrite E1. unfold catch, submitAttempt, bind.
    destruct (resolution_unknown env lib (u :: urls) w1 Hall) as (rejected & w2 & E2 & Ht2).
    rewrite E2. cbn [List.length Nat.eqb ret snd].
    apply issued_app. rewrite Ht2. reflexivity.
  - intros Hnone.
    destruct (submission_shape env lib urls path w Hne)
      as (resolved & rejected & probes & tail & final & E & Ht & Hp & _ & _ & Hnil & Hcons).
    rewrite E in Hnone |- *. cbn [snd] in *.
    rewrite (issued_app _ _ _ Ht) in Hnone |- *.
    exists probes. split; [|exact Hp].
    destruct resolved as [|item resolved].
    + now rewrite (Hnil eq_refl), app_nil_r.
    + exfalso.
      destruct (Hcons ltac:(discriminate)) as (calls & after & -> & Hcalls & _).
      eapply Hnone. right. apply in_or_app. right. apply in_or_app. left.
      destruct Hcalls as [->| ->]; now left.
Qed.

Lemma unresolved_submission_is_silent_witness :
  issued Scenario.world0
         (snd (addDownloadTasksAndPoll (Scenario.scriptedEnv Scenario.always [] [])
                 Scenario.demoLib ["HTTP://x/a.torrent"; "mailto:a@b"] None
                 Scenario.world0))
  = [Notify "Adding 2 downloads..." None None 0%nat].
Proof.
  refine (proj1 (unresolved_submission_is_silent
                   (Scenario.scriptedEnv Scenario.always [] []) Scenario.demoLib
                   ["HTTP://x/a.torrent"; "mailto:a@b"] None Scenario.world0 _) _).
  - discriminate.
  - repeat constructor.
Defined.

Lemma filter_create_none (P : Event -> Prop) (l : list Event) :
  (forall e, P e -> Laws.isCreate e = false) -> Forall P l ->
  filter Laws.isCreate l = [].
Proof.
  intros HP Hl. apply filter_none. eapply Forall_impl; eauto.
Qed.

(** X10. Batching: however many URLs are submitted, a submission builds
    at most one create request.  It is sent twice, with a logout in
    between, exactly when the first answer to it is the permission
    failure, and once otherwise; never more. *)
Theorem one_batched_create_request
        (env : Env) (lib : Lib) (urls : list string) (path : option string) (w : World) :
  let events := issued w (snd (addDownloadTasksAndPoll env lib urls path w)) in
  let creates := filter Laws.isCreate events in
  creates = [] \/
  exists options before after,
    events = before ++ TaskCreate options :: after /\
    filter Laws.isCreate before = [] /\
    if Laws.isPermissionFailure (Laws.firstCreateAnswer env (trace w ++ before) options)
    then creates = [TaskCreate options; TaskCreate options] /\
         exists rest, after = AuthLogout :: TaskCreate options :: rest
    else creates = [TaskCreate options].
Proof.
  cbv zeta.
  destruct urls as [|u urls].
  { left. rewrite empty_submission_run. cbn [snd].
    erewrite issued_app by reflexivity. reflexivity. }
  destruct (submission_run env lib (u :: urls) path w ltac:(discriminate))
    as (resolved & rejected & gets & Hgets & _ & _ & Hnil & Hcons).
  cbv zeta in *.
  set (opening := Spec.addingNotice (u :: urls) (idCounter w)) in *.
  assert (Hbefore : filter Laws.isCreate (opening :: Laws.headsOf (u :: urls) ++ gets) = []).
  { apply filter_none. constructor.
    - subst opening. unfold Spec.addingNotice. now destruct (_ =? _)%nat.
    - apply Forall_forall. intros e He.
      now destruct (probes_not_create _ _ _ Hgets He). }
  destruct resolved as [|item resolved].
  { left. now rewrite (Hnil eq_refl). }
  right. destruct (Hcons ltac:(discriminate)) as (after & Hevents & Hafter).
  set (o := {| file := Laws.filesOf (item :: resolved);
               uri := Laws.urisOf (item :: resolved);
               destination := Spec.sentDestination path |}) in *.
  set (history := trace w ++ opening :: Laws.headsOf (u :: urls) ++ gets) in *.
  assert (Hafter' : filter Laws.isCreate after = []).
  { destruct (Laws.createOutcome env history o).
    - destruct Hafter as [Hpoll _].
      apply (filter_create_none Spec.fromPoll); [now intros []|exact Hpoll].
    - now rewrite Hafter. }
  rewrite Hevents.
  change (opening :: (Laws.headsOf (u :: urls) ++ gets)
                  ++ Laws.createEvents env history o ++ after)
    with ((opening :: Laws.headsOf (u :: urls) ++ gets)
            ++ Laws.createEvents env history o ++ after).
  rewrite !filter_app, Hbefore, Hafter', app_nil_r. cbn [app].
  destruct (createEvents_cases env history o) as [[Hp E]|[Hp E]]; rewrite E.
  - exists o, (opening :: Laws.headsOf (u :: urls) ++ gets), after.
    split; [reflexivity|]. split; [exact Hbefore|].
    fold history. now rewrite Hp.
  - exists o, (opening :: Laws.headsOf (u :: urls) ++ gets),
      (AuthLogout :: TaskCreate o :: after).
    split; [reflexivity|]. split; [exact Hbefore|].
    fold history. rewrite Hp. split; [reflexivity | eauto].
Qed.


(** ** More on the poll coordinator *)

Section MorePollFacts.

Variable env : Env.
Variable lib : Lib.

Lemma storage_local_set_cases p w :
  let r := fst (storage_local_set env p w) in
  let w' := snd (storage_local_set env p w) in
  trace w' = trace w ++ [StorageSet p] /\ ticks w' = ticks w /\
  idCounter w' = idCounter w /\
  ((r = Resolved tt /\ store w' = merge (store w) p) \/
   ((exists e, r = Rejected e) /\ store w' = store w)).
Proof.
  cbv zeta. unfold storage_local_set.
  destruct (storageCommits env _); cbn; repeat split; eauto.
Qed.

(** The cache a poll leaves behind: untouched, with the initiation time
    only, or with the initiation time and the classified result. *)
Lemma pollTasks_store w :
  let t0 := clock env (ticks w) in
  let t1 := clock env (S (ticks w)) in
  let w' := snd (pollTasks env lib w) in
  store w' = store w \/
  store w' = merge (store w) (Spec.initWrite t0) \/
  exists response,
    store w' = merge (merge (store w) (Spec.initWrite t0))
                     (Spec.resultWrite lib response t1) /\
    In (StorageSet (Spec.resultWrite lib response t1)) (issued w w').
Proof.
  intros t0 t1. unfold pollTasks, bind, catch. cbn [Date_now fst snd].
  set (w0 := {| trace := trace w ++ [DateNow (clock env (ticks w))];
                store := store w; ticks := S (ticks w);
                idCounter := idCounter w |}).
  fold t0.
  destruct (storage_local_set_cases (Spec.initWrite t0) w0) as (Ht1 & Hk1 & _ & Hc1).
  destruct (doTaskPoll_frame env (snd (storage_local_set env (Spec.initWrite t0) w0)))
    as (Hs2 & Hk2 & _ & calls & Ht2 & _).
  destruct (storage_local_set env (Spec.initWrite t0) w0) as [r1 w1] eqn:E1.
  cbn [snd fst] in *.
  destruct (doTaskPoll env tt w1) as [r2 w2] eqn:E2.
  cbn [snd fst] in *.
  assert (Hw1 : store w1 = store w \/ store w1 = merge (store w) (Spec.initWrite t0)).
  { destruct Hc1 as [[_ H]|[_ H]]; [right | left]; exact H. }
  destruct r1 as [[]|e1]; [destruct r2 as [response|e2]|].
  - destruct Hc1 as [[_ Hc1]|[(e & He) _]]; [|discriminate].
    destruct (pollAttempt_resolved env lib t0 w0 w1 response w2 E1 E2) as (c & -> & Hc).
    destruct (setCachedTasksResponse_run env c w2) as (Ht3 & _ & _ & Hs3).
    rewrite Hc in Ht3, Hs3.
    replace (clock env (ticks w2)) with t1 in Ht3, Hs3
      by (unfold t1; rewrite Hk2, Hk1; reflexivity).
    destruct (setCachedTasksResponse env c w2) as [r3 w3]. cbn [fst snd] in *.
    assert (Hfinal : snd match r3 with
                         | Resolved a => (Resolved a, w3)
                         | Rejected _ => ret tt w3
                         end = w3) by (now destruct r3).
    rewrite Hfinal.
    destruct (storageCommits env (trace w3)).
    + right. right. exists response. destruct Hs3 as [_ ->].
      split; [now rewrite Hs2, Hc1|].
      erewrite issued_app.
      2:{ rewrite Ht3, Ht2, Ht1. subst w0. cbn [trace].
          rewrite <- !app_assoc. reflexivity. }
      apply in_or_app. right. apply in_or_app. right. apply in_or_app. right.
      right. now left.
    + right. left. destruct Hs3 as [_ ->]. now rewrite Hs2, Hc1.
  - destruct (pollAttempt_rejected_early env lib t0 w0) as (e & ->).
    { rewrite E1. cbn [fst snd]. rewrite E2. cbn [fst]. discriminate. }
    rewrite E1. cbn [snd]. rewrite E2. cbn [snd ret]. rewrite Hs2.
    destruct Hw1; auto.
  - destruct (pollAttempt_rejected_early env lib t0 w0) as (e & ->).
    { rewrite E1. cbn [fst]. discriminate. }
    rewrite E1. cbn [snd]. rewrite E2. cbn [snd ret]. rewrite Hs2.
    destruct Hw1; auto.
Qed.

End MorePollFacts.

(** X11. Write discipline of a poll.  Every invocation reads the clock,
    issues its initiation write and calls the task list, in that order;
    it issues exactly one initiation write and at most one result
    write, calls the task list once or twice, and issues nothing but
    clock readings, cache writes, list calls and a logout. *)
Theorem poll_write_discipline (env : Env) (lib : Lib) (w : World) :
  let t0 := clock env (ticks w) in
  let t1 := clock env (S (ticks w)) in
  let events := issued w (snd (pollTasks env lib w)) in
  (exists rest,
      events = DateNow t0 :: StorageSet (Spec.initWrite t0) :: TaskList :: rest)
  /\ (filter Laws.isWrite events = [StorageSet (Spec.initWrite t0)] \/
      exists response,
        filter Laws.isWrite events
        = [StorageSet (Spec.initWrite t0);
           StorageSet (Spec.resultWrite lib response t1)])
  /\ (filter Laws.isTaskListCall events = [TaskList] \/
      filter Laws.isTaskListCall events = [TaskList; TaskList])
  /\ Forall Spec.fromPoll events.
Proof.
  intros t0 t1 events. subst events.
  destruct (pollTasks_summary env lib w) as (_ & _ & calls & tail & Ht & Hc & Htail).
  fold t0 t1 in Ht, Htail.
  rewrite (issued_app _ _ _ Ht).
  split; [|split; [|split]].
  - destruct Hc as [->| ->]; eexists; reflexivity.
  - destruct Hc as [->| ->]; destruct Htail as [->|(response & ->)]; cbn; eauto.
  - destruct Hc as [->| ->]; destruct Htail as [->|(response & ->)]; cbn; eauto.
  - repeat constructor. apply Forall_app. split.
    + destruct Hc as [->| ->]; repeat constructor.
    + destruct Htail as [->|(response & ->)]; repeat constructor.
Qed.

(** The cache after a poll whose three steps all went through. *)
Lemma completed_poll_store env lib w w1 w2 response :
  storage_local_set env (Spec.initWrite (clock env (ticks w)))
                    (snd (Date_now env w)) = (Resolved tt, w1) ->
  doTaskPoll env tt w1 = (Resolved response, w2) ->
  storageCommits env (trace (snd (pollTasks env lib w))) = true ->
  store (snd (pollTasks env lib w))
  = merge (merge (store w) (Spec.initWrite (clock env (ticks w))))
          (Spec.resultWrite lib response (clock env (S (ticks w)))).
Proof.
  intros Hinit Hcall Hcommit.
  destruct (pollAttempt_resolved env lib _ _ _ _ _ Hinit Hcall) as (c & Ec & Hc).
  destruct (setCachedTasksResponse_run env c w2) as (_ & _ & _ & Hs).
  rewrite Hc in Hs.
  assert (Hk : ticks w2 = S (ticks w)).
  { destruct (doTaskPoll_frame env w1) as (_ & Hk2 & _). rewrite Hcall in Hk2.
    cbn [snd] in Hk2. apply storage_local_set_resolved in Hinit as [_ Hk1].
    rewrite Hk2, Hk1. reflexivity. }
  rewrite Hk in Hs.
  assert (Ew : snd (pollTasks env lib w) = snd (setCachedTasksResponse env c w2)).
  { unfold pollTasks, bind, catch. cbn [Date_now fst snd] in *. rewrite Ec.
    now destruct (setCachedTasksResponse env c w2) as [[[]|e] w3]. }
  rewrite <- Ew in Hs. rewrite Hcommit in Hs. destruct Hs as [_ ->].
  destruct (doTaskPoll_frame env w1) as (Hs2 & _). rewrite Hcall in Hs2. cbn [snd] in Hs2.
  apply storage_local_set_resolved in Hinit as [Hs1 _].
  now rewrite Hs2, Hs1.
Qed.






(** ** Protocols, queries and path segments *)

(** X15. The protocol test is a test on the scheme: for protocol names
    without a colon, a URL starts with one of them followed by a colon
    exactly when its scheme, the text before its first colon, is one of
    them, compared case-sensitively.  Moreover every URL the pipeline
    probes is downloadable, so a probed URL that comes back bare is
    never rejected as unknown. *)
Theorem protocol_test_is_scheme_test
        (url : string) (protocols : list string)
        (Hcolon : Forall (fun p => Laws.noChar ":" p = true) protocols) :
  (startsWithAnyProtocol url protocols = true <->
   exists p, In p protocols /\ Spec.scheme url = Some p)
  /\
  (startsWithAnyProtocol url AUTO_DOWNLOAD_TORRENT_FILE_PROTOCOLS = true ->
   startsWithAnyProtocol url DOWNLOADABLE_PROTOCOLS = true).
Proof.
  split.
  - unfold startsWithAnyProtocol. rewrite existsb_exists.
    rewrite Forall_forall in Hcolon. split.
    + intros (p & Hin & H). exists p. split; [exact Hin|].
      apply startsWith_scheme; [|exact H]. exact (Hcolon p Hin).
    + intros (p & Hin & H). exists p. split; [exact Hin|].
      now apply scheme_startsWith.
  - rewrite autoFetch_spec. unfold startsWithAnyProtocol, DOWNLOADABLE_PROTOCOLS.
    cbn [existsb append]. intros H.
    apply orb_true_iff in H as [-> | ->]; [reflexivity|].
    now rewrite orb_true_r.
Qed.

Lemma protocol_test_is_scheme_test_witness :
  startsWithAnyProtocol "HTTPS://x/a" DOWNLOADABLE_PROTOCOLS = false.
Proof.
  destruct (startsWithAnyProtocol "HTTPS://x/a" DOWNLOADABLE_PROTOCOLS) eqn:E;
    [|reflexivity].
  assert (Hcolon : Forall (fun p => Laws.noChar ":" p = true) DOWNLOADABLE_PROTOCOLS)
    by (repeat constructor).
  apply (proj1 (protocol_test_is_scheme_test "HTTPS://x/a" DOWNLOADABLE_PROTOCOLS Hcolon))
    in E.
  destruct E as (p & Hin & Hs). vm_compute in Hs. injection Hs as <-.
  vm_compute in Hin. intuition discriminate.
Defined.

Lemma append_empty_r (s : string) : (s ++ "")%string = s.
Proof. induction s as [|c s IH]; cbn; [reflexivity | now rewrite IH]. Qed.

Lemma index_qmark_cons (c : ascii) (s : string) :
  String.index 0 "?" (String c s)
  = if Ascii.eqb c "?" then Some 0%nat
    else option_map S (String.index 0 "?" s).
Proof.
  cbn [String.index]. rewrite prefix_cons, prefix_nil.
  rewrite Ascii.eqb_sym.
  destruct (Ascii.eqb c "?"); [reflexivity|].
  now destruct (String.index 0 "?" s).
Qed.

Lemma indexOf_qmark_absent (s : string) :
  Js.indexOf s "?" = -1 <-> Laws.noChar "?" s = true.
Proof.
  unfold Js.indexOf, Laws.noChar.
  induction s as [|c s IH].
  - cbn. tauto.
  - rewrite index_qmark_cons. cbn [Js.allChars].
    destruct (Ascii.eqb c "?"); cbn [negb andb].
    + split; [lia | discriminate].
    + destruct (String.index 0 "?" s) as [n|]; cbn [option_map] in *.
      * split; [lia|]. intros H. apply IH in H. lia.
      * split; [intros _; now apply IH | reflexivity].
Qed.

(** X16. Cutting the query off a URL: the result is the part of the URL
    before its first question mark, so it is a prefix of the URL and
    holds no question mark; a URL without one is returned as it is; and
    cutting twice is cutting once. *)
Theorem urlWithoutQuery_cuts (url : string) :
  (exists rest, url = (urlWithoutQuery url ++ rest)%string
                /\ (rest = "" \/ exists tail, rest = String "?" tail))
  /\ Laws.noChar "?" (urlWithoutQuery url) = true
  /\ (Laws.noChar "?" url = true -> urlWithoutQuery url = url)
  /\ urlWithoutQuery (urlWithoutQuery url) = urlWithoutQuery url.
Proof.
  assert (Hcut : forall s,
             (exists rest, s = (urlWithoutQuery s ++ rest)%string
                           /\ (rest = "" \/ exists tail, rest = String "?" tail))
             /\ Laws.noChar "?" (urlWithoutQuery s) = true).
  { intros s. unfold urlWithoutQuery, Js.indexOf, Js.sliceTo, Laws.noChar.
    induction s as [|c s IH].
    - cbn. split; [exists ""; auto | reflexivity].
    - rewrite index_qmark_cons.
      destruct (Ascii.eqb_spec c "?") as [->|Hc].
      + cbn. split; [exists (String "?" s); eauto | reflexivity].
      + destruct (String.index 0 "?" s) as [n|] eqn:E; cbn [option_map].
        * replace (negb (Z.of_nat (S n) =? -1)) with true
            by (symmetry; apply negb_true_iff, Z.eqb_neq; lia).
          replace (negb (Z.of_nat n =? -1)) with true in IH
            by (symmetry; apply negb_true_iff, Z.eqb_neq; lia).
          rewrite Nat2Z.id in *. cbn [String.substring Js.allChars].
          destruct IH as ((rest & Hrest & Hshape) & Hno).
          split.
          -- exists rest. cbn [append]. split; [now rewrite <- Hrest | exact Hshape].
          -- apply Ascii.eqb_neq in Hc. now rewrite Hc.
        * change (-1 =? -1) with true in *. cbn [negb] in *.
          destruct IH as (_ & Hno).
          split; [exists ""; split; [now rewrite append_empty_r | auto]|].
          cbn [Js.allChars]. apply Ascii.eqb_neq in Hc. now rewrite Hc, Hno. }
  assert (Hid : forall s, Laws.noChar "?" s = true -> urlWithoutQuery s = s).
  { intros s H. apply indexOf_qmark_absent in H.
    unfold urlWithoutQuery. now rewrite H. }
  destruct (Hcut url) as [Hpre Hno].
  repeat split; auto.
Qed.


Lemma noChar_append (c : ascii) (s t : string) :
  Laws.noChar c (s ++ t) = Laws.noChar c s && Laws.noChar c t.
Proof.
  unfold Laws.noChar. induction s as [|d s IH]; cbn; [reflexivity|].
  now rewrite IH, andb_assoc.
Qed.

(** Where the last occurrence of a character is: either there is none
    and the accumulator comes back, or what follows the position
    found is free of the character. *)
Lemma lastIndexOfFrom_spec (c : ascii) (s : string) :
  forall i acc, 0 <= i -> acc < i ->
    (Js.lastIndexOfFrom c s i acc = acc /\ Laws.noChar c s = true)
    \/
    (i <= Js.lastIndexOfFrom c s i acc < i + Z.of_nat (String.length s) /\
     Laws.noChar c (Js.sliceFrom (Z.to_nat (Js.lastIndexOfFrom c s i acc - i + 1)) s)
     = true).
Proof.
  induction s as [|d s IH]; intros i acc Hi Hacc.
  - left. split; reflexivity.
  - cbn [Js.lastIndexOfFrom String.length].
    destruct (Ascii.eqb d c) eqn:Hd.
    + destruct (IH (i + 1) i ltac:(lia) ltac:(lia)) as [[Hr Hno] | [Hr Hno]].
      * right. rewrite Hr. split; [lia|].
        replace (i - i + 1) with 1 by lia. exact Hno.
      * right. split; [lia|].
        set (r := Js.lastIndexOfFrom c s (i + 1) i) in *.
        replace (Z.to_nat (r - i + 1)) with (S (Z.to_nat (r - (i + 1) + 1))) by lia.
        exact Hno.
    + destruct (IH (i + 1) acc ltac:(lia) ltac:(lia)) as [[Hr Hno] | [Hr Hno]].
      * left. split; [exact Hr|].
        unfold Laws.noChar in *. cbn [Js.allChars]. now rewrite Hd, Hno.
      * right. split; [lia|].
        set (r := Js.lastIndexOfFrom c s (i + 1) acc) in *.
        replace (Z.to_nat (r - i + 1)) with (S (Z.to_nat (r - (i + 1) + 1))) by lia.
        exact Hno.
Qed.

Lemma sliceFrom_suffix (n : nat) (s : string) :
  exists before, s = (before ++ Js.sliceFrom n s)%string
                 /\ String.length before = Nat.min n (String.length s).
Proof.
  revert s. induction n as [|n IH]; intros s.
  - exists "". split; reflexivity.
  - destruct s as [|c s].
    + exists "". split; reflexivity.
    + destruct (IH s) as (before & Hs & Hlen).
      exists (String c before). cbn. split; [now rewrite <- Hs | now rewrite Hlen].
Qed.

Lemma lastSegment_clean (url : string) :
  Laws.noChar "/" (Spec.lastSegment url) = true.
Proof.
  unfold Spec.lastSegment, Js.lastIndexOf.
  destruct (lastIndexOfFrom_spec "/" url 0 (-1) ltac:(lia) ltac:(lia))
    as [[Hr Hno] | [Hr Hno]].
  - rewrite Hr. exact Hno.
  - now rewrite Z.sub_0_r in Hno.
Qed.

Lemma withExtension_cases (name ext : string) :
  Spec.withExtension name ext = name
  \/ Spec.withExtension name ext = (name ++ ext)%string.
Proof. unfold Spec.withExtension. destruct (Js.endsWith name ext); auto. Qed.

(** X17. The guessed file name.  The last path segment of a URL is a
    suffix of the URL that holds no slash, and is the whole URL when
    the URL holds none.  A name guessed without a Content-Disposition
    header holds no slash (for an extension without one), so it is a
    bare file name and not a path; and whatever the headers say, the
    guessed name is never empty. *)
Theorem guessed_name_is_a_file_name
        (url : string) (headers : Headers) (fileType : MetadataFileType) :
  (exists before, url = (before ++ Spec.lastSegment url)%string)
  /\ Laws.noChar "/" (Spec.lastSegment url) = true
  /\ (Laws.noChar "/" url = true -> Spec.lastSegment url = url)
  /\ (header headers "content-disposition" = None ->
      Laws.noChar "/" (extension fileType) = true ->
      Laws.noChar "/" (guessFileName url headers fileType) = true)
  /\ guessFileName url headers fileType <> "".
Proof.
  split; [|split; [|split; [|split]]].
  - destruct (sliceFrom_suffix (Z.to_nat (Js.lastIndexOf url "/" + 1)) url)
      as (before & H & _).
    now exists before.
  - apply lastSegment_clean.
  - intros Hno. unfold Spec.lastSegment, Js.lastIndexOf.
    assert (H : forall s i acc, Laws.noChar "/" s = true ->
                                Js.lastIndexOfFrom "/" s i acc = acc).
    { clear. induction s as [|d s IH]; intros i acc H; [reflexivity|].
      unfold Laws.noChar in H. cbn [Js.allChars] in H.
      apply andb_true_iff in H as [Hd Hs]. apply negb_true_iff in Hd.
      cbn [Js.lastIndexOfFrom]. rewrite Hd. now apply IH. }
    now rewrite H.
  - intros Hheader Hext.
    change (guessFileName url headers fileType)
      with (Spec.withExtension
              (match maybeFilename url headers with
               | None | Some EmptyString => "download"
               | Some n => n
               end) (extension fileType)).
    unfold maybeFilename. rewrite Hheader.
    fold (Spec.lastSegment url).
    assert (Hname : Laws.noChar "/"
                      (match Spec.lastSegment url with
                       | EmptyString => "download"
                       | n => n
                       end) = true).
    { pose proof (lastSegment_clean url) as H.
      destruct (Spec.lastSegment url); [reflexivity | exact H]. }
    destruct (Spec.lastSegment url) as [|c rest] eqn:E.
    + destruct (withExtension_cases "download" (extension fileType)) as [-> | ->];
        [reflexivity|]. now rewrite noChar_append, Hext.
    + destruct (withExtension_cases (String c rest) (extension fileType))
        as [-> | ->]; [exact Hname|]. now rewrite noChar_append, Hname, Hext.
  - change (guessFileName url headers fileType)
      with (Spec.withExtension
              (match maybeFilename url headers with
               | None | Some EmptyString => "download"
               | Some n => n
               end) (extension fileType)).
    set (name := match maybeFilename url headers with
                 | None | Some EmptyString => "download"
                 | Some n => n
                 end).
    assert (Hname : name <> "").
    { subst name. destruct (maybeFilename url headers) as [[|c n]|]; discriminate. }
    destruct (withExtension_cases name (extension fileType)) as [-> | ->];
      [exact Hname|].
    destruct name; [contradiction | discriminate].
Qed.


(** ** The change handler: timers, badge and the completion decision *)

Lemma isEqual_eq (a b : Handler.NotificationSettings) :
  Handler.isEqual a (Some b) = true -> a = b.
Proof.
  destruct a as [a1 a2 a3], b as [b1 b2 b3]. cbn.
  rewrite !andb_true_iff. intros [[H1 H2] H3].
  apply Bool.eqb_prop in H1, H2. apply Z.eqb_eq in H3. now subst.
Qed.

Lemma isEqual_refl (a : Handler.NotificationSettings) :
  Handler.isEqual a (Some a) = true.
Proof.
  destruct a as [a1 a2 a3]. cbn.
  now rewrite !Bool.eqb_reflx, Z.eqb_refl.
Qed.

Lemma reconcileTimers_snapshot (n : Handler.NotificationSettings) (s : Handler.State) :
  Handler.lastNotificationSettings (Handler.reconcileTimers n s) = Some n.
Proof.
  unfold Handler.reconcileTimers.
  destruct (Handler.isEqual n (Handler.lastNotificationSettings s)) eqn:E; cbn [negb].
  - destruct (Handler.lastNotificationSettings s) as [m|]; [|discriminate].
    now rewrite (isEqual_eq n m E).
  - now destruct (Handler.enableCompletionNotifications n).
Qed.

Lemma reconcileTimers_same (n : Handler.NotificationSettings) (s : Handler.State) :
  Handler.lastNotificationSettings s = Some n -> Handler.reconcileTimers n s = s.
Proof.
  intros H. unfold Handler.reconcileTimers. now rewrite H, isEqual_refl.
Qed.

(** Cancelling the remembered timer leaves exactly the timers the page
    had before the script was loaded. *)
Lemma clearInterval_own (t0 : Handler.Timers) (s : Handler.State) :
  Handler.wellFormed t0 -> Handler.reconciled t0 s ->
  Handler.live (Handler.clearInterval (Handler.notificationInterval s) (Handler.timers s))
  = Handler.live t0.
Proof.
  intros Hwf (Hle & Hid & own & Hlive & Hown).
  unfold Handler.ownTimers in Hown.
  destruct (Handler.notificationInterval s) as [id|] eqn:En; cbn.
  - rewrite Hlive, filter_app.
    assert (Hforeign : filter (fun timer => negb (fst timer =? id)%nat) (Handler.live t0)
                       = Handler.live t0).
    { specialize (Hid id eq_refl). unfold Handler.wellFormed in Hwf.
      revert Hwf. generalize (Handler.live t0) as l.
      induction l as [|timer rest IH]; intros Hwf; [reflexivity|].
      inversion Hwf as [|? ? Htimer Hrest]; subst.
      cbn [filter]. replace (fst timer =? id)%nat with false
        by (symmetry; apply Nat.eqb_neq; lia).
      cbn [negb]. now rewrite IH. }
    rewrite Hforeign.
    destruct (Handler.lastNotificationSettings s) as [m|].
    + destruct (Handler.enableCompletionNotifications m).
      * destruct Hown as (id' & Hid' & ->). injection Hid' as <-.
        cbn. now rewrite Nat.eqb_refl.
      * now subst own.
    + destruct Hown as [-> _]. reflexivity.
  - rewrite Hlive.
    destruct (Handler.lastNotificationSettings s) as [m|].
    + destruct (Handler.enableCompletionNotifications m).
      * destruct Hown as (id' & Hid' & _). discriminate.
      * now subst own.
    + destruct Hown as [-> _]. reflexivity.
Qed.

Lemma reconcileTimers_reconciled (t0 : Handler.Timers)
      (n : Handler.NotificationSettings) (s : Handler.State) :
  Handler.wellFormed t0 -> Handler.reconciled t0 s ->
  Handler.reconciled t0 (Handler.reconcileTimers n s).
Proof.
  intros Hwf Hinv. pose proof (clearInterval_own t0 s Hwf Hinv) as Hclear.
  pose proof Hinv as (Hle & Hid & _).
  unfold Handler.reconcileTimers.
  destruct (Handler.isEqual n (Handler.lastNotificationSettings s)); cbn [negb];
    [exact Hinv|].
  assert (Hout : Handler.handedOut
                   (Handler.clearInterval (Handler.notificationInterval s)
                                          (Handler.timers s))
                 = Handler.handedOut (Handler.timers s))
    by (now destruct (Handler.notificationInterval s)).
  destruct (Handler.enableCompletionNotifications n) eqn:En.
  - unfold Handler.setInterval, Handler.reconciled, Handler.ownTimers.
    cbn. rewrite Hout, Hclear, En. split; [lia|]. split.
    + intros id H. injection H as <-. lia.
    + exists [(S (Handler.handedOut (Handler.timers s)),
               Handler.completionPollingInterval n * 1000)].
      split; [reflexivity|]. eexists. split; reflexivity.
  - unfold Handler.reconciled, Handler.ownTimers. cbn. rewrite Hout, Hclear, En.
    split; [exact Hle|]. split; [exact Hid|].
    now exists [].
Qed.

Section HandlerFacts.

Variable VisibleTaskSettings : Type.
Variable filterTasks :
  list DownloadStationTask -> VisibleTaskSettings -> list DownloadStationTask.
Variable START_TIME : Z.

Let handle := Handler.handle VisibleTaskSettings filterTasks START_TIME.
Let runHandler := Handler.run VisibleTaskSettings filterTasks START_TIME.

(** The handler touches the timers and the snapshot of the settings
    through the reconciliation only, and the finished ids through the
    completion decision only. *)
Lemma handle_frame (d : Handler.Delivery VisibleTaskSettings) (s : Handler.State) :
  let s1 := Handler.reconcileTimers (Handler.notifications (Handler.settings d)) s in
  let s' := snd (handle d s) in
  Handler.timers s' = Handler.timers s1 /\
  Handler.notificationInterval s' = Handler.notificationInterval s1 /\
  Handler.lastNotificationSettings s' = Handler.lastNotificationSettings s1 /\
  Handler.showNonErrorNotifications s'
  = Handler.enableFeedbackNotifications (Handler.notifications (Handler.settings d)) /\
  Handler.finishedTaskIds s1 = Handler.finishedTaskIds s.
Proof.
  cbv zeta. subst handle. unfold Handler.handle.
  destruct (Handler.badge VisibleTaskSettings filterTasks d) as [ops [|]].
  - destruct (Background.onStoredStateChange _ _ _) as [notices ids]. cbn.
    repeat split. unfold Handler.reconcileTimers.
    destruct (negb _); [|reflexivity].
    destruct (Handler.enableCompletionNotifications _); reflexivity.
  - cbn. repeat split. unfold Handler.reconcileTimers.
    destruct (negb _); [|reflexivity].
    destruct (Handler.enableCompletionNotifications _); reflexivity.
Qed.

Lemma handle_reconciled (t0 : Handler.Timers)
      (d : Handler.Delivery VisibleTaskSettings) (s : Handler.State) :
  Handler.wellFormed t0 -> Handler.reconciled t0 s ->
  Handler.reconciled t0 (snd (handle d s)).
Proof.
  intros Hwf Hinv.
  pose proof (reconcileTimers_reconciled
                t0 (Handler.notifications (Handler.settings d)) s Hwf Hinv) as H.
  destruct (handle_frame d s) as (Ht & Hn & Hl & _).
  unfold Handler.reconciled, Handler.ownTimers in *.
  rewrite Ht, Hn, Hl. exact H.
Qed.

Lemma runHandler_last (deliveries : list (Handler.Delivery VisibleTaskSettings))
      (d : Handler.Delivery VisibleTaskSettings) (s : Handler.State) :
  snd (runHandler (deliveries ++ [d]) s) = snd (handle d (snd (runHandler deliveries s))).
Proof.
  subst runHandler handle. revert s.
  induction deliveries as [|d0 rest IH]; intros s; cbn [app Handler.run snd].
  - destruct (Handler.handle _ _ _ d s) as [e1 s1]. reflexivity.
  - destruct (Handler.handle _ _ _ d0 s) as [e1 s1].
    specialize (IH s1).
    destruct (Handler.run _ _ _ (rest ++ [d]) s1) as [e2 s2].
    destruct (Handler.run _ _ _ rest s1) as [e3 s3].
    exact IH.
Qed.

Lemma runHandler_reconciled (t0 : Handler.Timers)
      (deliveries : list (Handler.Delivery VisibleTaskSettings)) (s : Handler.State) :
  Handler.wellFormed t0 -> Handler.reconciled t0 s ->
  Handler.reconciled t0 (snd (runHandler deliveries s)).
Proof.
  intros Hwf. subst runHandler. revert s.
  induction deliveries as [|d rest IH]; intros s Hinv; cbn [Handler.run].
  - exact Hinv.
  - pose proof (handle_reconciled t0 d s Hwf Hinv) as H1. subst handle.
    destruct (Handler.handle _ _ _ d s) as [e1 s1]. cbn [snd] in H1.
    specialize (IH s1 H1).
    destruct (Handler.run _ _ _ rest s1) as [e2 s2]. exact IH.
Qed.

(** X18. The periodic poll follows the notification settings.  Start
    the script on a page whose timers are in order and deliver any
    sequence of stored states.  Afterwards the remembered settings are
    the ones delivered last; the timers the page had are all still
    live; and beside them the handler has one timer when the last
    settings enable completion notifications, with the period of their
    polling interval in milliseconds and under the remembered id, and
    none when they do not. *)
Theorem periodic_poll_follows_settings
        (t0 : Handler.Timers)
        (deliveries : list (Handler.Delivery VisibleTaskSettings))
        (latest : Handler.Delivery VisibleTaskSettings)
        (Hwf : Handler.wellFormed t0) :
  let s := snd (Handler.run VisibleTaskSettings filterTasks START_TIME
                            (deliveries ++ [latest]) (Handler.loaded t0)) in
  let n := Handler.notifications (Handler.settings latest) in
  Handler.lastNotificationSettings s = Some n /\
  exists own,
    Handler.live (Handler.timers s) = own ++ Handler.live t0 /\
    if Handler.enableCompletionNotifications n
    then exists id, Handler.notificationInterval s = Some id /\
                    own = [(id, Handler.completionPollingInterval n * 1000)] /\
                    ~ In id (map fst (Handler.live t0))
    else own = [].
Proof.
  intros s n.
  assert (Hloaded : Handler.reconciled t0 (Handler.loaded t0)).
  { unfold Handler.reconciled, Handler.ownTimers. cbn.
    repeat split; try discriminate; try lia. now exists []. }
  pose proof (runHandler_reconciled t0 (deliveries ++ [latest]) _ Hwf Hloaded) as Hinv.
  assert (Hlast : Handler.lastNotificationSettings s = Some n).
  { subst s. fold runHandler. rewrite runHandler_last.
    destruct (handle_frame latest (snd (runHandler deliveries (Handler.loaded t0))))
      as (_ & _ & -> & _).
    apply reconcileTimers_snapshot. }
  split; [exact Hlast|].
  fold runHandler in s. fold s in Hinv.
  destruct Hinv as (_ & Hid & own & Hlive & Hown).
  exists own. split; [exact Hlive|].
  unfold Handler.ownTimers in Hown. rewrite Hlast in Hown.
  destruct (Handler.enableCompletionNotifications n); [|exact Hown].
  destruct Hown as (id & Hsome & ->). exists id. repeat split; auto.
  intros Hin. apply in_map_iff in Hin as (timer & Hfst & Hin).
  unfold Handler.wellFormed in Hwf. rewrite Forall_forall in Hwf.
  specialize (Hwf timer Hin). specialize (Hid id Hsome). lia.
Qed.

(** X19. A change of the cache does not restart the periodic poll.  Two
    deliveries in a row with equal notification settings: the second
    leaves the timers, the remembered id and the remembered settings as
    the first left them, whatever else changed in the stored state. *)
Theorem unchanged_settings_keep_the_timer
        (first second : Handler.Delivery VisibleTaskSettings) (s : Handler.State)
        (Hsame : Handler.notifications (Handler.settings second)
                 = Handler.notifications (Handler.settings first)) :
  let s1 := snd (Handler.handle VisibleTaskSettings filterTasks START_TIME first s) in
  let s2 := snd (Handler.handle VisibleTaskSettings filterTasks START_TIME second s1) in
  Handler.timers s2 = Handler.timers s1 /\
  Handler.notificationInterval s2 = Handler.notificationInterval s1 /\
  Handler.lastNotificationSettings s2 = Handler.lastNotificationSettings s1.
Proof.
  intros s1 s2.
  assert (Hlast : Handler.lastNotificationSettings s1
                  = Some (Handler.notifications (Handler.settings second))).
  { subst s1. fold handle. destruct (handle_frame first s) as (_ & _ & -> & _).
    rewrite Hsame. apply reconcileTimers_snapshot. }
  subst s2. fold handle.
  destruct (handle_frame second s1) as (Ht & Hn & Hl & _).
  rewrite (reconcileTimers_same _ _ Hlast) in Ht, Hn, Hl.
  auto.
Qed.

End HandlerFacts.

Lemma periodic_poll_follows_settings_witness :
  let quiet := {| Handler.enableCompletionNotifications := false;
                  Handler.enableFeedbackNotifications := true;
                  Handler.completionPollingInterval := 60 |} in
  let loud := {| Handler.enableCompletionNotifications := true;
                 Handler.enableFeedbackNotifications := true;
                 Handler.completionPollingInterval := 30 |} in
  let deliver n := {| Handler.cache := Laws.emptyState;
                      Handler.settings :=
                        {| Handler.notifications := n; Handler.visibleTasks := tt;
                           Handler.badgeDisplayType := "total" |};
                      Handler.didUpdateSettings := false |} in
  let page := {| Handler.live := [(1%nat, 500)]; Handler.handedOut := 1 |} in
  exists id,
    id <> 1%nat /\
    Handler.live
      (Handler.timers
         (snd (Handler.run unit (fun tasks _ => tasks) 0
                           [deliver loud; deliver quiet; deliver loud]
                           (Handler.loaded page))))
    = [(id, 30000); (1%nat, 500)].
Proof.
  intros quiet loud deliver page.
  assert (Hwf : Handler.wellFormed page) by (repeat constructor).
  destruct (periodic_poll_follows_settings
              unit (fun tasks _ => tasks) 0 page
              [deliver loud; deliver quiet] (deliver loud) Hwf)
    as (_ & own & Hlive & id & Hid & Hown & Hforeign).
  exists id. split.
  - intros ->. apply Hforeign. now left.
  - change ([deliver loud; deliver quiet; deliver loud])
      with ([deliver loud; deliver quiet] ++ [deliver loud]).
    rewrite Hlive, Hown. reflexivity.
Defined.

Lemma unchanged_settings_keep_the_timer_witness :
  let n := {| Handler.enableCompletionNotifications := true;
              Handler.enableFeedbackNotifications := false;
              Handler.completionPollingInterval := 15 |} in
  let deliver c := {| Handler.cache := c;
                      Handler.settings :=
                        {| Handler.notifications := n; Handler.visibleTasks := tt;
                           Handler.badgeDisplayType := "filtered" |};
                      Handler.didUpdateSettings := false |} in
  let s1 := snd (Handler.handle unit (fun tasks _ => tasks) 0
                                (deliver Laws.emptyState)
                                (Handler.loaded {| Handler.live := [];
                                                   Handler.handedOut := 0 |})) in
  Handler.timers
    (snd (Handler.handle unit (fun tasks _ => tasks) 0
                         (deliver (cached (Scenario.polled 5 [Scenario.task "1" "finished"])))
                         s1))
  = Handler.timers s1.
Proof.
  intros n deliver s1.
  exact (proj1 (unchanged_settings_keep_the_timer
                  unit (fun tasks _ => tasks) 0
                  (deliver Laws.emptyState)
                  (deliver (cached (Scenario.polled 5 [Scenario.task "1" "finished"])))
                  (Handler.loaded {| Handler.live := []; Handler.handedOut := 0 |})
                  eq_refl)).
Defined.


Lemma showNat_digits (n : nat) :
  NilEmpty.uint_of_string (Js.showNat n) = Some (Nat.to_uint n).
Proof. apply NilEmpty.usu. Qed.

Lemma showNat_inj (a b : nat) : Js.showNat a = Js.showNat b -> a = b.
Proof.
  intros H. pose proof (showNat_digits a) as Ha.
  rewrite H, showNat_digits in Ha. injection Ha as Ha.
  now apply Unsigned.to_uint_inj.
Qed.

Lemma showNat_nonempty (n : nat) : Js.showNat n <> "".
Proof.
  intros H. pose proof (showNat_digits n) as Hn. rewrite H in Hn.
  cbn in Hn. injection Hn as Hn.
  assert (n = 0%nat) as -> by (rewrite <- (Unsigned.of_to n), <- Hn; reflexivity).
  discriminate H.
Qed.

Lemma showNat_zero (n : nat) : Js.showNat n = "0" -> n = 0%nat.
Proof. intros H. now apply showNat_inj. Qed.

Section BadgeFacts.

Variable VisibleTaskSettings : Type.
Variable filterTasks :
  list DownloadStationTask -> VisibleTaskSettings -> list DownloadStationTask.
Variable START_TIME : Z.

Let badge := Handler.badge VisibleTaskSettings filterTasks.
Let taskCount := Handler.taskCount VisibleTaskSettings filterTasks.

(** X20. What the badge says.  A failing state shows the disabled
    icon, a blank text and the red colour, whatever the tasks, the
    filters and the display mode, and the handler goes on.  A text the
    badge is given is never the digit zero; it is blank exactly when
    the state is failing or the count is zero; and two healthy states
    with different counts never show the same text, so the count can
    be read off the badge. *)
Theorem badge_shows_the_count (d : Handler.Delivery VisibleTaskSettings) :
  (taskFetchFailureReason (Handler.cache d) <> NoFailure ->
   Handler.badge VisibleTaskSettings filterTasks d
   = ([Handler.SetIcon true; Handler.SetBadgeText "";
       Handler.SetBadgeBackgroundColor 217 0 0 255], true))
  /\
  (forall text,
      In (Handler.SetBadgeText text)
         (fst (Handler.badge VisibleTaskSettings filterTasks d)) ->
      text <> "0" /\
      (text = "" <->
       taskFetchFailureReason (Handler.cache d) <> NoFailure \/
       Handler.taskCount VisibleTaskSettings filterTasks d = Some 0%nat))
  /\
  (forall d' n n',
      taskFetchFailureReason (Handler.cache d) = NoFailure ->
      taskFetchFailureReason (Handler.cache d') = NoFailure ->
      Handler.taskCount VisibleTaskSettings filterTasks d = Some n ->
      Handler.taskCount VisibleTaskSettings filterTasks d' = Some n' ->
      Handler.badgeTexts (fst (Handler.badge VisibleTaskSettings filterTasks d))
      = Handler.badgeTexts (fst (Handler.badge VisibleTaskSettings filterTasks d')) ->
      n = n').
Proof.
  fold badge taskCount. split; [|split].
  - intros Hfailing. subst badge. unfold Handler.badge.
    destruct (taskFetchFailureReason (Handler.cache d)); [contradiction| |]; reflexivity.
  - intros text Hin. subst badge taskCount. unfold Handler.badge in Hin.
    destruct (taskFetchFailureReason (Handler.cache d)) eqn:Er.
    + destruct (Handler.taskCount VisibleTaskSettings filterTasks d) as [n|] eqn:En.
      * cbn in Hin. destruct Hin as [H|[H|[H|[]]]]; try discriminate.
        injection H as <-.
        destruct (Nat.eqb_spec n 0) as [->|Hn].
        -- split; [discriminate|]. split; auto.
        -- split.
           ++ intros H0. apply showNat_zero in H0. contradiction.
           ++ split.
              ** intros He. now apply showNat_nonempty in He.
              ** intros [Hc|Hc]; [contradiction | congruence].
      * cbn in Hin. destruct Hin as [H|[]]. discriminate.
    + cbn in Hin. destruct Hin as [H|[H|[H|[]]]]; try discriminate.
      injection H as <-. split; [discriminate|].
      split; [left; discriminate | reflexivity].
    + cbn in Hin. destruct Hin as [H|[H|[H|[]]]]; try discriminate.
      injection H as <-. split; [discriminate|].
      split; [left; discriminate | reflexivity].
  - intros d' n n' Hr Hr' Hn Hn'. subst badge taskCount. unfold Handler.badge.
    rewrite Hr, Hr', Hn, Hn'. cbn.
    destruct (Nat.eqb_spec n 0) as [->|H0], (Nat.eqb_spec n' 0) as [->|H0'];
      intros H.
    + reflexivity.
    + injection H as H. symmetry in H. now apply showNat_nonempty in H.
    + injection H as H. now apply showNat_nonempty in H.
    + injection H as H. now apply showNat_inj.
Qed.

Lemma noticesOf_app (a b : list Handler.Effect) :
  Handler.noticesOf (a ++ b) = Handler.noticesOf a ++ Handler.noticesOf b.
Proof. unfold Handler.noticesOf. apply flat_map_app. Qed.

Lemma noticesOf_Notify (notices : list Background.Notice) :
  Handler.noticesOf (map Handler.Notify notices) = notices.
Proof.
  induction notices as [|n rest IH]; [reflexivity|].
  cbn. unfold Handler.noticesOf in IH. now rewrite IH.
Qed.

Lemma badge_is_silent (d : Handler.Delivery VisibleTaskSettings) :
  Handler.noticesOf (fst (badge d)) = [].
Proof.
  subst badge. unfold Handler.badge.
  destruct (taskFetchFailureReason (Handler.cache d)); try reflexivity.
  destruct (Handler.taskCount _ _ d); reflexivity.
Qed.

Lemma badge_proceeds (d : Handler.Delivery VisibleTaskSettings) :
  snd (badge d) = true <-> Handler.recognised VisibleTaskSettings d.
Proof.
  subst badge. unfold Handler.badge, Handler.recognised, Handler.taskCount.
  destruct (taskFetchFailureReason (Handler.cache d)).
  - destruct (String.eqb_spec (Handler.badgeDisplayType (Handler.settings d)) "total")
      as [Ht|Ht].
    + cbn. split; auto.
    + destruct (String.eqb_spec (Handler.badgeDisplayType (Handler.settings d))
                                "filtered") as [Hf|Hf].
      * cbn. split; auto.
      * cbn. split; [discriminate|]. intros [H|[H|H]]; contradiction.
  - cbn. split; [left; discriminate | reflexivity].
  - cbn. split; [left; discriminate | reflexivity].
Qed.

(** One delivery: with a recognised display mode the notices and the
    finished ids are those of the completion decision; with an
    unknown one the handler returns before the decision. *)
Lemma handle_decision (d : Handler.Delivery VisibleTaskSettings) (s : Handler.State) :
  let result := Handler.handle VisibleTaskSettings filterTasks START_TIME d s in
  let decision := Background.onStoredStateChange
                    START_TIME (Handler.finishedTaskIds s)
                    (Handler.decisionView VisibleTaskSettings d) in
  (Handler.recognised VisibleTaskSettings d ->
   Handler.noticesOf (fst result) = fst decision /\
   Handler.finishedTaskIds (snd result) = snd decision)
  /\
  (~ Handler.recognised VisibleTaskSettings d ->
   Handler.noticesOf (fst result) = [] /\
   Handler.finishedTaskIds (snd result) = Handler.finishedTaskIds s).
Proof.
  cbv zeta. unfold Handler.handle, Handler.decisionView.
  pose proof (badge_proceeds d) as Hp. pose proof (badge_is_silent d) as Hs.
  subst badge.
  assert (Hf : Handler.finishedTaskIds
                 (Handler.reconcileTimers (Handler.notifications (Handler.settings d)) s)
               = Handler.finishedTaskIds s).
  { unfold Handler.reconcileTimers. destruct (negb _); [|reflexivity].
    destruct (Handler.enableCompletionNotifications _); reflexivity. }
  rewrite Hf.
  assert (Hreload : Handler.noticesOf (if Handler.didUpdateSettings d
                                       then [Handler.Reload] else []) = [])
    by (now destruct (Handler.didUpdateSettings d)).
  destruct (Handler.badge VisibleTaskSettings filterTasks d) as [ops proceeds].
  cbn [fst snd] in Hp, Hs.
  destruct proceeds.
  - split; [|intros Hn; exfalso; apply Hn, Hp; reflexivity].
    intros _.
    destruct (Background.onStoredStateChange _ _ _) as [notices ids]. cbn [fst snd].
    split; [|reflexivity].
    now rewrite !noticesOf_app, Hreload, Hs, noticesOf_Notify.
  - split; [intros Hr; apply Hp in Hr; discriminate|].
    intros _. cbn [fst snd Handler.finishedTaskIds].
    split; [|reflexivity].
    now rewrite noticesOf_app, Hreload, Hs.
Qed.

(** X21. The handler runs the completion decision.  Over any sequence
    of deliveries whose display modes the badge decision knows, the
    notices the whole handler issues and the finished ids it ends with
    are those of the completion decision run alone over the same
    states: the reload, the timers and the badge do not interfere.  A
    delivery with an unknown display mode in a healthy state makes the
    handler return early: no notice, and the finished ids stay. *)
Theorem handler_runs_the_decision
        (deliveries : list (Handler.Delivery VisibleTaskSettings)) (s : Handler.State)
        (Hmodes : Forall (Handler.recognised VisibleTaskSettings) deliveries) :
  let result := Handler.run VisibleTaskSettings filterTasks START_TIME deliveries s in
  let decisions := Background.run START_TIME (Handler.finishedTaskIds s)
                                  (map (Handler.decisionView VisibleTaskSettings)
                                       deliveries) in
  Handler.noticesOf (fst result) = fst decisions /\
  Handler.finishedTaskIds (snd result) = snd decisions /\
  forall d, ~ Handler.recognised VisibleTaskSettings d ->
    Handler.noticesOf
      (fst (Handler.handle VisibleTaskSettings filterTasks START_TIME d (snd result)))
    = [] /\
    Handler.finishedTaskIds
      (snd (Handler.handle VisibleTaskSettings filterTasks START_TIME d (snd result)))
    = Handler.finishedTaskIds (snd result).
Proof.
  cbv zeta.
  assert (Hrun : forall ds st,
             Forall (Handler.recognised VisibleTaskSettings) ds ->
             Handler.noticesOf
               (fst (Handler.run VisibleTaskSettings filterTasks START_TIME ds st))
             = fst (Background.run START_TIME (Handler.finishedTaskIds st)
                                   (map (Handler.decisionView VisibleTaskSettings) ds))
             /\
             Handler.finishedTaskIds
               (snd (Handler.run VisibleTaskSettings filterTasks START_TIME ds st))
             = snd (Background.run START_TIME (Handler.finishedTaskIds st)
                                   (map (Handler.decisionView VisibleTaskSettings) ds))).
  { induction ds as [|d rest IH]; intros st Hall; [split; reflexivity|].
    inversion Hall as [|? ? Hd Hrest]; subst.
    cbn [Handler.run Background.run map].
    destruct (handle_decision d st) as [Hstep _]. destruct (Hstep Hd) as [Hn Hi].
    destruct (Handler.handle VisibleTaskSettings filterTasks START_TIME d st)
      as [e1 s1].
    destruct (Background.onStoredStateChange
                START_TIME (Handler.finishedTaskIds st)
                (Handler.decisionView VisibleTaskSettings d)) as [n1 i1].
    cbn [fst snd] in Hn, Hi.
    destruct (IH s1 Hrest) as [Hn2 Hi2]. rewrite Hi in Hn2, Hi2.
    destruct (Handler.run VisibleTaskSettings filterTasks START_TIME rest s1)
      as [e2 s2].
    destruct (Background.run START_TIME i1 _) as [n2 i2].
    cbn [fst snd] in *. split; [|exact Hi2].
    now rewrite noticesOf_app, Hn, Hn2. }
  destruct (Hrun deliveries s Hmodes) as [Hn Hi].
  split; [exact Hn|]. split; [exact Hi|].
  intros d Hd. now apply handle_decision.
Qed.

End BadgeFacts.

Lemma handler_runs_the_decision_witness :
  let n := {| Handler.enableCompletionNotifications := true;
              Handler.enableFeedbackNotifications := true;
              Handler.completionPollingInterval := 60 |} in
  let deliver mode (state : StoredState) :=
    {| Handler.cache := cached state;
       Handler.settings :=
         {| Handler.notifications := n; Handler.visibleTasks := tt;
            Handler.badgeDisplayType := mode |};
       Handler.didUpdateSettings := true |} in
  Handler.noticesOf
    (fst (Handler.run unit (fun tasks _ => []) 100
                      (map (deliver "filtered") Scenario.scenarioA)
                      (Handler.loaded {| Handler.live := []; Handler.handedOut := 0 |})))
  = fst (Background.run 100 None Scenario.scenarioA).
Proof.
  intros n deliver.
  assert (Hmodes : Forall (Handler.recognised unit)
                          (map (deliver "filtered") Scenario.scenarioA))
    by (repeat constructor; right; right; reflexivity).
  exact (proj1 (handler_runs_the_decision
                  unit (fun tasks _ => []) 100
                  (map (deliver "filtered") Scenario.scenarioA)
                  (Handler.loaded {| Handler.live := []; Handler.handedOut := 0 |})
                  Hmodes)).
Defined.


(** ** The popup *)

Section PopupFacts.

Variable VisibleTaskSettings : Type.
Variable TaskSortType : Type.
Variable filterTasks :
  list DownloadStationTask -> VisibleTaskSettings -> list DownloadStationTask.
Variable sortTasks :
  list DownloadStationTask -> TaskSortType -> list DownloadStationTask.

Let renderTaskList :=
  Popup.renderTaskList VisibleTaskSettings TaskSortType filterTasks sortTasks.

(** X22. Header and body of the popup agree.  The body asks to
    configure exactly when the header says the settings are
    unconfigured; the body shows the bare spinner exactly when the
    header says it is updating; the header icon spins exactly when no
    fetch has completed in a configured state or a fetch was initiated
    after the last completed one; and the error styling and the info
    icon come together, exactly for a failure message after a completed
    fetch. *)
Theorem popup_header_and_body_agree
        (props : CachedTasks) (visibleTasks : VisibleTaskSettings)
        (taskSort : TaskSortType) :
  let header := Popup.renderHeader props in
  let body := Popup.renderTaskList VisibleTaskSettings TaskSortType
                                   filterTasks sortTasks props visibleTasks taskSort in
  (body = Popup.Configure <->
   Popup.text header = Popup.Message "Settings_unconfigured")
  /\
  (body = Popup.Loading <-> Popup.text header = Popup.Message "Updating")
  /\
  (Popup.leftIcon header = Popup.spinner <->
   (taskFetchFailureReason props <> MissingConfig /\
    tasksLastCompletedFetchTimestamp props = None)
   \/
   exists initiated completed,
     tasksLastInitiatedFetchTimestamp props = Some initiated /\
     tasksLastCompletedFetchTimestamp props = Some completed /\
     completed < initiated)
  /\
  (Popup.classes header = Some "intent-error" <->
   Popup.rightIcon header = Some "fa-info-circle")
  /\
  (Popup.classes header = Some "intent-error" <->
   exists failureMessage completed,
     taskFetchFailureReason props = FailureMessage failureMessage /\
     tasksLastCompletedFetchTimestamp props = Some completed).
Proof.
  cbv zeta. unfold Popup.renderHeader, Popup.renderTaskList, Popup.spinner.
  destruct props as [ts reason initiated completed]. cbn [tasks taskFetchFailureReason
    tasksLastInitiatedFetchTimestamp tasksLastCompletedFetchTimestamp].
  split; [|split; [|split; [|split]]].
  - destruct reason, completed as [c|], initiated as [i|];
      try destruct (c <? i);
      try destruct (List.length ts =? 0)%nat;
      try destruct (List.length (filterTasks ts visibleTasks) =? 0)%nat;
      cbn; split; intros H; solve [discriminate H | reflexivity].
  - destruct reason, completed as [c|], initiated as [i|];
      try destruct (c <? i);
      try destruct (List.length ts =? 0)%nat;
      try destruct (List.length (filterTasks ts visibleTasks) =? 0)%nat;
      cbn; split; intros H; solve [discriminate H | reflexivity].
  - destruct reason, completed as [c|], initiated as [i|];
      try destruct (Z.ltb_spec c i) as [Hci|Hci]; cbn; split; intros H;
      first
        [ discriminate H
        | solve [left; split; [discriminate | reflexivity]]
        | solve [right; exists i, c; repeat split; assumption]
        | reflexivity
        | destruct H as [[Hr Hc]|(i' & c' & Hi & Hc & Hlt)];
          solve [ discriminate
                | contradiction
                | injection Hi as <-; injection Hc as <-; lia ] ].
  - destruct reason, completed as [c|], initiated as [i|];
      try destruct (c <? i); cbn; split; intros H;
      solve [discriminate H | reflexivity].
  - destruct reason as [| |message], completed as [c|], initiated as [i|];
      try destruct (c <? i); cbn; split; intros H;
      first
        [ discriminate H
        | solve [exists message, c; split; reflexivity]
        | reflexivity
        | destruct H as (m' & c' & Hr & Hc); discriminate ].
Qed.

End PopupFacts.


(** X23. A poll, seen in the popup.  The popup reads the four keys of
    the cache.  After the initiation write alone the header icon spins
    exactly when no fetch had completed in a configured state, or the
    last completed fetch is strictly older than this initiation.  After
    a poll whose writes commit, on a clock that did not run backwards
    in between, the icon does not spin and the header does not say it
    is updating; it shows the success styling exactly when the response
    was a task list, then with the completion time of this poll; and
    for a failure message the tooltip is that message. *)
Theorem poll_settles_the_header
        (env : Env) (lib : Lib) (w w1 w2 : World)
        (response : ApiResult (list DownloadStationTask))
        (Hinit : storage_local_set env (Spec.initWrite (clock env (ticks w)))
                                   (snd (Date_now env w)) = (Resolved tt, w1))
        (Hcall : doTaskPoll env tt w1 = (Resolved response, w2))
        (Hcommit : storageCommits env (trace (snd (pollTasks env lib w))) = true)
        (Hclock : clock env (ticks w) <= clock env (S (ticks w))) :
  let inFlight := Popup.renderHeader
                    (merge (store w) (Spec.initWrite (clock env (ticks w)))) in
  let header := Popup.renderHeader (store (snd (pollTasks env lib w))) in
  (Popup.leftIcon inFlight = Popup.spinner <->
   match tasksLastCompletedFetchTimestamp (store w) with
   | None => taskFetchFailureReason (store w) <> MissingConfig
   | Some completed => completed < clock env (ticks w)
   end)
  /\ Popup.leftIcon header <> Popup.spinner
  /\ Popup.text header <> Popup.Message "Updating"
  /\ ((exists data, response = Response (Success data)) <->
      Popup.classes header = Some "intent-success")
  /\ (Popup.classes header = Some "intent-success" ->
      Popup.text header = Popup.UpdatedFromNow (clock env (S (ticks w))))
  /\ (forall message,
         taskFetchFailureReason (store (snd (pollTasks env lib w)))
         = FailureMessage message ->
         Popup.tooltip header = Popup.Literal message).
Proof.
  cbv zeta.
  rewrite (completed_poll_store env lib w w1 w2 response Hinit Hcall Hcommit).
  set (t0 := clock env (ticks w)) in *. set (t1 := clock env (S (ticks w))) in *.
  split.
  - unfold Popup.renderHeader, merge, Spec.initWrite, override, Popup.spinner.
    cbn [tasks taskFetchFailureReason tasksLastInitiatedFetchTimestamp
         tasksLastCompletedFetchTimestamp p_tasks p_taskFetchFailureReason
         p_tasksLastInitiatedFetchTimestamp p_tasksLastCompletedFetchTimestamp].
    destruct (taskFetchFailureReason (store w)),
             (tasksLastCompletedFetchTimestamp (store w)) as [c|];
      try destruct (Z.ltb_spec c t0) as [Hc|Hc]; cbn; split; intros H;
      first [ discriminate H | reflexivity | assumption | lia
            | discriminate | now contradiction H ].
  - assert (Hno : (t1 <? t0) = false) by (apply Z.ltb_ge; exact Hclock).
    unfold Popup.renderHeader, merge, Spec.initWrite, Spec.resultWrite, override,
      Popup.spinner.
    destruct response as [failure|[data|code]];
      [destruct (String.eqb (cf_type failure) "missing-config")| |];
      cbn [tasks taskFetchFailureReason tasksLastInitiatedFetchTimestamp
           tasksLastCompletedFetchTimestamp p_tasks p_taskFetchFailureReason
           p_tasksLastInitiatedFetchTimestamp p_tasksLastCompletedFetchTimestamp];
      rewrite Hno; cbn;
      (split; [discriminate|]); (split; [discriminate|]);
      (split; [split; [intros (data' & Hd); first [discriminate Hd | reflexivity]
                      | intros Hc; first [discriminate Hc | eauto]]|]);
      (split; [intros Hc; first [discriminate Hc | reflexivity]|]);
      intros message Hm; first [discriminate Hm | now injection Hm as <-].
Qed.

Lemma poll_settles_the_header_witness :
  let env := Scenario.scriptedEnv Scenario.always
               [Scenario.success [Scenario.task "7" "downloading"]] [] in
  let header :=
    Popup.renderHeader (store (snd (pollTasks env Scenario.demoLib Scenario.world0))) in
  Popup.text header = Popup.UpdatedFromNow 1001 /\
  Popup.leftIcon header <> Popup.spinner.
Proof.
  intros env.
  assert (Hclock : clock env (ticks Scenario.world0)
                   <= clock env (S (ticks Scenario.world0)))
    by (vm_compute; discriminate).
  destruct (poll_settles_the_header
              env Scenario.demoLib Scenario.world0 _ _
              (Response (Success [Scenario.task "7" "downloading"]))
              eq_refl eq_refl eq_refl Hclock)
    as (_ & Hicon & _ & Hclasses & Htext & _).
  pose proof (proj1 Hclasses (ex_intro _ _ eq_refl)) as Hc.
  split; [exact (Htext Hc) | exact Hicon].
Defined.

Section ClearedFacts.

Variable VisibleTaskSettings : Type.
Variable TaskSortType : Type.
Variable filterTasks :
  list DownloadStationTask -> VisibleTaskSettings -> list DownloadStationTask.
Variable sortTasks :
  list DownloadStationTask -> TaskSortType -> list DownloadStationTask.

(** X24. A cleared cache reads as loading, not as empty.  When the
    write of [clearCachedTasks] commits, the cache is the empty state
    whatever it held; the popup then shows the bare spinner and the
    updating header, not the message that there are no tasks; the
    badge in the total display mode is blank on the enabled icon; and
    the completion decision of the subscriber is skipped for the
    cleared state, so the finished ids it tracks are kept. *)
Theorem cleared_cache_reads_as_loading
        (env : Env) (w : World)
        (visibleTasks : VisibleTaskSettings) (taskSort : TaskSortType)
        (Hcommit : storageCommits env (trace w ++ [StorageSet Laws.clearWrite]) = true) :
  let cache := store (snd (clearCachedTasks env w)) in
  cache = Laws.emptyState
  /\ Popup.renderTaskList VisibleTaskSettings TaskSortType filterTasks sortTasks
                          cache visibleTasks taskSort = Popup.Loading
  /\ Popup.text (Popup.renderHeader cache) = Popup.Message "Updating"
  /\ Popup.leftIcon (Popup.renderHeader cache) = Popup.spinner
  /\ (forall START_TIME finishedTaskIds enabled,
         Background.onStoredStateChange START_TIME finishedTaskIds
                                        (Laws.observed cache enabled)
         = ([], finishedTaskIds))
  /\ (forall settings didUpdateSettings,
         Handler.badgeDisplayType settings = "total" ->
         Handler.badge VisibleTaskSettings filterTasks
                       {| Handler.cache := cache; Handler.settings := settings;
                          Handler.didUpdateSettings := didUpdateSettings |}
         = ([Handler.SetIcon false; Handler.SetBadgeText "";
             Handler.SetBadgeBackgroundColor 0 217 0 255], true)).
Proof.
  cbv zeta.
  assert (Hstore : store (snd (clearCachedTasks env w)) = Laws.emptyState).
  { unfold clearCachedTasks, storage_local_set. cbn [log trace].
    fold Laws.clearWrite. rewrite Hcommit. reflexivity. }
  rewrite Hstore. repeat split.
  intros settings didUpdateSettings Hmode.
  unfold Handler.badge, Handler.taskCount. cbn. now rewrite Hmode.
Qed.

End ClearedFacts.

Lemma cleared_cache_reads_as_loading_witness :
  let env := Scenario.scriptedEnv Scenario.always [] [] in
  let before := {| trace := [];
                   store := cached (Scenario.polled 7 [Scenario.task "1" "finished"]);
                   ticks := 0; idCounter := 0 |} in
  Popup.renderTaskList unit unit (fun tasks _ => tasks) (fun tasks _ => tasks)
                       (store before) tt tt
  = Popup.Rows [Scenario.task "1" "finished"] None
  /\
  Popup.renderTaskList unit unit (fun tasks _ => tasks) (fun tasks _ => tasks)
                       (store (snd (clearCachedTasks env before))) tt tt
  = Popup.Loading.
Proof.
  intros env before. split; [reflexivity|].
  exact (proj1 (proj2 (cleared_cache_reads_as_loading
                         unit unit (fun tasks _ => tasks) (fun tasks _ => tasks)
                         env before tt tt eq_refl))).
Defined.

(** X25. The clear button and the completion decision count
    differently.  Every id the popup's clear button deletes is one the
    background counts as finished; the background counts, beside
    those, exactly the seeding tasks, which the button never deletes;
    and with a delete action at hand and no clearing under way the
    button is disabled exactly when no task is finished. *)
Theorem clear_button_leaves_seeding_tasks (props : CachedTasks) (enabled : bool) :
  incl (Popup.completedTaskIds props)
       (Background.updatedFinishedTaskIds (Laws.observed props enabled))
  /\
  (forall id,
      In id (Background.updatedFinishedTaskIds (Laws.observed props enabled)) <->
      In id (Popup.completedTaskIds props) \/
      exists t, In t (tasks props) /\ task_id t = id /\ task_status t = "seeding")
  /\
  (forall t, In t (tasks props) -> task_status t = "seeding" ->
             ~ In t (filter (fun t => String.eqb (task_status t) "finished")
                            (tasks props)))
  /\
  (Popup.clearDisabled false true props = true <->
   forall t, In t (tasks props) -> task_status t <> "finished").
Proof.
  unfold Popup.clearDisabled, Popup.completedTaskIds,
    Background.updatedFinishedTaskIds, Background.isTerminal, Laws.observed.
  cbn [cached]. set (ts := tasks props).
  assert (Hiff : forall id,
             In id (map task_id
                        (filter (fun t => String.eqb (task_status t) "finished"
                                          || String.eqb (task_status t) "seeding") ts))
             <->
             In id (map task_id
                        (filter (fun t => String.eqb (task_status t) "finished") ts))
             \/ exists t, In t ts /\ task_id t = id /\ task_status t = "seeding").
  { intros id. rewrite !in_map_iff. split.
    - intros (t & Hid & Hin). apply filter_In in Hin as [Hin Hst].
      apply orb_true_iff in Hst as [Hst|Hst].
      + left. exists t. split; [exact Hid|]. apply filter_In. now split.
      + right. exists t. apply String.eqb_eq in Hst. now repeat split.
    - intros [(t & Hid & Hin)|(t & Hin & Hid & Hst)].
      + apply filter_In in Hin as [Hin Hst]. exists t. split; [exact Hid|].
        apply filter_In. split; [exact Hin|]. now rewrite Hst.
      + exists t. split; [exact Hid|]. apply filter_In. split; [exact Hin|].
        rewrite Hst. reflexivity. }
  split; [|split; [exact Hiff|split]].
  - intros id Hin. apply Hiff. now left.
  - intros t Hin Hst Hf. apply filter_In in Hf as [_ Hf].
    rewrite Hst in Hf. discriminate.
  - cbn [orb negb]. rewrite Nat.eqb_eq, length_map. split.
    + intros Hlen t Hin Hst.
      assert (Hf : In t (filter (fun t => String.eqb (task_status t) "finished") ts))
        by (apply filter_In; split; [exact Hin | now rewrite Hst]).
      apply length_zero_iff_nil in Hlen. rewrite Hlen in Hf. contradiction.
    + intros Hnone.
      destruct (filter (fun t => String.eqb (task_status t) "finished") ts)
        as [|t rest] eqn:E; [reflexivity|].
      assert (Hf : In t (filter (fun t => String.eqb (task_status t) "finished") ts))
        by (rewrite E; now left).
      apply filter_In in Hf as [Hin Hst]. apply String.eqb_eq in Hst.
      now apply Hnone in Hin.
Qed.
